(** * VeilChain: a shallow embedding of the ledger core

    The development follows the Python sources module by module
    (crypto.py, merkle.py, transaction.py, block.py, consensus.py,
    utxo.py, mempool.py, privacy.py, network.py, blockchain.py).

    Modelling conventions:
    - a Python [str] is a [string] of bytes (its UTF-8 encoding), so
      [len] and [encode] agree with Python on ASCII text;
    - a Python [float] is an exact rational ([Q]); comparisons are the
      rational ones and [str_float] prints the decimal expansion;
    - a Python [int] is a [Z];
    - [dict] is [gmap], [set] is [gset], [list] is [list];
    - every [time.time()] reading is an explicit argument;
    - objects mutated in place become explicit state passing. *)

From Stdlib Require Import ZArith NArith QArith Lqa Ascii String List Sorted Lia.
From Stdlib Require Import DecimalString Qpower Qabs Qround.
From stdpp Require Import base gmap strings list.

Open Scope string_scope.
Open Scope nat_scope.

Set Warnings "-clear-no-such-hyp".

(* ===================================================================== *)
(** ** crypto.py *)
(* ===================================================================== *)

Module Crypto.

(** SHA-256 (FIPS 180-4) over 32-bit words kept in [N]. *)

Definition mask32 : N := 4294967295%N.
Definition add32 (a b : N) : N := N.land (a + b) mask32.
Definition rotr (n x : N) : N :=
  N.lor (N.shiftr x n) (N.land (N.shiftl x (32 - n)) mask32).
Definition not32 (x : N) : N := N.lxor x mask32.

Definition Ch (x y z : N) : N := N.lxor (N.land x y) (N.land (not32 x) z).
Definition Maj (x y z : N) : N :=
  N.lxor (N.land x y) (N.lxor (N.land x z) (N.land y z)).
Definition bsig0 (x : N) : N := N.lxor (rotr 2 x) (N.lxor (rotr 13 x) (rotr 22 x)).
Definition bsig1 (x : N) : N := N.lxor (rotr 6 x) (N.lxor (rotr 11 x) (rotr 25 x)).
Definition ssig0 (x : N) : N := N.lxor (rotr 7 x) (N.lxor (rotr 18 x) (N.shiftr x 3)).
Definition ssig1 (x : N) : N := N.lxor (rotr 17 x) (N.lxor (rotr 19 x) (N.shiftr x 10)).

Definition K256 : list N :=
  [ 1116352408; 1899447441; 3049323471; 3921009573; 961987163; 1508970993; 2453635748; 2870763221;
    3624381080; 310598401; 607225278; 1426881987; 1925078388; 2162078206; 2614888103; 3248222580;
    3835390401; 4022224774; 264347078; 604807628; 770255983; 1249150122; 1555081692; 1996064986;
    2554220882; 2821834349; 2952996808; 3210313671; 3336571891; 3584528711; 113926993; 338241895;
    666307205; 773529912; 1294757372; 1396182291; 1695183700; 1986661051; 2177026350; 2456956037;
    2730485921; 2820302411; 3259730800; 3345764771; 3516065817; 3600352804; 4094571909; 275423344;
    430227734; 506948616; 659060556; 883997877; 958139571; 1322822218; 1537002063; 1747873779;
    1955562222; 2024104815; 2227730452; 2361852424; 2428436474; 2756734187; 3204031479; 3329325298 ]%N.

Definition H256 : list N :=
  [ 1779033703; 3144134277; 1013904242; 2773480762;
    1359893119; 2600822924; 528734635; 1541459225 ]%N.

(** Message schedule; the words are kept newest first. *)
Fixpoint schedule (n : nat) (rev_w : list N) : list N :=
  match n with
  | O => rev_w
  | S n' =>
      let w := add32 (add32 (ssig1 (nth 1 rev_w 0%N)) (nth 6 rev_w 0%N))
                     (add32 (ssig0 (nth 14 rev_w 0%N)) (nth 15 rev_w 0%N)) in
      schedule n' (w :: rev_w)
  end.

Definition round (st : list N) (kw : N * N) : list N :=
  match st with
  | [a; b; c; d; e; f; g; h] =>
      let t1 := add32 (add32 (add32 h (bsig1 e)) (add32 (Ch e f g) (fst kw))) (snd kw) in
      let t2 := add32 (bsig0 a) (Maj a b c) in
      [add32 t1 t2; a; b; c; add32 d t1; e; f; g]
  | _ => st
  end.

Definition compress (h : list N) (block : list N) : list N :=
  let w := rev (schedule 48 (rev block)) in
  let h' := fold_left round (combine K256 w) h in
  map (fun p => add32 (fst p) (snd p)) (combine h h').

Fixpoint be_words (bytes : list N) : list N :=
  match bytes with
  | b0 :: b1 :: b2 :: b3 :: rest =>
      (b0 * 16777216 + b1 * 65536 + b2 * 256 + b3)%N :: be_words rest
  | _ => []
  end.

Fixpoint chunks (fuel : nat) (ws : list N) : list (list N) :=
  match fuel with
  | O => []
  | S fuel' =>
      match ws with
      | [] => []
      | _ => firstn 16 ws :: chunks fuel' (skipn 16 ws)
      end
  end.

Definition pad (msg : list N) : list N :=
  let len := N.of_nat (length msg) in
  let zeros := N.to_nat ((119 - len mod 64) mod 64) in
  let bits := (len * 8)%N in
  msg ++ [128%N] ++ repeat 0%N zeros
      ++ map (fun i => N.land (N.shiftr bits (8 * i)) 255) [7; 6; 5; 4; 3; 2; 1; 0]%N.

Definition hex_digit (n : N) : ascii :=
  nth (N.to_nat n)
      ["0"; "1"; "2"; "3"; "4"; "5"; "6"; "7"; "8"; "9"; "a"; "b"; "c"; "d"; "e"; "f"]%char
      "0"%char.

Definition hex_word (w : N) : string :=
  string_of_list_ascii
    (map (fun i => hex_digit (N.land (N.shiftr w (4 * i)) 15)) [7; 6; 5; 4; 3; 2; 1; 0]%N).

Definition digest_words (msg : list N) : list N :=
  let ws := be_words (pad msg) in
  fold_left compress (chunks (S (length ws)) ws) H256.

(** [hashlib.sha256(data.encode()).hexdigest()] *)
Definition sha256 (data : string) : string :=
  String.concat "" (map hex_word (digest_words (map N_of_ascii (list_ascii_of_string data)))).

End Crypto.

Import Crypto.
Arguments sha256 : simpl never.

(* ===================================================================== *)
(** ** Python built-ins used by the sources *)
(* ===================================================================== *)

Module Py.

(** [str(n)] / [f"{n}"] for an [int]. *)
Definition str_int (z : Z) : string := NilZero.string_of_int (Z.to_int z).

(** Digits after the decimal point of [r / d], at most [fuel] of them. *)
Fixpoint frac_digits (fuel : nat) (r d : Z) : string :=
  match fuel with
  | O => ""
  | S fuel' =>
      if (r =? 0)%Z then ""
      else str_int (r * 10 / d) ++ frac_digits fuel' ((r * 10) mod d) d
  end.

(** [f"{x}"] for a [float]: sign, integer part, point, fraction.  This is
    what Python prints for a float that is a short decimal of magnitude in
    [1e-4, 1e16) (12.5, 1000.0, 0.001, ...), the values used below. *)
Definition str_float (q : Q) : string :=
  let n := Z.abs (Qnum q) in
  let d := Z.pos (Qden q) in
  let frac := frac_digits 17 (n mod d) d in
  (if (Qnum q <? 0)%Z then "-" else "")
    ++ str_int (n / d) ++ "." ++ (if String.eqb frac "" then "0" else frac).

(** ['0' * n]: empty when [n <= 0]. *)
Definition zeros (n : Z) : string := string_of_list_ascii (repeat "0"%char (Z.to_nat n)).

(** [s.startswith(p)] *)
Definition startswith (s p : string) : bool := String.prefix p s.

(** [s[:n]], also for negative [n]. *)
Definition slice_to (s : string) (n : Z) : string :=
  if (0 <=? n)%Z then String.substring 0 (Z.to_nat n) s
  else String.substring 0 (String.length s - Z.to_nat (- n)) s.

(** [x in l] and [l.index(x)] on a list of strings. *)
Fixpoint index (x : string) (l : list string) : option nat :=
  match l with
  | [] => None
  | y :: l' => if String.eqb y x then Some O else option_map S (index x l')
  end.

End Py.

(* ===================================================================== *)
(** ** Python floats *)
(* ===================================================================== *)

(** A Python [float] is an IEEE 754 binary64 number.  A finite one is
    written as the rational it stands for, and an operation on floats is
    the exact operation followed by the rounding to the nearest binary64
    number, ties to the even mantissa.  This is Python's arithmetic as long
    as the result stays finite: [round64 x] is the float Python has for
    every [x] with [Qabs x < overflow]; from [overflow] on Python has
    [inf], which is not modelled.  Comparisons of floats are comparisons
    of the rationals. *)
Module Float64.

(** [2^k] *)
Definition pow2 (k : Z) : Q :=
  if (0 <=? k)%Z then inject_Z (2 ^ k) else (1 # Z.to_pos (2 ^ (- k)))%Q.

(** The binary exponent of [x > 0]: the [e] with [2^e <= x < 2^(e+1)]. *)
Definition ilog2 (x : Q) : Z :=
  let e := (Z.log2 (Qnum x) - Z.log2 (Z.pos (Qden x)))%Z in
  if Qle_bool (pow2 e) x then e else (e - 1)%Z.

(** The exponent of the last of the 53 bits of the binary64 numbers
    around [x > 0], never below that of the subnormal numbers. *)
Definition ulp_exp (x : Q) : Z := Z.max (ilog2 x - 52) (-1074).

(** The nearest integer, ties to the even one. *)
Definition rne (t : Q) : Z :=
  let f := Qfloor t in
  match (t - inject_Z f ?= 1 # 2)%Q with
  | Lt => f
  | Gt => (f + 1)%Z
  | Eq => if Z.even f then f else (f + 1)%Z
  end.

Definition round_pos (x : Q) : Q :=
  let u := ulp_exp x in (inject_Z (rne (x / pow2 u)) * pow2 u)%Q.

(** The binary64 number nearest to [x]. *)
Definition round64 (x : Q) : Q :=
  match (x ?= 0)%Q with
  | Eq => 0%Q
  | Gt => Qred (round_pos x)
  | Lt => Qred (- round_pos (- x))%Q
  end.

(** The least magnitude that rounds to [inf]: [2^1024 - 2^970]. *)
Definition overflow : Q := inject_Z (2 ^ 1024 - 2 ^ 970).

(** [x] rounds to a finite float. *)
Definition finite (x : Q) : Prop := (Qabs x < overflow)%Q.

(** [x + y], [x - y] and [x * y] on floats. *)
Definition add (x y : Q) : Q := round64 (x + y)%Q.
Definition sub (x y : Q) : Q := round64 (x - y)%Q.
Definition mul (x y : Q) : Q := round64 (x * y)%Q.

(** A literal such as [0.01]: the float nearest to the decimal. *)
Definition lit (x : Q) : Q := round64 x.

(** [sum(l)] on floats, in CPython before version 3.12: from the int 0, one
    rounded addition per element, from the left. *)
Definition sum (l : list Q) : Q := fold_left add l 0%Q.



End Float64.

(* ===================================================================== *)
(** ** merkle.py *)
(* ===================================================================== *)

Module Merkle.

(** [class MerkleNode]: the hash is computed once, by the constructor. *)
#[warnings="-register-all"] Inductive MerkleNode : Type :=
  MkNode { left : option MerkleNode;
           right : option MerkleNode;
           data : string;
           hash : string }.

(** [MerkleNode.calculate_hash] *)
Definition calculate_hash (l r : option MerkleNode) (d : string) : string :=
  match l, r with
  | Some ln, Some rn => sha256 (hash ln ++ hash rn)
  | _, _ => sha256 d
  end.

(** [MerkleNode(left, right, data)] *)
Definition new_node (l r : option MerkleNode) (d : string) : MerkleNode :=
  MkNode l r d (calculate_hash l r d).

Definition leaf (tx : string) : MerkleNode := new_node None None tx.
Definition parent (l r : MerkleNode) : MerkleNode := new_node (Some l) (Some r) "".

(** One pass of [for i in range(0, len(nodes), 2)] in [build_tree]. *)
Fixpoint pair_level (nodes : list MerkleNode) : list MerkleNode :=
  match nodes with
  | [] => []
  | [l] => [parent l l]
  | l :: r :: rest => parent l r :: pair_level rest
  end.

(** [while len(nodes) > 1].  Every pass at least halves the list, so
    [fuel = len(nodes)] passes are enough (see [build_loop_length]). *)
Fixpoint build_loop (fuel : nat) (nodes : list MerkleNode) : list MerkleNode :=
  match fuel with
  | O => nodes
  | S fuel' =>
      if 1 <? length nodes then build_loop fuel' (pair_level nodes) else nodes
  end.

(** [MerkleTree.build_tree] *)
Definition build_tree (transactions : list string) : option MerkleNode :=
  match transactions with
  | [] => None
  | _ => head (build_loop (length transactions) (map leaf transactions))
  end.

(** [class MerkleTree] *)
Record MerkleTree := { transactions : list string; root : option MerkleNode }.

Definition new_tree (txs : list string) : MerkleTree :=
  {| transactions := txs; root := build_tree txs |}.

(** [MerkleTree.get_root_hash] *)
Definition get_root_hash (t : MerkleTree) : string :=
  match root t with
  | Some r => hash r
  | None => ""
  end.

(** An element of a proof: the dict [{'hash': ..., 'position': ...}]. *)
Record ProofElement := { sibling_hash : string; position : string }.

(** Body of the [if i == index or i + 1 == index] in [get_proof]. *)
Definition record_sibling (i : nat) (l r : MerkleNode) (index : nat)
    (proof : list ProofElement) : nat * list ProofElement :=
  if (i =? index) || (i + 1 =? index) then
    (i / 2,
     (proof ++ [{| sibling_hash := hash (if i =? index then r else l);
                   position := if i =? index then "right" else "left" |}])%list)
  else (index, proof).

(** One pass of the inner [for] of [get_proof], from position [i] on;
    [index] and [proof] are updated in place by the loop body. *)
Fixpoint proof_level (i : nat) (nodes : list MerkleNode) (index : nat)
    (proof : list ProofElement) : list MerkleNode * nat * list ProofElement :=
  match nodes with
  | [] => ([], index, proof)
  | [l] =>
      let '(index', proof') := record_sibling i l l index proof in
      ([parent l l], index', proof')
  | l :: r :: rest =>
      let '(index', proof') := record_sibling i l r index proof in
      let '(lvl, index'', proof'') := proof_level (i + 2) rest index' proof' in
      (parent l r :: lvl, index'', proof'')
  end.

Fixpoint proof_loop (fuel : nat) (nodes : list MerkleNode) (index : nat)
    (proof : list ProofElement) : list ProofElement :=
  match fuel with
  | O => proof
  | S fuel' =>
      if 1 <? length nodes then
        let '(lvl, index', proof') := proof_level 0 nodes index proof in
        proof_loop fuel' lvl index' proof'
      else proof
  end.

(** [MerkleTree.get_proof] *)
Definition get_proof (t : MerkleTree) (transaction : string) : list ProofElement :=
  match Py.index transaction (transactions t) with
  | None => []
  | Some index =>
      proof_loop (length (transactions t)) (map leaf (transactions t)) index []
  end.

Definition fold_step (current_hash : string) (e : ProofElement) : string :=
  if String.eqb (position e) "right"
  then sha256 (current_hash ++ sibling_hash e)
  else sha256 (sibling_hash e ++ current_hash).

(** [MerkleTree.verify_proof] *)
Definition verify_proof (transaction_hash : string) (proof : list ProofElement)
    (root_hash : string) : bool :=
  String.eqb (fold_left fold_step proof transaction_hash) root_hash.

End Merkle.

(* ===================================================================== *)
(** ** transaction.py *)
(* ===================================================================== *)

Module TransparentTransaction.

Record t := { sender : string;
              recipient : string;
              amount : Q;
              timestamp : Q;
              signature : string }.

Definition calculate_hash (tx : t) : string :=
  sha256 (sender tx ++ recipient tx ++ Py.str_float (amount tx) ++ Py.str_float (timestamp tx)).

End TransparentTransaction.

Module ShieldedTransaction.

Record t := { commitment : string;
              nullifier : string;
              proof : string;
              timestamp : Q;
              _sender : option string;
              _recipient : option string;
              _amount : option Q;
              _blinding_factor : option string }.

Definition calculate_hash (tx : t) : string :=
  sha256 (commitment tx ++ nullifier tx ++ proof tx ++ Py.str_float (timestamp tx)).

(** Only the format of the proof is checked. *)
Definition verify_proof (tx : t) : bool :=
  (String.length (proof tx) =? 64) && (String.length (commitment tx) =? 64).

End ShieldedTransaction.

(** [Union[TransparentTransaction, ShieldedTransaction]] *)
Inductive Transaction : Type :=
| Transparent (tx : TransparentTransaction.t)
| Shielded (tx : ShieldedTransaction.t).

Definition tx_hash (tx : Transaction) : string :=
  match tx with
  | Transparent t => TransparentTransaction.calculate_hash t
  | Shielded s => ShieldedTransaction.calculate_hash s
  end.

(* ===================================================================== *)
(** ** block.py *)
(* ===================================================================== *)

Module Blk.

Record Block := { index : Z;
                  timestamp : Q;
                  transactions : list Transaction;
                  previous_hash : string;
                  nonce : Z;
                  hash : string;
                  difficulty : Z;
                  merkle_root : string;
                  version : Z }.

Definition set_hash (b : Block) (h : string) : Block :=
  {| index := index b; timestamp := timestamp b; transactions := transactions b;
     previous_hash := previous_hash b; nonce := nonce b; hash := h;
     difficulty := difficulty b; merkle_root := merkle_root b; version := version b |}.

Definition set_nonce (b : Block) (n : Z) : Block :=
  {| index := index b; timestamp := timestamp b; transactions := transactions b;
     previous_hash := previous_hash b; nonce := n; hash := hash b;
     difficulty := difficulty b; merkle_root := merkle_root b; version := version b |}.

Definition set_difficulty (b : Block) (d : Z) : Block :=
  {| index := index b; timestamp := timestamp b; transactions := transactions b;
     previous_hash := previous_hash b; nonce := nonce b; hash := hash b;
     difficulty := d; merkle_root := merkle_root b; version := version b |}.

Definition set_merkle_root (b : Block) (r : string) : Block :=
  {| index := index b; timestamp := timestamp b; transactions := transactions b;
     previous_hash := previous_hash b; nonce := nonce b; hash := hash b;
     difficulty := difficulty b; merkle_root := r; version := version b |}.

(** [Block.calculate_hash] *)
Definition calculate_hash (b : Block) : string :=
  let transactions_string := String.concat "" (map tx_hash (transactions b)) in
  sha256 (Py.str_int (index b) ++ Py.str_float (timestamp b) ++ transactions_string
          ++ previous_hash b ++ Py.str_int (nonce b) ++ Py.str_int (difficulty b)
          ++ Py.str_int (version b)).

(** [Block.calculate_merkle_root] *)
Definition calculate_merkle_root (b : Block) : string :=
  match transactions b with
  | [] => sha256 "empty"
  | _ => Merkle.get_root_hash (Merkle.new_tree (map tx_hash (transactions b)))
  end.

(** The [while self.hash[:difficulty] != target] loop of [mine_block];
    [None] when [fuel] nonces were tried without success. *)
Fixpoint mine_loop (fuel : nat) (b : Block) (d : Z) : option Block :=
  if String.eqb (Py.slice_to (hash b) d) (Py.zeros d) then Some b
  else
    match fuel with
    | O => None
    | S fuel' =>
        let b1 := set_nonce b (nonce b + 1) in
        mine_loop fuel' (set_hash b1 (calculate_hash b1)) d
    end.

(** [Block.mine_block] *)
Definition mine_block (fuel : nat) (b : Block) (d : Z) : option Block :=
  let b1 := set_difficulty b d in
  let b2 := set_merkle_root b1 (calculate_merkle_root b1) in
  mine_loop fuel b2 d.

(** [Block.verify_merkle_root] *)
Definition verify_merkle_root (b : Block) : bool :=
  String.eqb (calculate_merkle_root b) (merkle_root b).

End Blk.

(* ===================================================================== *)
(** ** consensus.py *)
(* ===================================================================== *)

Module ConsensusRules.

Definition TARGET_BLOCK_TIME : Q := 150.
Definition DIFFICULTY_ADJUSTMENT_INTERVAL : nat := 20.
Definition MAX_BLOCK_SIZE : Z := 2000000.
Definition MAX_TRANSACTIONS_PER_BLOCK : nat := 1000.
Definition INITIAL_BLOCK_REWARD : Q := 25 # 2.
Definition HALVING_INTERVAL : Z := 840000.

Definition Qltb (x y : Q) : bool := negb (Qle_bool y x).

(** [l[-n:]] for [n > 0] *)
Definition last_n {A} (n : nat) (l : list A) : list A := drop (length l - n) l.

Definition calculate_difficulty (chain : list Blk.Block) : Z :=
  if length chain <? DIFFICULTY_ADJUSTMENT_INTERVAL then 2%Z
  else
    let recent_blocks := last_n DIFFICULTY_ADJUSTMENT_INTERVAL chain in
    match head recent_blocks, last recent_blocks with
    | Some first_block, Some last_block =>
        let time_taken := (Blk.timestamp last_block - Blk.timestamp first_block)%Q in
        let expected_time :=
          (TARGET_BLOCK_TIME * inject_Z (Z.of_nat DIFFICULTY_ADJUSTMENT_INTERVAL))%Q in
        if Qltb time_taken (expected_time / 2)%Q then (Blk.difficulty last_block + 1)%Z
        else if Qltb (expected_time * 2)%Q time_taken
             then Z.max 1 (Blk.difficulty last_block - 1)
             else Blk.difficulty last_block
    | _, _ => 2%Z
    end.

(** [max(a, b)] of Python: the first argument wins a tie. *)
Definition py_max (a b : Q) : Q := if Qltb a b then b else a.

Definition get_block_reward (block_height : Z) : Q :=
  let halvings := (block_height / HALVING_INTERVAL)%Z in
  let reward := (INITIAL_BLOCK_REWARD / Qpower 2 halvings)%Q in
  py_max (1 # 100000000) reward.

(** [sys.getsizeof(block)]: the shallow size of the instance, which does
    not depend on what the block holds. *)
Definition getsizeof (b : Blk.Block) : Z := 48.

Definition validate_block_size (b : Blk.Block) : bool :=
  (getsizeof b <=? MAX_BLOCK_SIZE)%Z.

Definition validate_transaction_count (b : Blk.Block) : bool :=
  length (Blk.transactions b) <=? MAX_TRANSACTIONS_PER_BLOCK.

Definition validate_block_time (now : Q) (b previous_block : Blk.Block) : bool :=
  if Qle_bool (Blk.timestamp b) (Blk.timestamp previous_block) then false
  else if Qltb (now + 7200)%Q (Blk.timestamp b) then false
  else true.

End ConsensusRules.

(** [ConsensusRules.get_block_reward] as Python evaluates it: in floats,
    with the exceptions and the overflow that the heights of a chain of
    ordinary length never meet. *)
Module Reward.

(** What the evaluation of a float expression gives: an exception, an
    infinity, or a finite float. *)
Inductive Result : Type :=
  | Raised
  | Infinite
  | Finite (x : Q).

(** [2 ** halvings] as the divisor of a float.  For [halvings >= 0] it is
    an int, converted to float by the division: [None] is the
    [OverflowError] of that conversion, from [2 ** 1024] on.  For
    [halvings < 0] it is the float [2.0 ** halvings], exact down to
    [2 ** -1074] and [0.0] below (an [OverflowError] again when [halvings]
    itself is too large for a float; with [0.0] the division raises as
    well). *)
Definition divisor (halvings : Z) : option Q :=
  if (1024 <=? halvings)%Z then None
  else if (halvings <? -1074)%Z then Some 0%Q
  else Some (Float64.pow2 halvings).

(** [ConsensusRules.get_block_reward] *)
Definition get_block_reward (block_height : Z) : Result :=
  let halvings := (block_height / ConsensusRules.HALVING_INTERVAL)%Z in
  match divisor halvings with
  | None => Raised
  | Some d =>
      if Qeq_bool d 0 then Raised
      else
        let quotient := (ConsensusRules.INITIAL_BLOCK_REWARD / d)%Q in
        if Qle_bool Float64.overflow (Qabs quotient) then Infinite
        else Finite (ConsensusRules.py_max (Float64.lit (1 # 100000000))
                       (Float64.round64 quotient))
  end.

End Reward.

(* ===================================================================== *)
(** ** utxo.py *)
(* ===================================================================== *)

Module Utxo.

Record UTXO := { tx_id : string;
                 output_index : Z;
                 address : string;
                 amount : Q;
                 is_shielded : bool }.

Definition get_id (u : UTXO) : string := tx_id u ++ ":" ++ Py.str_int (output_index u).

Record UTXOPool := { utxos : gmap string UTXO; spent_utxos : gset string }.

Definition empty_pool : UTXOPool := {| utxos := ∅; spent_utxos := ∅ |}.

Definition add_utxo (p : UTXOPool) (u : UTXO) : UTXOPool :=
  let utxo_id := get_id u in
  if decide (utxo_id ∈ spent_utxos p) then p
  else {| utxos := <[utxo_id := u]> (utxos p); spent_utxos := spent_utxos p |}.

Definition spend_utxo (p : UTXOPool) (utxo_id : string) : option UTXO * UTXOPool :=
  match utxos p !! utxo_id with
  | Some u => (Some u, {| utxos := delete utxo_id (utxos p);
                          spent_utxos := {[utxo_id]} ∪ spent_utxos p |})
  | None => (None, p)
  end.

Definition get_utxo (p : UTXOPool) (utxo_id : string) : option UTXO := utxos p !! utxo_id.

Definition get_utxos_for_address (p : UTXOPool) (addr : string) : list UTXO :=
  filter (fun u => address u = addr) (map snd (map_to_list (utxos p))).

(** [sum(utxo.amount for ...)]: the float sum of the amounts, in the order
    of the dict. *)
Definition get_balance (p : UTXOPool) (addr : string) : Q :=
  Float64.sum (map amount (get_utxos_for_address p addr)).

Definition is_utxo_spent (p : UTXOPool) (utxo_id : string) : bool :=
  bool_decide (utxo_id ∈ spent_utxos p).

Definition get_total_utxos (p : UTXOPool) : nat := size (utxos p).

End Utxo.

(* ===================================================================== *)
(** ** mempool.py *)
(* ===================================================================== *)

Module Pool.

Import ConsensusRules.

(** [TransactionPriority.calculate_priority] *)
Definition calculate_priority (transaction : Transaction) (fee age : Q) : Q :=
  Float64.mul fee age.

(** An element of [Mempool.transactions]: the dict with the keys
    ['transaction'], ['hash'], ['timestamp'] and ['fee']. *)
Record Entry := { transaction : Transaction;
                  hash : string;
                  timestamp : Q;
                  fee : Q }.

Record Mempool := { transactions : list Entry;
                    transaction_fees : gmap string Q;
                    max_size : nat }.

Definition new_mempool : Mempool :=
  {| transactions := []; transaction_fees := ∅; max_size := 1000 |}.

(** The sort key shared by [get_transactions_for_mining] and
    [evict_lowest_priority]. *)
Definition priority (current_time : Q) (e : Entry) : Q :=
  calculate_priority (transaction e) (fee e) (Float64.sub current_time (timestamp e)).

(** [min(l, key=...)] on a non-empty list: the first least element. *)
Fixpoint min_by (key : Entry -> Q) (best : Entry) (l : list Entry) : Entry :=
  match l with
  | [] => best
  | e :: l' => min_by key (if Qltb (key e) (key best) then e else best) l'
  end.

(** [sorted(l, key=..., reverse=True)]: descending and stable, entries of
    equal key keep the order they have in [l]. *)
Fixpoint insert_desc (key : Entry -> Q) (e : Entry) (l : list Entry) : list Entry :=
  match l with
  | [] => [e]
  | y :: l' => if Qltb (key e) (key y) then y :: insert_desc key e l' else e :: y :: l'
  end.

Definition sorted_desc (key : Entry -> Q) (l : list Entry) : list Entry :=
  foldr (insert_desc key) [] l.

(** [Mempool.remove_transaction] *)
Definition remove_transaction (m : Mempool) (tx_hash : string) : Mempool :=
  {| transactions := filter (fun e => hash e ≠ tx_hash) (transactions m);
     transaction_fees := delete tx_hash (transaction_fees m);
     max_size := max_size m |}.

(** [Mempool.evict_lowest_priority] *)
Definition evict_lowest_priority (current_time : Q) (m : Mempool) : Mempool :=
  match transactions m with
  | [] => m
  | e :: l =>
      let lowest_priority_tx := min_by (priority current_time) e l in
      remove_transaction m (hash lowest_priority_tx)
  end.

(** [Mempool.add_transaction]; [t_evict] and [t_insert] are the clock
    readings of the eviction and of the new entry. *)
Definition add_transaction (t_evict t_insert : Q) (m : Mempool)
    (tx : Transaction) (tx_fee : Q) : bool * Mempool :=
  let m1 := if max_size m <=? length (transactions m)
            then evict_lowest_priority t_evict m else m in
  let h := tx_hash tx in
  if existsb (fun e => String.eqb (hash e) h) (transactions m1) then (false, m1)
  else
    (true,
     {| transactions := (transactions m1
                         ++ [{| transaction := tx; hash := h;
                                timestamp := t_insert; fee := tx_fee |}])%list;
        transaction_fees := <[h := tx_fee]> (transaction_fees m1);
        max_size := max_size m1 |}).

(** [Mempool.get_transactions_for_mining] *)
Definition get_transactions_for_mining (current_time : Q) (m : Mempool)
    (max_transactions : nat) : list Transaction :=
  let sorted_transactions := sorted_desc (priority current_time) (transactions m) in
  map transaction (take max_transactions sorted_transactions).

Definition get_size (m : Mempool) : nat := length (transactions m).

End Pool.

(* ===================================================================== *)
(** ** privacy.py *)
(* ===================================================================== *)

Module Privacy.

Record PrivacyLayer := { nullifier_set : gset string; commitment_set : gset string }.

Definition new_layer : PrivacyLayer := {| nullifier_set := ∅; commitment_set := ∅ |}.

(** [PrivacyLayer.verify_shielded_transaction] *)
Definition verify_shielded_transaction (p : PrivacyLayer) (tx : ShieldedTransaction.t)
    : bool * PrivacyLayer :=
  if decide (ShieldedTransaction.nullifier tx ∈ nullifier_set p) then (false, p)
  else if negb (ShieldedTransaction.verify_proof tx) then (false, p)
  else (true,
        {| nullifier_set := {[ShieldedTransaction.nullifier tx]} ∪ nullifier_set p;
           commitment_set := {[ShieldedTransaction.commitment tx]} ∪ commitment_set p |}).

Definition get_anonymity_set_size (p : PrivacyLayer) : nat := size (commitment_set p).

End Privacy.

(* ===================================================================== *)
(** ** network.py (the part the chain calls) *)
(* ===================================================================== *)

Module Network.

Record P2PNetwork := { node_id : string;
                       peers : gset string;
                       message_history : gset string }.

Definition new_network (id : string) : P2PNetwork :=
  {| node_id := id; peers := ∅; message_history := ∅ |}.

(** [broadcast_block]: one message, sent to every peer; [send_message]
    records its id [f"{sender}:{timestamp}"] once. *)
Definition broadcast_block (now : Q) (n : P2PNetwork) (b : Blk.Block) : P2PNetwork :=
  if decide (peers n = ∅) then n
  else {| node_id := node_id n; peers := peers n;
          message_history := {[node_id n ++ ":" ++ Py.str_float now]} ∪ message_history n |}.

Definition get_peer_count (n : P2PNetwork) : nat := size (peers n).

End Network.

(* ===================================================================== *)
(** ** blockchain.py *)
(* ===================================================================== *)

Module Chain.

Import ConsensusRules.

(** [class VeilChain].  The mixing pool and the ring signatures are
    separate objects that none of the operations below touches. *)
Record VeilChain := { chain : list Blk.Block;
                      difficulty : Z;
                      pending_transactions : list Transaction;
                      mining_reward : Q;
                      privacy_layer : Privacy.PrivacyLayer;
                      utxo_pool : Utxo.UTXOPool;
                      mempool : Pool.Mempool;
                      network : Network.P2PNetwork;
                      orphaned_blocks : list Blk.Block;
                      max_reorg_depth : Z }.

Definition set_chain (st : VeilChain) (c : list Blk.Block) : VeilChain :=
  {| chain := c; difficulty := difficulty st;
     pending_transactions := pending_transactions st; mining_reward := mining_reward st;
     privacy_layer := privacy_layer st; utxo_pool := utxo_pool st; mempool := mempool st;
     network := network st; orphaned_blocks := orphaned_blocks st;
     max_reorg_depth := max_reorg_depth st |}.

Definition set_difficulty (st : VeilChain) (d : Z) : VeilChain :=
  {| chain := chain st; difficulty := d;
     pending_transactions := pending_transactions st; mining_reward := mining_reward st;
     privacy_layer := privacy_layer st; utxo_pool := utxo_pool st; mempool := mempool st;
     network := network st; orphaned_blocks := orphaned_blocks st;
     max_reorg_depth := max_reorg_depth st |}.

Definition set_privacy_layer (st : VeilChain) (p : Privacy.PrivacyLayer) : VeilChain :=
  {| chain := chain st; difficulty := difficulty st;
     pending_transactions := pending_transactions st; mining_reward := mining_reward st;
     privacy_layer := p; utxo_pool := utxo_pool st; mempool := mempool st;
     network := network st; orphaned_blocks := orphaned_blocks st;
     max_reorg_depth := max_reorg_depth st |}.

Definition set_mempool (st : VeilChain) (m : Pool.Mempool) : VeilChain :=
  {| chain := chain st; difficulty := difficulty st;
     pending_transactions := pending_transactions st; mining_reward := mining_reward st;
     privacy_layer := privacy_layer st; utxo_pool := utxo_pool st; mempool := m;
     network := network st; orphaned_blocks := orphaned_blocks st;
     max_reorg_depth := max_reorg_depth st |}.

Definition set_network (st : VeilChain) (n : Network.P2PNetwork) : VeilChain :=
  {| chain := chain st; difficulty := difficulty st;
     pending_transactions := pending_transactions st; mining_reward := mining_reward st;
     privacy_layer := privacy_layer st; utxo_pool := utxo_pool st; mempool := mempool st;
     network := n; orphaned_blocks := orphaned_blocks st;
     max_reorg_depth := max_reorg_depth st |}.

Definition set_orphaned_blocks (st : VeilChain) (o : list Blk.Block) : VeilChain :=
  {| chain := chain st; difficulty := difficulty st;
     pending_transactions := pending_transactions st; mining_reward := mining_reward st;
     privacy_layer := privacy_layer st; utxo_pool := utxo_pool st; mempool := mempool st;
     network := network st; orphaned_blocks := o;
     max_reorg_depth := max_reorg_depth st |}.

(** The block built by [create_genesis_block] at time [now]. *)
Definition genesis_block (d : Z) (now : Q) : Blk.Block :=
  let b := {| Blk.index := 0; Blk.timestamp := now; Blk.transactions := [];
              Blk.previous_hash := "0"; Blk.nonce := 0; Blk.hash := "";
              Blk.difficulty := d; Blk.merkle_root := ""; Blk.version := 1 |} in
  let b1 := Blk.set_merkle_root b (Blk.calculate_merkle_root b) in
  Blk.set_hash b1 (Blk.calculate_hash b1).

(** [VeilChain(difficulty, node_id)], genesis block included. *)
Definition new_chain (d : Z) (id : string) (now : Q) : VeilChain :=
  {| chain := [genesis_block d now]; difficulty := d;
     pending_transactions := []; mining_reward := INITIAL_BLOCK_REWARD;
     privacy_layer := Privacy.new_layer; utxo_pool := Utxo.empty_pool;
     mempool := Pool.new_mempool; network := Network.new_network id;
     orphaned_blocks := []; max_reorg_depth := 6 |}.

(** [get_latest_block]: [chain[-1]], an [IndexError] ([None]) on an empty chain. *)
Definition get_latest_block (st : VeilChain) : option Blk.Block := last (chain st).

(** [VeilChain.add_transaction] *)
Definition add_transaction (t_evict t_insert : Q) (st : VeilChain)
    (tx : Transaction) (fee : Q) : bool * VeilChain :=
  match tx with
  | Shielded s =>
      let '(ok, p) := Privacy.verify_shielded_transaction (privacy_layer st) s in
      if ok then
        let '(r, m) := Pool.add_transaction t_evict t_insert (mempool st) tx fee in
        (r, set_mempool (set_privacy_layer st p) m)
      else (false, set_privacy_layer st p)
  | Transparent _ =>
      let '(r, m) := Pool.add_transaction t_evict t_insert (mempool st) tx fee in
      (r, set_mempool st m)
  end.

(** [VeilChain.validate_new_block]; [None] is the [IndexError] of
    [get_latest_block] on an empty chain. *)
Definition validate_new_block (now : Q) (st : VeilChain) (b : Blk.Block) : option bool :=
  if negb (String.eqb (Blk.hash b) (Blk.calculate_hash b)) then Some false
  else
    match get_latest_block st with
    | None => None
    | Some latest =>
        if negb (String.eqb (Blk.previous_hash b) (Blk.hash latest)) then Some false
        else if negb (Py.startswith (Blk.hash b) (Py.zeros (Blk.difficulty b))) then Some false
        else if negb (Blk.verify_merkle_root b) then Some false
        else if negb (validate_block_size b) then Some false
        else if negb (validate_transaction_count b) then Some false
        else if (0 <? length (chain st)) && negb (validate_block_time now b latest)
             then Some false
             else Some true
    end.

(** The clock readings of one call of [mine_pending_transactions]. *)
Record MineClock := { t_select : Q; t_reward : Q; t_block : Q;
                      t_validate : Q; t_broadcast : Q }.

(** [VeilChain.mine_pending_transactions]; [None] when the call does not
    return: the chain is empty ([IndexError]) or no nonce was found within
    [fuel] tries. *)
Definition mine_pending_transactions (fuel : nat) (clk : MineClock) (st : VeilChain)
    (mining_reward_address : string) : option VeilChain :=
  let transactions := Pool.get_transactions_for_mining (t_select clk) (mempool st) 100 in
  let block_height := Z.of_nat (length (chain st)) in
  let block_reward := get_block_reward block_height in
  let reward_tx :=
    Transparent {| TransparentTransaction.sender := "COINBASE";
                   TransparentTransaction.recipient := mining_reward_address;
                   TransparentTransaction.amount := block_reward;
                   TransparentTransaction.timestamp := t_reward clk;
                   TransparentTransaction.signature := "" |} in
  let transactions := (transactions ++ [reward_tx])%list in
  let st1 :=
    if (0 <? block_height)%Z
       && (block_height mod Z.of_nat DIFFICULTY_ADJUSTMENT_INTERVAL =? 0)%Z
    then set_difficulty st (calculate_difficulty (chain st)) else st in
  match get_latest_block st1 with
  | None => None
  | Some latest =>
      let new_block :=
        {| Blk.index := block_height; Blk.timestamp := t_block clk;
           Blk.transactions := transactions; Blk.previous_hash := Blk.hash latest;
           Blk.nonce := 0; Blk.hash := ""; Blk.difficulty := difficulty st1;
           Blk.merkle_root := ""; Blk.version := 1 |} in
      match Blk.mine_block fuel new_block (difficulty st1) with
      | None => None
      | Some mined =>
          match validate_new_block (t_validate clk) st1 mined with
          | None => None
          | Some true =>
              let st2 := set_chain st1 (chain st1 ++ [mined])%list in
              let m := fold_left (fun m tx => Pool.remove_transaction m (tx_hash tx))
                                 transactions (mempool st2) in
              let st3 := set_mempool st2 m in
              Some (set_network st3
                      (Network.broadcast_block (t_broadcast clk) (network st3) mined))
          | Some false => Some st1
          end
      end
  end.

(** The body of the [for i in range(1, len(self.chain))] loop of
    [is_chain_valid], for [current_block] and the block before it. *)
Definition check_block (previous_block current_block : Blk.Block) : bool :=
  if negb (String.eqb (Blk.hash current_block) (Blk.calculate_hash current_block)) then false
  else if negb (String.eqb (Blk.previous_hash current_block) (Blk.hash previous_block))
       then false
  else if negb (Blk.verify_merkle_root current_block) then false
  else if negb (Py.startswith (Blk.hash current_block)
                              (Py.zeros (Blk.difficulty current_block))) then false
  else true.

Fixpoint valid_from (previous_block : Blk.Block) (rest : list Blk.Block) : bool :=
  match rest with
  | [] => true
  | current_block :: rest' =>
      if check_block previous_block current_block then valid_from current_block rest'
      else false
  end.

(** [VeilChain.is_chain_valid] *)
Definition is_chain_valid (st : VeilChain) : bool :=
  match chain st with
  | [] => true
  | b0 :: rest => valid_from b0 rest
  end.

(** [VeilChain.handle_chain_reorganization]; [now] is the clock reading of
    the scratch [VeilChain] built to validate the competing chain. *)
Definition handle_chain_reorganization (now : Q) (st : VeilChain)
    (competing_chain : list Blk.Block) : bool * VeilChain :=
  if length competing_chain <=? length (chain st) then (false, st)
  else
    let temp_blockchain :=
      set_chain (new_chain 2 (Network.node_id (network st)) now) competing_chain in
    if negb (is_chain_valid temp_blockchain) then (false, st)
    else
      let reorg_depth :=
        (Z.of_nat (length (chain st)) - Z.of_nat (length competing_chain))%Z in
      if (max_reorg_depth st <? Z.abs reorg_depth)%Z then (false, st)
      else
        let st1 := set_orphaned_blocks st
                     (orphaned_blocks st ++ drop (length competing_chain) (chain st))%list in
        (true, set_chain st1 competing_chain).

(** [VeilChain.get_balance] *)
Definition get_balance (st : VeilChain) (address : string) : Q :=
  Utxo.get_balance (utxo_pool st) address.

End Chain.

(* ===================================================================== *)
(** ** crypto.py: keys, addresses, signatures, commitments *)
(* ===================================================================== *)

Module Keys.

(** [generate_keypair]; [private_key] is the draw of [secrets.token_hex(32)]. *)
Definition generate_keypair (private_key : string) : string * string :=
  (private_key, Py.slice_to (sha256 private_key) 40).

(** [generate_address] *)
Definition generate_address (public_key address_type : string) : string :=
  address_type ++ Py.slice_to (sha256 public_key) 38.

(** [sign_data] *)
Definition sign_data (private_key data : string) : string := sha256 (private_key ++ data).

(** [verify_signature]: only the length of the signature is looked at. *)
Definition verify_signature (public_key data signature : string) : bool :=
  String.length signature =? 64.

(** [create_commitment] *)
Definition create_commitment (value : Z) (blinding_factor : string) : string :=
  sha256 (Py.str_int value ++ blinding_factor).

(** [generate_nullifier] *)
Definition generate_nullifier (private_key commitment : string) : string :=
  sha256 (private_key ++ commitment).

End Keys.

(* ===================================================================== *)
(** ** wallet.py *)
(* ===================================================================== *)

Module Wallet.

Record Wallet := { private_key : string;
                   public_key : string;
                   transparent_address : string;
                   shielded_address : string;
                   balance : Q }.

(** [Wallet.create]; [key] is the random private key drawn by
    [generate_keypair]. *)
Definition create (key : string) : Wallet :=
  let '(priv, pub) := Keys.generate_keypair key in
  {| private_key := priv; public_key := pub;
     transparent_address := Keys.generate_address pub "t";
     shielded_address := Keys.generate_address pub "z";
     balance := 0 |}.

End Wallet.

(* ===================================================================== *)
(** ** transaction.py: building and signing transactions *)
(* ===================================================================== *)

Module Build.

(** [int(x)] on a float: truncation toward zero. *)
Definition py_int (x : Q) : Z := Z.quot (Qnum x) (Z.pos (Qden x)).

(** [ShieldedTransaction.create]; [blinding_factor] is the draw of
    [secrets.token_hex(32)]. *)
Definition create (blinding_factor sender_private_key recipient : string)
    (amount timestamp : Q) : ShieldedTransaction.t :=
  let commitment := Keys.create_commitment (py_int (amount * 1000000)) blinding_factor in
  let nullifier := Keys.generate_nullifier sender_private_key commitment in
  let proof_data := commitment ++ nullifier ++ Py.str_float amount
                    ++ Py.str_float timestamp ++ blinding_factor in
  {| ShieldedTransaction.commitment := commitment;
     ShieldedTransaction.nullifier := nullifier;
     ShieldedTransaction.proof := sha256 proof_data;
     ShieldedTransaction.timestamp := timestamp;
     ShieldedTransaction._sender := Some sender_private_key;
     ShieldedTransaction._recipient := Some recipient;
     ShieldedTransaction._amount := Some amount;
     ShieldedTransaction._blinding_factor := Some blinding_factor |}.

(** [TransparentTransaction.sign] *)
Definition sign (tx : TransparentTransaction.t) (private_key : string)
    : TransparentTransaction.t :=
  {| TransparentTransaction.sender := TransparentTransaction.sender tx;
     TransparentTransaction.recipient := TransparentTransaction.recipient tx;
     TransparentTransaction.amount := TransparentTransaction.amount tx;
     TransparentTransaction.timestamp := TransparentTransaction.timestamp tx;
     TransparentTransaction.signature :=
       Keys.sign_data private_key (TransparentTransaction.calculate_hash tx) |}.

End Build.

(* ===================================================================== *)
(** ** network.py: chain synchronisation *)
(* ===================================================================== *)

Module Sync.

(** [P2PNetwork.sync_blockchain], on the node the network belongs to
    ([self.blockchain]); [now] is the clock reading of the scratch
    [VeilChain()] that validates the received chain. *)
Definition sync_blockchain (now : Q) (st : Chain.VeilChain)
    (other_chain : list Blk.Block) : bool * Chain.VeilChain :=
  if length (Chain.chain st) <? length other_chain then
    let temp_blockchain := Chain.set_chain (Chain.new_chain 2 "node_0" now) other_chain in
    if Chain.is_chain_valid temp_blockchain then (true, Chain.set_chain st other_chain)
    else (false, st)
  else (false, st).

End Sync.

(* ===================================================================== *)
(** ** mixing.py *)
(* ===================================================================== *)

Module Mixing.

(** An element of [MixingPool.pool]: the dict with the keys ['amount'],
    ['commitment'], ['timestamp'] and ['mixed']. *)
Record Entry := { amount : Q;
                  commitment : string;
                  timestamp : Q;
                  mixed : bool }.

Record MixingPool := { pool : list Entry;
                       mixed_outputs : gset string;
                       min_pool_size : nat }.

(** [MixingPool.__init__] *)
Definition new_pool : MixingPool :=
  {| pool := []; mixed_outputs := ∅; min_pool_size := 3 |}.

(** [MixingPool.add_to_pool] *)
Definition add_to_pool (p : MixingPool) (amount0 : Q) (commitment0 : string)
    (timestamp0 : Q) : bool * MixingPool :=
  let entry := {| amount := amount0; commitment := commitment0;
                  timestamp := timestamp0; mixed := false |} in
  (true, {| pool := (pool p ++ [entry])%list; mixed_outputs := mixed_outputs p;
            min_pool_size := min_pool_size p |}).

(** The test of [can_mix] and [mix_transactions]:
    [abs(p['amount'] - amount) < 0.01 and not p['mixed']]. *)
Definition similar (amount0 : Q) (p : Entry) : bool :=
  ConsensusRules.Qltb (Qabs (Float64.sub (amount p) amount0)) (Float64.lit (1 # 100))
  && negb (mixed p).

(** [MixingPool.can_mix] *)
Definition can_mix (p : MixingPool) (amount0 : Q) : bool :=
  let similar_amounts := List.filter (similar amount0) (pool p) in
  min_pool_size p <=? length similar_amounts.

Definition set_mixed (e : Entry) : Entry :=
  {| amount := amount e; commitment := commitment e; timestamp := timestamp e;
     mixed := true |}.

(** The elements of the list [similar] are the dicts of [self.pool]
    themselves, so [entry['mixed'] = True] on the first [n] of them marks,
    in the pool, the first [n] entries that pass the test. *)
Fixpoint mark (amount0 : Q) (n : nat) (l : list Entry) {struct l} : list Entry :=
  match n, l with
  | O, _ => l
  | _, [] => []
  | S n', e :: l' =>
      if similar amount0 e then set_mixed e :: mark amount0 n' l'
      else e :: mark amount0 n l'
  end.

(** [MixingPool.mix_transactions] *)
Definition mix_transactions (p : MixingPool) (amount0 : Q) : list string * MixingPool :=
  let similar_entries := List.filter (similar amount0) (pool p) in
  if length similar_entries <? min_pool_size p then ([], p)
  else
    let mixed_commitments := map commitment (take (min_pool_size p) similar_entries) in
    (mixed_commitments,
     {| pool := mark amount0 (min_pool_size p) (pool p);
        mixed_outputs := list_to_set mixed_commitments ∪ mixed_outputs p;
        min_pool_size := min_pool_size p |}).

(** [MixingPool.get_anonymity_set_size] *)
Definition get_anonymity_set_size (p : MixingPool) (commitment0 : string) : nat :=
  if decide (commitment0 ∈ mixed_outputs p) then
    if existsb (fun e => String.eqb (commitment e) commitment0 && mixed e) (pool p)
    then min_pool_size p else 1
  else 1.

End Mixing.

(** [class RingSignature] of mixing.py. *)
Module Ring.

(** The dict built by [create_ring_signature]. *)
Record Signature := { key_image : string;
                      ring : list string;
                      c : list string;
                      r : list string;
                      sig_hash : string }.

Record RingSignature := { key_images : gset string }.

Definition new_ring : RingSignature := {| key_images := ∅ |}.

(** [RingSignature.create_ring_signature].  [token_hex i] is the [i]-th
    draw of [secrets.token_hex(32)] and [str_list] is [str] on a list of
    strings; [None] is the [None] returned for a spent key image. *)
Definition create_ring_signature (token_hex : nat -> string)
    (str_list : list string -> string) (st : RingSignature)
    (private_key : string) (public_keys : list string) (message : string)
    : option Signature :=
  let ring_size := length public_keys in
  let key_image0 := sha256 (private_key ++ "key_image") in
  if decide (key_image0 ∈ key_images st) then None
  else
    let '(cs, rs) :=
      fold_left (fun '(cs, rs) i =>
                   ((cs ++ [token_hex (2 * i)])%list,
                    (rs ++ [token_hex (2 * i + 1)])%list))
                (seq 0 ring_size) ([], []) in
    Some {| key_image := key_image0; ring := public_keys; c := cs; r := rs;
            sig_hash := sha256 (key_image0 ++ message ++ str_list public_keys) |}.

(** [RingSignature.verify_ring_signature]; the signature is [None] or a
    dict with the five keys. *)
Definition verify_ring_signature (st : RingSignature) (signature : option Signature)
    (message : string) : bool * RingSignature :=
  match signature with
  | None => (false, st)
  | Some sg =>
      if decide (key_image sg ∈ key_images st) then (false, st)
      else if negb (length (c sg) =? length (ring sg))
              || negb (length (r sg) =? length (ring sg)) then (false, st)
      else (true, {| key_images := {[key_image sg]} ∪ key_images st |})
  end.

(** [RingSignature.is_key_image_spent] *)
Definition is_key_image_spent (st : RingSignature) (key_image0 : string) : bool :=
  bool_decide (key_image0 ∈ key_images st).

End Ring.

(* ===================================================================== *)
(** ** script.py *)
(* ===================================================================== *)

Module Script.

(** [class OpCode] *)
Inductive OpCode : Type :=
  | OP_DUP | OP_DROP | OP_SWAP
  | OP_HASH256 | OP_CHECKSIG | OP_CHECKMULTISIG
  | OP_ADD | OP_SUB | OP_EQUAL | OP_VERIFY
  | OP_CHECKLOCKTIMEVERIFY | OP_CHECKSEQUENCEVERIFY
  | OP_IF | OP_ELSE | OP_ENDIF | OP_RETURN.

(** The data a script handles: strings (hashes, keys, signatures),
    integers (counts, lock times) and the booleans the opcodes push. *)
Inductive Value : Type :=
  | VStr (s : string)
  | VInt (z : Z)
  | VBool (b : bool).

(** An element of [Script.script]: an opcode, or data to push. *)
Inductive Item : Type :=
  | Op (o : OpCode)
  | Data (v : Value).

(** The [context] dict: the keys ['message'] and ['block_time'], each
    present or not. *)
Record Context := { message : option string; block_time : option Z }.

(** A [bool] is an [int] in arithmetic and comparisons; a [str] is not. *)
Definition as_int (v : Value) : option Z :=
  match v with
  | VInt z => Some z
  | VBool b => Some (if b then 1 else 0)%Z
  | VStr _ => None
  end.

(** [str(v)] *)
Definition py_str (v : Value) : string :=
  match v with
  | VStr s => s
  | VInt z => Py.str_int z
  | VBool b => if b then "True" else "False"
  end.

(** [a + b]; [None] is a [TypeError]. *)
Definition py_add (a b : Value) : option Value :=
  match a, b with
  | VStr x, VStr y => Some (VStr (x ++ y))
  | _, _ =>
      match as_int a, as_int b with
      | Some x, Some y => Some (VInt (x + y))
      | _, _ => None
      end
  end.

(** [a - b]; [None] is a [TypeError]. *)
Definition py_sub (a b : Value) : option Value :=
  match as_int a, as_int b with
  | Some x, Some y => Some (VInt (x - y))
  | _, _ => None
  end.

(** [a == b] *)
Definition py_eq (a b : Value) : bool :=
  match a, b with
  | VStr x, VStr y => String.eqb x y
  | _, _ =>
      match as_int a, as_int b with
      | Some x, Some y => (x =? y)%Z
      | _, _ => false
      end
  end.

(** The truth value of [v], as [not v] tests it. *)
Definition truthy (v : Value) : bool :=
  match v with
  | VStr s => negb (String.eqb s "")
  | VInt z => negb (z =? 0)%Z
  | VBool b => b
  end.

(** [verify_signature(public_key, message, signature)] of crypto.py on
    stack values: [len(signature)] is a [TypeError] ([None]) unless the
    signature is a string. *)
Definition verify_signature (public_key : Value) (message0 : string) (signature : Value)
    : option bool :=
  match signature with
  | VStr s => Some (Keys.verify_signature (py_str public_key) message0 s)
  | _ => None
  end.

(** [[self.stack.pop() for _ in range(n)]] on a stack written top first:
    the values popped, first popped first, and the rest; [None] is the
    [IndexError] of a pop from the empty list. *)
Definition pop_n (n : nat) (stack : list Value) : option (list Value * list Value) :=
  if n <=? length stack then Some (take n stack, drop n stack) else None.

(** [sum(1 for sig, pk in zip(signatures, public_keys)
         if verify_signature(pk, message, sig))] *)
Fixpoint valid_sigs (message0 : string) (signatures public_keys : list Value) : option Z :=
  match signatures, public_keys with
  | sig :: signatures', pk :: public_keys' =>
      match verify_signature pk message0 sig,
            valid_sigs message0 signatures' public_keys' with
      | Some b, Some n => Some (if b then 1 + n else n)%Z
      | _, _ => None
      end
  | _, _ => Some 0%Z
  end.

(** [Script._execute_opcode].  The stack is written top first (the Python
    list reversed).  The result is the returned boolean and the stack the
    call leaves behind; an exception is caught and gives [False], with the
    pops made so far. *)
Definition execute_opcode (opcode : OpCode) (context : Context) (stack : list Value)
    : bool * list Value :=
  match opcode with
  | OP_DUP =>
      match stack with
      | x :: rest => (true, x :: x :: rest)
      | [] => (false, stack)
      end
  | OP_DROP =>
      match stack with
      | _ :: rest => (true, rest)
      | [] => (false, stack)
      end
  | OP_SWAP =>
      match stack with
      | x :: y :: rest => (true, y :: x :: rest)
      | _ => (false, stack)
      end
  | OP_HASH256 =>
      match stack with
      | x :: rest => (true, VStr (sha256 (sha256 (py_str x))) :: rest)
      | [] => (false, stack)
      end
  | OP_CHECKSIG =>
      match stack with
      | public_key :: signature :: rest =>
          match verify_signature public_key (default "" (message context)) signature with
          | Some result => (true, VBool result :: rest)
          | None => (false, rest)
          end
      | _ => (false, stack)
      end
  | OP_CHECKMULTISIG =>
      match stack with
      | n_required :: n_total :: ((_ :: _) as rest) =>
          match as_int n_total, as_int n_required with
          | Some nt, Some nr =>
              if (Z.of_nat (length rest) <? nt + nr)%Z then (false, rest)
              else
                match pop_n (Z.to_nat nt) rest with
                | None => (false, [])
                | Some (public_keys, rest1) =>
                    match pop_n (Z.to_nat nr) rest1 with
                    | None => (false, [])
                    | Some (signatures, rest2) =>
                        match valid_sigs (default "" (message context))
                                signatures public_keys with
                        | Some n => (true, VBool (nr <=? n)%Z :: rest2)
                        | None => (false, rest2)
                        end
                    end
                end
          | _, _ => (false, rest)
          end
      | _ => (false, stack)
      end
  | OP_ADD =>
      match stack with
      | b :: a :: rest =>
          match py_add a b with
          | Some v => (true, v :: rest)
          | None => (false, rest)
          end
      | _ => (false, stack)
      end
  | OP_SUB =>
      match stack with
      | b :: a :: rest =>
          match py_sub a b with
          | Some v => (true, v :: rest)
          | None => (false, rest)
          end
      | _ => (false, stack)
      end
  | OP_EQUAL =>
      match stack with
      | b :: a :: rest => (true, VBool (py_eq a b) :: rest)
      | _ => (false, stack)
      end
  | OP_VERIFY =>
      match stack with
      | x :: rest => (truthy x, rest)
      | [] => (false, stack)
      end
  | OP_CHECKLOCKTIMEVERIFY =>
      match stack with
      | locktime :: _ =>
          match as_int locktime with
          | Some t => (negb (default 0 (block_time context) <? t)%Z, stack)
          | None => (false, stack)
          end
      | [] => (false, stack)
      end
  | OP_RETURN => (false, stack)
  | OP_CHECKSEQUENCEVERIFY | OP_IF | OP_ELSE | OP_ENDIF => (true, stack)
  end.

(** [Script.execute], started on the stack [stack] ([[]] for a new
    [Script] object). *)
Fixpoint execute (script : list Item) (context : Context) (stack : list Value)
    : bool * list Value :=
  match script with
  | [] =>
      (match stack with
       | top :: _ => py_eq top (VBool true)
       | [] => false
       end, stack)
  | Op opcode :: script' =>
      let '(ok, stack') := execute_opcode opcode context stack in
      if ok then execute script' context stack' else (false, stack')
  | Data item :: script' => execute script' context (item :: stack)
  end.




End Script.

(* ===================================================================== *)
(** ** network.py: the peer table *)
(* ===================================================================== *)

Module PeerTable.

(** [class Peer] *)
Record Peer := { peer_id : string;
                 host : string;
                 port : Z;
                 last_seen : Q;
                 reputation : Z }.


(** The part of [class P2PNetwork] that the peer operations use; [peers]
    is the dict [self.peers], its items in insertion order. *)
Record P2PNetwork := { peers : list (string * Peer); max_peers : nat }.

(** [P2PNetwork.__init__] *)
Definition new_network : P2PNetwork := {| peers := []; max_peers := 8 |}.

(** [d.get(k)] *)
Fixpoint dict_get (k : string) (d : list (string * Peer)) : option Peer :=
  match d with
  | [] => None
  | (k', v) :: d' => if String.eqb k' k then Some v else dict_get k d'
  end.






(** [P2PNetwork.get_peer_count] *)
Definition get_peer_count (n : P2PNetwork) : nat := length (peers n).




End PeerTable.

(* ===================================================================== *)
(** ** Sample data *)
(* ===================================================================== *)

Module Sample.

(** A well-formed successor of [prev]: linked to it, Merkle root and hash
    computed, difficulty 0 (every hash starts with the empty target). *)
Definition next_block (prev : Blk.Block) (idx : Z) (ts : Q)
    (txs : list Transaction) : Blk.Block :=
  let b := {| Blk.index := idx; Blk.timestamp := ts; Blk.transactions := txs;
              Blk.previous_hash := Blk.hash prev; Blk.nonce := 0; Blk.hash := "";
              Blk.difficulty := 0; Blk.merkle_root := ""; Blk.version := 1 |} in
  let b1 := Blk.set_merkle_root b (Blk.calculate_merkle_root b) in
  Blk.set_hash b1 (Blk.calculate_hash b1).

(** A fresh node, created at time 1000. *)
Definition node : Chain.VeilChain := Chain.new_chain 2 "node_0" 1000.
Definition g0 : Blk.Block := Chain.genesis_block 2 1000.

(** A genesis block whose stored hash is not its hash. *)
Definition forged_genesis : Blk.Block := Blk.set_hash g0 "f00d".

(** A block at position 1 that claims height 5. *)
Definition misnumbered : Blk.Block := next_block g0 5 1001 [].

(** A chain whose first block is forged and whose second block is sound. *)
Definition forged_child : Blk.Block := next_block forged_genesis 1 1001 [].
Definition forged_chain : Chain.VeilChain :=
  Chain.set_chain node [forged_genesis; forged_child].

Definition misnumbered_chain : Chain.VeilChain :=
  Chain.set_chain node [g0; misnumbered].

(** The local block [b1] and a competing branch [c1], [c2]. *)
Definition b1 : Blk.Block := next_block g0 1 1001 [].
Definition c1 : Blk.Block := next_block g0 1 1002 [].
Definition c2 : Blk.Block := next_block c1 2 1003 [].

(** Three shielded transactions: [spend1] and [spend2] reuse one
    commitment under two nullifiers, [replay] reuses the nullifier of
    [spend2]. *)
Definition shielded (c n : string) (ts : Q) : ShieldedTransaction.t :=
  {| ShieldedTransaction.commitment := c; ShieldedTransaction.nullifier := n;
     ShieldedTransaction.proof := sha256 "proof";
     ShieldedTransaction.timestamp := ts;
     ShieldedTransaction._sender := None; ShieldedTransaction._recipient := None;
     ShieldedTransaction._amount := None;
     ShieldedTransaction._blinding_factor := None |}.

Definition spend1 : ShieldedTransaction.t := shielded (sha256 "note") (sha256 "n1") 1001.
Definition spend2 : ShieldedTransaction.t := shielded (sha256 "note") (sha256 "n2") 1002.
Definition replay : ShieldedTransaction.t := shielded (sha256 "other") (sha256 "n2") 1003.
Definition replay1 : ShieldedTransaction.t := shielded (sha256 "other") (sha256 "n1") 1004.

(** The privacy ledger once [spend1] has been admitted. *)
Definition ledger1 : Privacy.PrivacyLayer :=
  snd (Privacy.verify_shielded_transaction Privacy.new_layer spend1).

(** A node holding [g0; b1], and the competing chain [g0; c1; c2]. *)
Definition two_chain : Chain.VeilChain := Chain.set_chain node [g0; b1].
Definition competing3 : list Blk.Block := [g0; c1; c2].

(** [n] more blocks on top of [prev]. *)
Fixpoint grow (n : nat) (prev : Blk.Block) : list Blk.Block :=
  match n with
  | O => []
  | S n' =>
      let b := next_block prev (Blk.index prev + 1) (Blk.timestamp prev + 1)%Q [] in
      b :: grow n' b
  end.

(** The end-to-end scenario: a fresh node of difficulty 1 mines one block
    for [miner]. *)
Definition fresh1 : Chain.VeilChain := Chain.new_chain 1 "node_0" 1000.
Definition miner : string := "tMinerAddress789".
Definition clock : Chain.MineClock :=
  {| Chain.t_select := 1010; Chain.t_reward := 1010; Chain.t_block := 1010;
     Chain.t_validate := 1011; Chain.t_broadcast := 1011 |}.
Definition mined : option Chain.VeilChain :=
  Chain.mine_pending_transactions 1000 clock fresh1 miner.

(** A mempool filled to capacity: 1000 distinct payments, the [i]-th one
    admitted at time [1000 + i] with fee 0.001. *)
Definition payment (i : nat) : Transaction :=
  Transparent {| TransparentTransaction.sender := "alice";
                 TransparentTransaction.recipient := "bob";
                 TransparentTransaction.amount := inject_Z (Z.of_nat i) + 1;
                 TransparentTransaction.timestamp := inject_Z (Z.of_nat i) + 1000;
                 TransparentTransaction.signature := "" |}.

Definition enqueue (m : Pool.Mempool) (i : nat) : Pool.Mempool :=
  let t := (inject_Z (Z.of_nat i) + 1000)%Q in
  snd (Pool.add_transaction t t m (payment i) (1 # 1000)).

Definition full_pool : Pool.Mempool := fold_left enqueue (seq 0 1000) Pool.new_mempool.

Definition known (m : Pool.Mempool) (tx : Transaction) : bool :=
  let h := tx_hash tx in
  existsb (fun e => String.eqb (Pool.hash e) h) (Pool.transactions m).

(** Two payments admitted at the same time 1000, the first with fee 0.001
    and the second with fee 0.01; and two payments with the same negative
    fee, the second admitted later. *)
Definition tie_pool : Pool.Mempool :=
  let m := snd (Pool.add_transaction 1000 1000 Pool.new_mempool (payment 0) (1 # 1000)) in
  snd (Pool.add_transaction 1000 1000 m (payment 1) (1 # 100)).

Definition rebate_pool : Pool.Mempool :=
  let m := snd (Pool.add_transaction 1000 1000 Pool.new_mempool (payment 0) (- (1 # 1000))) in
  snd (Pool.add_transaction 1001 1001 m (payment 1) (- (1 # 1000))).

(** Two payments with the same fee 0.001, the second admitted later. *)
Definition aged_pool : Pool.Mempool :=
  let m := snd (Pool.add_transaction 1000 1000 Pool.new_mempool (payment 0) (1 # 1000)) in
  snd (Pool.add_transaction 1001 1001 m (payment 1) (1 # 1000)).

Definition entry_of (tx : Transaction) (fee ts : Q) : Pool.Entry :=
  {| Pool.transaction := tx; Pool.hash := tx_hash tx;
     Pool.timestamp := ts; Pool.fee := fee |}.


(** A sound competing chain of 8 blocks, 7 more than [node] holds. *)
Definition competing8 : list Blk.Block := g0 :: grow 7 g0.

End Sample.

(* ===================================================================== *)
(** ** More sample data *)
(* ===================================================================== *)

Module Sample2.

(** Two outputs of one transaction, for two owners. *)
Definition coin (i : Z) (owner : string) (value : Q) : Utxo.UTXO :=
  {| Utxo.tx_id := "5eb1fd92"; Utxo.output_index := i; Utxo.address := owner;
     Utxo.amount := value; Utxo.is_shielded := false |}.

Definition coin_a : Utxo.UTXO := coin 0 "alice" 5.
Definition coin_b : Utxo.UTXO := coin 1 "bob" (15 # 2).

Definition pool_ab : Utxo.UTXOPool :=
  Utxo.add_utxo (Utxo.add_utxo Utxo.empty_pool coin_a) coin_b.

(** The mempool of [Sample.tie_pool] with its capacity set to the two
    entries it holds ([pool.max_size = 2]). *)
Definition brim_pool : Pool.Mempool :=
  {| Pool.transactions := Pool.transactions Sample.tie_pool;
     Pool.transaction_fees := Pool.transaction_fees Sample.tie_pool;
     Pool.max_size := 2 |}.

(** A mixing pool with four notes of about 1 coin and one of 5 coins. *)
Definition mix_pool : Mixing.MixingPool :=
  let p1 := snd (Mixing.add_to_pool Mixing.new_pool 1 "c1" 1000) in
  let p2 := snd (Mixing.add_to_pool p1 (201 # 200) "c2" 1001) in
  let p3 := snd (Mixing.add_to_pool p2 5 "c3" 1002) in
  let p4 := snd (Mixing.add_to_pool p3 (199 # 200) "c4" 1003) in
  snd (Mixing.add_to_pool p4 1 "c5" 1004).

(** A mempool of two payments admitted at the times [t1] and [t2] with
    the fees [f1] and [f2]. *)
Definition pool_of (f1 t1 f2 t2 : Q) : Pool.Mempool :=
  let m := snd (Pool.add_transaction t1 t1 Pool.new_mempool (Sample.payment 0) f1) in
  snd (Pool.add_transaction t2 t2 m (Sample.payment 1) f2).

(** The fees 0.001 and 0.01, both admitted at time 1000. *)
Definition fee_pool : Pool.Mempool :=
  pool_of (Float64.lit (1 # 1000)) 1000 (Float64.lit (1 # 100)) 1000.

(** The fee -0.001 twice, admitted at the times 1000 and 1001. *)
Definition rebate64_pool : Pool.Mempool :=
  pool_of (- Float64.lit (1 # 1000)) 1000 (- Float64.lit (1 # 1000)) 1001.

(** The fee 0.001 twice, admitted at the times 1000 and 1001. *)
Definition aged64_pool : Pool.Mempool :=
  pool_of (Float64.lit (1 # 1000)) 1000 (Float64.lit (1 # 1000)) 1001.

(** The fees 0.1 and 0.1 + 0.2, admitted at the times 997 and 999: at time
    1000 both priorities are the float 0.30000000000000004. *)
Definition rounding_pool : Pool.Mempool :=
  pool_of (Float64.lit (1 # 10)) 997
          (Float64.add (Float64.lit (1 # 10)) (Float64.lit (2 # 10))) 999.

(** The fees 0.7 and 0.7 * 3, admitted at the times 997 and 999: at time
    1000 both priorities are the float 2.0999999999999996. *)
Definition tie64_pool : Pool.Mempool :=
  pool_of (Float64.lit (7 # 10)) 997 (Float64.mul (Float64.lit (7 # 10)) 3) 999.

End Sample2.

(* ===================================================================== *)
(** ** Predicates used in the statements *)
(* ===================================================================== *)

(** The four checks [is_chain_valid] makes on a block and its predecessor:
    hash recomputation, previous-hash linkage, Merkle root, proof of work. *)
Definition passes_checks (prev cur : Blk.Block) : Prop :=
  Blk.hash cur = Blk.calculate_hash cur
  /\ Blk.previous_hash cur = Blk.hash prev
  /\ Blk.verify_merkle_root cur = true
  /\ Py.startswith (Blk.hash cur) (Py.zeros (Blk.difficulty cur)) = true.

(** [es] is in descending order of priority at time [now]. *)
Definition descending (now : Q) (es : list Pool.Entry) : Prop :=
  StronglySorted (fun a b => (Pool.priority now b <= Pool.priority now a)%Q) es.

(** The entries of each priority come in [es] in the order they have in
    [l]. *)
Definition stable (now : Q) (l es : list Pool.Entry) : Prop :=
  forall k : Q,
    List.filter (fun e => Qeq_bool (Pool.priority now e) k) es
    = List.filter (fun e => Qeq_bool (Pool.priority now e) k) l.

(** At time [now] the age and the priority of every entry of [m] are
    finite floats. *)
Definition priorities_finite (now : Q) (m : Pool.Mempool) : Prop :=
  Forall (fun e => Float64.finite (now - Pool.timestamp e)
                   /\ Float64.finite (Pool.fee e * Float64.sub now (Pool.timestamp e)))
         (Pool.transactions m).



(** The coinbase transaction [mine_pending_transactions] builds at [height]. *)
Definition coinbase (address : string) (height : Z) (ts : Q) : Transaction :=
  Transparent {| TransparentTransaction.sender := "COINBASE";
                 TransparentTransaction.recipient := address;
                 TransparentTransaction.amount := ConsensusRules.get_block_reward height;
                 TransparentTransaction.timestamp := ts;
                 TransparentTransaction.signature := "" |}.

(** The transactions [mine_pending_transactions] puts in its block: the
    selection from the mempool, then the coinbase. *)
Definition block_transactions (clk : Chain.MineClock) (st : Chain.VeilChain)
    (address : string) : list Transaction :=
  (Pool.get_transactions_for_mining (Chain.t_select clk) (Chain.mempool st) 100
   ++ [coinbase address (Z.of_nat (length (Chain.chain st))) (Chain.t_reward clk)])%list.

(** A UTXO pool is consistent when every live output is stored under its
    own identifier and no live identifier is in the spent set. *)
Definition utxo_consistent (p : Utxo.UTXOPool) : Prop :=
  forall id u, Utxo.utxos p !! id = Some u -> Utxo.get_id u = id /\ id ∉ Utxo.spent_utxos p.





(** [l] holds the amounts of the live outputs of [addr], in some order:
    what [get_balance] sums, in the order of the dict. *)
Definition balance_order (p : Utxo.UTXOPool) (addr : string) (l : list Q) : Prop :=
  l ≡ₚ map Utxo.amount (Utxo.get_utxos_for_address p addr).

(** A mempool is consistent when its entries have pairwise different
    hashes, each entry is filed under the hash of its transaction, and the
    fee map holds exactly the fee of each entry. *)
Definition pool_consistent (m : Pool.Mempool) : Prop :=
  NoDup (map Pool.hash (Pool.transactions m))
  /\ (forall e, e ∈ Pool.transactions m ->
        Pool.hash e = tx_hash (Pool.transaction e)
        /\ Pool.transaction_fees m !! Pool.hash e = Some (Pool.fee e))
  /\ (forall h, is_Some (Pool.transaction_fees m !! h) ->
        h ∈ map Pool.hash (Pool.transactions m)).

(** The opcodes for which [_execute_opcode] has no branch. *)
Definition is_noop (i : Script.Item) : bool :=
  match i with
  | Script.Op Script.OP_IF | Script.Op Script.OP_ELSE | Script.Op Script.OP_ENDIF
  | Script.Op Script.OP_CHECKSEQUENCEVERIFY => true
  | _ => false
  end.



(* ===================================================================== *)
(** * Properties *)
(* ===================================================================== *)

(** ** Sanity checks of the primitives against known values *)

Example sha256_abc :
  sha256 "abc" = "ba7816bf8f01cfea414140de5dae2223b00361a396177a9cb410ff61f20015ad".
Proof. vm_compute. reflexivity. Qed.

Example sha256_nil :
  sha256 "" = "e3b0c44298fc1c149afbf4c8996fb92427ae41e4649b934ca495991b7852b855".
Proof. vm_compute. reflexivity. Qed.

Example sha256_two_blocks :
  sha256 "aaaaaaaaaaaaaaaaaaaaaaaaaaaaaaaaaaaaaaaaaaaaaaaaaaaaaaaaaaaaaaaaaaaaaaaaaaaaaaaaaaaaaaaaaaaaaaaaaaaa"
  = "2816597888e4a0d3a36b82b83316ab32680eb8f00f8cd3b904d681246d285a0e".
Proof. vm_compute. reflexivity. Qed.

Example str_float_reward : Py.str_float (25 # 2) = "12.5".
Proof. reflexivity. Qed.

Example str_float_small : Py.str_float (1 # 1000) = "0.001".
Proof. reflexivity. Qed.

Example merkle_three_leaves :
  let t := Merkle.new_tree ["a"; "b"; "c"] in
  Merkle.verify_proof (sha256 "c") (Merkle.get_proof t "c") (Merkle.get_root_hash t) = true
  /\ map Merkle.position (Merkle.get_proof t "b") = ["left"; "right"].
Proof. vm_compute. split; reflexivity. Qed.
Example str_float_whole : Py.str_float (1000 # 1) = "1000.0".
Proof. reflexivity. Qed.
Example str_int_neg : Py.str_int (-42) = "-42".
Proof. reflexivity. Qed.

(* ===================================================================== *)
(** ** Rounding to binary64 *)
(* ===================================================================== *)

Section Float64_facts.

Local Open Scope Q_scope.


Lemma pow2_pos (k : Z) : 0 < Float64.pow2 k.
Proof.
  unfold Float64.pow2. destruct (0 <=? k)%Z eqn:E.
  - apply Z.leb_le in E. unfold Qlt. cbn. pose proof (Z.pow_pos_nonneg 2 k ltac:(lia) E). lia.
  - reflexivity.
Qed.

Lemma pow2_add (a b : Z) : Float64.pow2 (a + b) == Float64.pow2 a * Float64.pow2 b.
Proof.
  assert (forall k, (0 <= k)%Z -> Float64.pow2 (- k) == / Float64.pow2 k) as Hneg.
  { intros k Hk. unfold Float64.pow2. destruct (Z.eq_dec k 0%Z) as [-> | Hne]; [reflexivity |].
    assert ((0 <=? - k)%Z = false) as -> by (apply Z.leb_gt; lia).
    assert ((0 <=? k)%Z = true) as -> by (apply Z.leb_le; lia).
    rewrite Z.opp_involutive. pose proof (Z.pow_pos_nonneg 2 k ltac:(lia) Hk) as Hp.
    unfold Qeq, Qinv, inject_Z. cbn. destruct (2 ^ k)%Z eqn:E; try lia. cbn. lia. }
  assert (forall k, Float64.pow2 k == if (0 <=? k)%Z then inject_Z (2 ^ k)
                                       else / inject_Z (2 ^ (- k))) as Hform.
  { intros k. destruct (0 <=? k)%Z eqn:E.
    - unfold Float64.pow2. rewrite E. reflexivity.
    - apply Z.leb_gt in E. rewrite <- (Z.opp_involutive k) at 1. rewrite Hneg by lia.
      unfold Float64.pow2. assert ((0 <=? - k)%Z = true) as -> by (apply Z.leb_le; lia).
      reflexivity. }
  assert (forall k, (0 <= k)%Z -> ~ inject_Z (2 ^ k) == 0) as Hnz.
  { intros k Hk H. unfold Qeq in H. cbn in H. pose proof (Z.pow_pos_nonneg 2 k ltac:(lia) Hk). lia. }
  rewrite !Hform.
  destruct (0 <=? a)%Z eqn:Ea, (0 <=? b)%Z eqn:Eb, (0 <=? a + b)%Z eqn:Eab;
    try apply Z.leb_le in Ea; try apply Z.leb_gt in Ea;
    try apply Z.leb_le in Eb; try apply Z.leb_gt in Eb;
    try apply Z.leb_le in Eab; try apply Z.leb_gt in Eab; try lia.
  - rewrite Z.pow_add_r by lia. rewrite inject_Z_mult. reflexivity.
  - replace (2 ^ a)%Z with (2 ^ (a + b) * 2 ^ (- b))%Z
      by (rewrite <- Z.pow_add_r by lia; f_equal; lia).
    rewrite inject_Z_mult. field. apply Hnz. lia.
  - replace (2 ^ (- b))%Z with (2 ^ a * 2 ^ (- (a + b)))%Z
      by (rewrite <- Z.pow_add_r by lia; f_equal; lia).
    rewrite inject_Z_mult. field. split; apply Hnz; lia.
  - replace (2 ^ b)%Z with (2 ^ (a + b) * 2 ^ (- a))%Z
      by (rewrite <- Z.pow_add_r by lia; f_equal; lia).
    rewrite inject_Z_mult. field. apply Hnz. lia.
  - replace (2 ^ (- a))%Z with (2 ^ b * 2 ^ (- (a + b)))%Z
      by (rewrite <- Z.pow_add_r by lia; f_equal; lia).
    rewrite inject_Z_mult. field. split; apply Hnz; lia.
  - replace (2 ^ (- (a + b)))%Z with (2 ^ (- a) * 2 ^ (- b))%Z
      by (rewrite <- Z.pow_add_r by lia; f_equal; lia).
    rewrite inject_Z_mult. field. split; apply Hnz; lia.
Qed.

Lemma pow2_nonneg (k : Z) : (0 <= k)%Z -> Float64.pow2 k == inject_Z (2 ^ k).
Proof.
  intros H. unfold Float64.pow2. apply Z.leb_le in H. rewrite H. reflexivity.
Qed.

Lemma pow2_ge_1 (k : Z) : (0 <= k)%Z -> 1 <= Float64.pow2 k.
Proof.
  intros H. rewrite pow2_nonneg by exact H. unfold Qle. cbn.
  pose proof (Z.pow_pos_nonneg 2 k ltac:(lia) H). lia.
Qed.

Lemma pow2_le (a b : Z) : (a <= b)%Z -> Float64.pow2 a <= Float64.pow2 b.
Proof.
  intros H. replace b with (a + (b - a))%Z by lia. rewrite pow2_add.
  pose proof (pow2_pos a). pose proof (pow2_ge_1 (b - a) ltac:(lia)). nra.
Qed.

Lemma pow2_lt (a b : Z) : (a < b)%Z -> Float64.pow2 a < Float64.pow2 b.
Proof.
  intros H. replace b with (a + 1 + (b - a - 1))%Z by lia. rewrite !pow2_add.
  pose proof (pow2_pos a). pose proof (pow2_ge_1 (b - a - 1) ltac:(lia)).
  change (Float64.pow2 1) with (2 # 1). nra.
Qed.

Lemma Q_as_fraction (x : Q) : x * inject_Z (Z.pos (Qden x)) == inject_Z (Qnum x).
Proof. destruct x as [n d]. unfold Qeq, Qmult, inject_Z. cbn. lia. Qed.

Lemma inject_Z_pow2_bounds (n : Z) :
  (0 < n)%Z ->
  Float64.pow2 (Z.log2 n) <= inject_Z n /\ inject_Z n < Float64.pow2 (Z.log2 n + 1).
Proof.
  intros Hn. destruct (Z.log2_spec n Hn) as [H1 H2].
  pose proof (Z.log2_nonneg n) as H0.
  rewrite !pow2_nonneg by lia. rewrite <- Zle_Qle, <- Zlt_Qlt.
  replace (Z.log2 n + 1)%Z with (Z.succ (Z.log2 n)) by lia. split; assumption.
Qed.

Lemma ilog2_spec (x : Q) :
  0 < x -> Float64.pow2 (Float64.ilog2 x) <= x /\ x < Float64.pow2 (Float64.ilog2 x + 1).
Proof.
  intros Hx. unfold Float64.ilog2.
  assert (0 < Qnum x)%Z as Hn by (destruct x; unfold Qlt in Hx; cbn in *; lia).
  destruct (inject_Z_pow2_bounds (Qnum x) Hn) as [Ha1 Ha2].
  destruct (inject_Z_pow2_bounds (Z.pos (Qden x)) ltac:(lia)) as [Hb1 Hb2].
  pose proof (Q_as_fraction x) as Hf.
  set (a := Z.log2 (Qnum x)) in *. set (b := Z.log2 (Z.pos (Qden x))) in *.
  set (N := inject_Z (Qnum x)) in *. set (D := inject_Z (Z.pos (Qden x))) in *.
  assert (0 < D) as HD by (pose proof (pow2_pos b); lra).
  assert (x < Float64.pow2 (a - b + 1)) as Hup.
  { pose proof (pow2_add (a - b + 1) b) as E.
    replace (a - b + 1 + b)%Z with (a + 1)%Z in E by lia.
    pose proof (pow2_pos (a - b + 1)). nra. }
  assert (Float64.pow2 (a - b - 1) <= x) as Hlow.
  { pose proof (pow2_add (a - b - 1) (b + 1)) as E.
    replace (a - b - 1 + (b + 1))%Z with a in E by lia.
    pose proof (pow2_pos (a - b - 1)). nra. }
  destruct (Qle_bool (Float64.pow2 (a - b)) x) eqn:E.
  - apply Qle_bool_iff in E. split; assumption.
  - assert (x < Float64.pow2 (a - b)) as Hlt.
    { apply Qnot_le_lt. intros H. apply Qle_bool_iff in H. congruence. }
    replace (a - b - 1 + 1)%Z with (a - b)%Z by lia. split; assumption.
Qed.

Lemma ilog2_unique (x : Q) (e : Z) :
  Float64.pow2 e <= x -> x < Float64.pow2 (e + 1) -> Float64.ilog2 x = e.
Proof.
  intros H1 H2. assert (0 < x) as Hx by (pose proof (pow2_pos e); lra).
  destruct (ilog2_spec x Hx) as [H3 H4].
  destruct (Z.lt_trichotomy (Float64.ilog2 x) e) as [Hlt | [Heq | Hgt]]; [| exact Heq |].
  - pose proof (pow2_le (Float64.ilog2 x + 1) e ltac:(lia)). lra.
  - pose proof (pow2_le (e + 1) (Float64.ilog2 x) ltac:(lia)). lra.
Qed.

Lemma ilog2_mono (x y : Q) : 0 < x -> x <= y -> (Float64.ilog2 x <= Float64.ilog2 y)%Z.
Proof.
  intros Hx Hxy. destruct (ilog2_spec x Hx) as [H1 H2].
  destruct (ilog2_spec y ltac:(lra)) as [H3 H4].
  destruct (Z_le_gt_dec (Float64.ilog2 x) (Float64.ilog2 y)) as [H | H]; [exact H |].
  pose proof (pow2_le (Float64.ilog2 y + 1) (Float64.ilog2 x) ltac:(lia)). lra.
Qed.

Lemma rne_cases (t : Q) :
  let f := Qfloor t in
  (Float64.rne t = f /\ (t - inject_Z f < 1 # 2
                          \/ (t - inject_Z f == 1 # 2 /\ Z.even f = true)))
  \/ (Float64.rne t = (f + 1)%Z /\ (1 # 2 < t - inject_Z f
                                     \/ (t - inject_Z f == 1 # 2 /\ Z.even f = false))).
Proof.
  intros f. unfold Float64.rne. fold f.
  destruct (t - inject_Z f ?= 1 # 2) eqn:E.
  - apply Qeq_alt in E. destruct (Z.even f) eqn:Ev; [left | right]; split; auto.
  - apply Qlt_alt in E. left. split; auto.
  - apply Qgt_alt in E. right. split; auto.
Qed.

Lemma rne_mono (s t : Q) : s <= t -> (Float64.rne s <= Float64.rne t)%Z.
Proof.
  intros Hst. pose proof (Qfloor_resp_le s t Hst) as Hf.
  pose proof (Qfloor_le s) as Hs1. pose proof (Qlt_floor s) as Hs2.
  pose proof (Qfloor_le t) as Ht1. pose proof (Qlt_floor t) as Ht2.
  destruct (rne_cases s) as [[-> Cs] | [-> Cs]], (rne_cases t) as [[-> Ct] | [-> Ct]];
    try lia.
  destruct (Z.eq_dec (Qfloor s) (Qfloor t)) as [E | Hne]; [| lia].
  exfalso. rewrite E in Cs.
  destruct Cs as [Cs | [Cs Es]], Ct as [Ct | [Ct Et]]; try lra. congruence.
Qed.

Lemma rne_Z (n : Z) : Float64.rne (inject_Z n) = n.
Proof.
  unfold Float64.rne. rewrite Qfloor_Z.
  assert ((inject_Z n - inject_Z n ?= 1 # 2) = Lt) as ->
    by (apply (proj1 (Qlt_alt _ _)); unfold Qlt, Qminus, Qplus, Qopp, inject_Z; cbn; lia).
  reflexivity.
Qed.

Lemma rne_comp (s t : Q) : s == t -> Float64.rne s = Float64.rne t.
Proof.
  intros E. apply Z.le_antisymm; apply rne_mono; rewrite E; apply Qle_refl.
Qed.

Lemma rne_ge (t : Q) (n : Z) : inject_Z n <= t -> (n <= Float64.rne t)%Z.
Proof. intros H. rewrite <- (rne_Z n). apply rne_mono, H. Qed.

Lemma rne_le (t : Q) (n : Z) : t <= inject_Z n -> (Float64.rne t <= n)%Z.
Proof. intros H. rewrite <- (rne_Z n). apply rne_mono, H. Qed.

Lemma ilog2_comp (x y : Q) : 0 < x -> x == y -> Float64.ilog2 x = Float64.ilog2 y.
Proof.
  intros Hx E. destruct (ilog2_spec x Hx) as [H1 H2]. symmetry.
  apply ilog2_unique; rewrite <- E; assumption.
Qed.

Lemma ulp_exp_mono (x y : Q) : 0 < x -> x <= y -> (Float64.ulp_exp x <= Float64.ulp_exp y)%Z.
Proof.
  intros Hx Hxy. unfold Float64.ulp_exp. pose proof (ilog2_mono x y Hx Hxy). lia.
Qed.

Lemma round_pos_nonneg (x : Q) : 0 < x -> 0 <= Float64.round_pos x.
Proof.
  intros Hx. unfold Float64.round_pos. pose proof (pow2_pos (Float64.ulp_exp x)) as Hp.
  assert (0 <= Float64.rne (x / Float64.pow2 (Float64.ulp_exp x)))%Z as H.
  { apply rne_ge. change (inject_Z 0) with 0. apply Qlt_le_weak, Qlt_shift_div_l; lra. }
  apply Qmult_le_0_compat; [| lra]. change 0 with (inject_Z 0). rewrite <- Zle_Qle. exact H.
Qed.

Lemma round_pos_mono (x y : Q) :
  0 < x -> x <= y -> Float64.round_pos x <= Float64.round_pos y.
Proof.
  intros Hx Hxy. unfold Float64.round_pos.
  pose proof (ulp_exp_mono x y Hx Hxy) as Hu.
  set (ux := Float64.ulp_exp x) in *. set (uy := Float64.ulp_exp y) in *.
  pose proof (pow2_pos ux) as Hpx. pose proof (pow2_pos uy) as Hpy.
  destruct (Z.eq_dec ux uy) as [E | Hne].
  - rewrite <- E. apply Qmult_le_compat_r; [| lra]. rewrite <- Zle_Qle. apply rne_mono.
    apply Qmult_le_compat_r; [exact Hxy |]. apply Qlt_le_weak, Qinv_lt_0_compat, Hpx.
  - assert (uy = Float64.ilog2 y - 52)%Z as Ey by (unfold uy, ux, Float64.ulp_exp in *; lia).
    destruct (ilog2_spec x Hx) as [_ Hx2]. destruct (ilog2_spec y ltac:(lra)) as [Hy1 _].
    assert (Float64.ilog2 x - 52 <= ux)%Z as Hux by (unfold ux, Float64.ulp_exp; lia).
    set (E := Float64.ilog2 y) in *.
    assert (x < Float64.pow2 E) as HxE.
    { eapply Qlt_le_trans; [exact Hx2 |]. apply pow2_le. unfold ux, uy, Float64.ulp_exp in *.
      lia. }
    apply Qle_trans with (Float64.pow2 E).
    + pose proof (pow2_add (E - ux) ux) as Ea. replace (E - ux + ux)%Z with E in Ea by lia.
      rewrite Ea. apply Qmult_le_compat_r; [| lra].
      rewrite (pow2_nonneg (E - ux)) by lia. rewrite <- Zle_Qle. apply rne_le.
      rewrite <- (pow2_nonneg (E - ux)) by lia. apply Qle_shift_div_r; [exact Hpx |].
      rewrite <- Ea. apply Qlt_le_weak, HxE.
    + pose proof (pow2_add 52 uy) as Ea. replace (52 + uy)%Z with E in Ea by lia.
      rewrite Ea. apply Qmult_le_compat_r; [| lra].
      rewrite (pow2_nonneg 52) by lia. rewrite <- Zle_Qle. apply rne_ge.
      rewrite <- (pow2_nonneg 52) by lia. apply Qle_shift_div_l; [exact Hpy |].
      rewrite <- Ea. exact Hy1.
Qed.


Lemma round64_pos (x : Q) : 0 < x -> Float64.round64 x == Float64.round_pos x.
Proof.
  intros Hx. unfold Float64.round64.
  assert ((x ?= 0) = Gt) as -> by (apply (proj1 (Qgt_alt _ _)); exact Hx).
  apply Qred_correct.
Qed.

Lemma round64_neg (x : Q) : x < 0 -> Float64.round64 x == - Float64.round_pos (- x).
Proof.
  intros Hx. unfold Float64.round64.
  assert ((x ?= 0) = Lt) as -> by (apply (proj1 (Qlt_alt _ _)); exact Hx).
  apply Qred_correct.
Qed.

Lemma round64_0 (x : Q) : x == 0 -> Float64.round64 x == 0.
Proof.
  intros Hx. unfold Float64.round64.
  assert ((x ?= 0) = Eq) as -> by (apply (proj1 (Qeq_alt _ _)); exact Hx).
  reflexivity.
Qed.

(** Rounding is monotone. *)
Lemma round64_mono (x y : Q) : x <= y -> Float64.round64 x <= Float64.round64 y.
Proof.
  intros Hxy.
  destruct (Q_dec x 0) as [[Hx | Hx] | Hx], (Q_dec y 0) as [[Hy | Hy] | Hy]; try lra;
    rewrite ?(round64_pos x), ?(round64_pos y), ?(round64_neg x), ?(round64_neg y),
            ?(round64_0 x), ?(round64_0 y) by assumption; try apply Qle_refl.
  - apply Qopp_le_compat. apply round_pos_mono; lra.
  - pose proof (round_pos_nonneg (- x) ltac:(lra)). pose proof (round_pos_nonneg y Hy). lra.
  - pose proof (round_pos_nonneg (- x) ltac:(lra)). lra.
  - apply round_pos_mono; lra.
  - apply round_pos_nonneg, Hy.
Qed.

Lemma round64_comp (x y : Q) : x == y -> Float64.round64 x == Float64.round64 y.
Proof. intros E. apply Qle_antisym; apply round64_mono; rewrite E; apply Qle_refl. Qed.


(** A multiple [m * 2^k] of a power of two above the smallest subnormal,
    with a mantissa of at most 53 bits, is a binary64 number. *)
Lemma round64_exact (x : Q) (m k : Z) :
  x == inject_Z m * Float64.pow2 k -> (Z.abs m < 2 ^ 53)%Z -> (-1074 <= k)%Z ->
  Float64.round64 x == x.
Proof.
  assert (forall x m k, x == inject_Z m * Float64.pow2 k -> (0 < m < 2 ^ 53)%Z ->
                        (-1074 <= k)%Z -> Float64.round_pos x == x) as Hpos.
  { clear. intros x m k E Hm Hk. pose proof (pow2_pos k) as Hpk.
    assert (0 < inject_Z m) as Hm0 by (change 0 with (inject_Z 0); rewrite <- Zlt_Qlt; lia).
    assert (0 < x) as Hx by (rewrite E; apply Qmult_lt_0_compat; assumption).
    assert (Float64.ulp_exp x <= k)%Z as Hu.
    { unfold Float64.ulp_exp.
      assert (Float64.ilog2 x < 53 + k)%Z; [| lia].
      destruct (ilog2_spec x Hx) as [H1 _].
      destruct (Z_lt_ge_dec (Float64.ilog2 x) (53 + k)) as [H | H]; [exact H | exfalso].
      pose proof (pow2_le (53 + k) (Float64.ilog2 x) ltac:(lia)) as H2.
      rewrite pow2_add in H2.
      assert (inject_Z m < Float64.pow2 53) as H3
        by (rewrite pow2_nonneg by lia; rewrite <- Zlt_Qlt; lia).
      nra. }
    unfold Float64.round_pos. set (u := Float64.ulp_exp x) in *.
    pose proof (pow2_pos u) as Hpu.
    pose proof (pow2_add (k - u) u) as Ea. replace (k - u + u)%Z with k in Ea by lia.
    assert (x / Float64.pow2 u == inject_Z (m * 2 ^ (k - u))) as Eq.
    { rewrite inject_Z_mult, <- pow2_nonneg by lia. rewrite E, Ea. field. lra. }
    rewrite (rne_comp _ _ Eq), rne_Z, inject_Z_mult, <- pow2_nonneg by lia.
    rewrite E, Ea. ring. }
  intros E Hm Hk. destruct (Z.lt_trichotomy m 0) as [Hneg | [-> | Hp]].
  - assert (x < 0) as Hx.
    { rewrite E. pose proof (pow2_pos k).
      assert (inject_Z m < 0) by (change 0 with (inject_Z 0); rewrite <- Zlt_Qlt; lia). nra. }
    rewrite round64_neg by exact Hx.
    rewrite (Hpos (- x) (- m)%Z k); [ring | | lia | exact Hk].
    rewrite E, inject_Z_opp. ring.
  - assert (x == 0) as E0 by (rewrite E; change (inject_Z 0) with 0; ring).
    rewrite (round64_0 x E0). symmetry. exact E0.
  - assert (0 < x) as Hx.
    { rewrite E. pose proof (pow2_pos k).
      assert (0 < inject_Z m) by (change 0 with (inject_Z 0); rewrite <- Zlt_Qlt; lia). nra. }
    rewrite round64_pos by exact Hx. apply (Hpos x m k); [exact E | lia | exact Hk].
Qed.

(** Two positive numbers a factor four apart round to different floats,
    unless both vanish below the subnormal numbers. *)
Lemma round64_lt_4 (x y : Q) :
  0 < x -> 4 * x <= y -> Float64.pow2 (-1073) <= y ->
  Float64.round64 x < Float64.round64 y.
Proof.
  intros Hx Hxy Hy. destruct (ilog2_spec x Hx) as [H1 H2].
  set (E := Float64.ilog2 x) in *.
  assert (forall k, (-1074 <= k)%Z -> Float64.round64 (Float64.pow2 k) == Float64.pow2 k)
    as Hexact by (intros k Hk; apply (round64_exact _ 1 k); [ring | lia | exact Hk]).
  destruct (Z_le_gt_dec (-1074) (E + 1)) as [Hn | Hs].
  - apply Qle_lt_trans with (Float64.pow2 (E + 1)).
    + rewrite <- (Hexact (E + 1)%Z Hn). apply round64_mono, Qlt_le_weak, H2.
    + apply Qlt_le_trans with (Float64.pow2 (E + 2)); [apply pow2_lt; lia |].
      rewrite <- (Hexact (E + 2)%Z) by lia. apply round64_mono.
      pose proof (pow2_add E 2) as Ea. change (Float64.pow2 2) with (4 # 1) in Ea.
      rewrite Ea. lra.
  - apply Qle_lt_trans with (Float64.pow2 (-1074)).
    + rewrite <- (Hexact (-1074)%Z) by lia. apply round64_mono.
      pose proof (pow2_le (E + 1) (-1074) ltac:(lia)). lra.
    + apply Qlt_le_trans with (Float64.pow2 (-1073)); [apply pow2_lt; lia |].
      rewrite <- (Hexact (-1073)%Z) by lia. apply round64_mono, Hy.
Qed.

End Float64_facts.

(* ===================================================================== *)
(** ** Merkle root of an empty batch (C2) *)
(* ===================================================================== *)

Lemma build_tree_nil : Merkle.build_tree [] = None.
Proof. reflexivity. Qed.

Lemma sha256_empty_marker :
  sha256 "empty" = "2e1cfa82b035c26cbbbdae632cea070514eb8b773f616aaeaf668e2f0be8f10d".
Proof. vm_compute. reflexivity. Qed.

(** C2, as stated, fails: the Merkle tree built over the empty list has no
    root, and [get_root_hash] answers the empty string, which is not
    [sha256("empty")]. *)
Lemma merkle_empty_is_empty_string :
  Merkle.get_root_hash (Merkle.new_tree []) = ""
  /\ Merkle.get_root_hash (Merkle.new_tree []) <> sha256 "empty".
Proof.
  split; [reflexivity |].
  rewrite sha256_empty_marker. discriminate.
Qed.

(** C2, amended: the sentinel [sha256("empty")] is produced by
    [Block.calculate_merkle_root] for a block without transactions, before
    any Merkle tree is built; the tree itself answers [""] on the empty
    list (no error either way). *)
Theorem empty_batch_merkle_root (b : Blk.Block) :
  Blk.transactions b = [] ->
  Blk.calculate_merkle_root b = sha256 "empty"
  /\ Blk.verify_merkle_root (Blk.set_merkle_root b (sha256 "empty")) = true
  /\ Merkle.get_root_hash (Merkle.new_tree (map tx_hash (Blk.transactions b))) = "".
Proof.
  intros Hnil. unfold Blk.verify_merkle_root, Blk.calculate_merkle_root.
  cbn [Blk.transactions Blk.set_merkle_root Blk.merkle_root]. rewrite Hnil.
  split; [reflexivity | split; [apply String.eqb_refl | reflexivity]].
Qed.

Lemma empty_batch_merkle_root_witness :
  Blk.transactions Sample.g0 = []
  /\ Blk.calculate_merkle_root Sample.g0 = sha256 "empty".
Proof.
  split; [reflexivity |].
  apply (empty_batch_merkle_root Sample.g0). reflexivity.
Defined.

(* ===================================================================== *)
(** ** Full validation: [is_chain_valid] (C8, C10) *)
(* ===================================================================== *)

Lemma check_block_spec (prev cur : Blk.Block) :
  Chain.check_block prev cur = true <-> passes_checks prev cur.
Proof.
  unfold Chain.check_block, passes_checks.
  destruct (String.eqb (Blk.hash cur) (Blk.calculate_hash cur)) eqn:E1;
    [apply String.eqb_eq in E1 | apply String.eqb_neq in E1];
  destruct (String.eqb (Blk.previous_hash cur) (Blk.hash prev)) eqn:E2;
    [apply String.eqb_eq in E2 | apply String.eqb_neq in E2 |
     apply String.eqb_eq in E2 | apply String.eqb_neq in E2];
  destruct (Blk.verify_merkle_root cur);
  destruct (Py.startswith (Blk.hash cur) (Py.zeros (Blk.difficulty cur)));
  cbn [negb]; split; try discriminate; try tauto;
  intros (? & ? & ? & ?); congruence.
Qed.

(** The loop visits every adjacent pair of the chain, and nothing else. *)
Lemma valid_from_pairs (prev : Blk.Block) (rest : list Blk.Block) :
  Chain.valid_from prev rest = true <->
  forall i p c, (prev :: rest) !! i = Some p -> rest !! i = Some c -> passes_checks p c.
Proof.
  revert prev. induction rest as [|cur rest IH]; intros prev; cbn [Chain.valid_from].
  - split; [intros _ i p c _ H; destruct i; discriminate | reflexivity].
  - destruct (Chain.check_block prev cur) eqn:E.
    + rewrite IH. apply check_block_spec in E. split.
      * intros H [|i] p c Hp Hc; cbn in Hp, Hc.
        -- congruence.
        -- eapply H; eassumption.
      * intros H i p c Hp Hc. apply (H (S i)); assumption.
    + split; [discriminate |].
      intros H. assert (passes_checks prev cur) as Hc by (apply (H 0); reflexivity).
      apply check_block_spec in Hc. congruence.
Qed.

Lemma is_chain_valid_pairs (st : Chain.VeilChain) :
  Chain.is_chain_valid st = true <->
  forall i p c, Chain.chain st !! i = Some p -> Chain.chain st !! S i = Some c ->
                passes_checks p c.
Proof.
  unfold Chain.is_chain_valid. destruct (Chain.chain st) as [|g rest].
  - split; [intros _ i p c H; destruct i; discriminate | reflexivity].
  - apply valid_from_pairs.
Qed.

(** C10: validation never looks at the genesis block itself.  If every
    block after the first passes the four checks against its predecessor,
    the chain is valid whatever the first block holds; and the verdict only
    depends on the first block through its stored hash. *)
Theorem genesis_not_examined (st : Chain.VeilChain) (g : Blk.Block)
    (rest : list Blk.Block) :
  Chain.chain st = g :: rest ->
  (forall i prev cur, (g :: rest) !! i = Some prev -> (g :: rest) !! S i = Some cur ->
                      passes_checks prev cur) ->
  Chain.is_chain_valid st = true
  /\ forall g', Blk.hash g' = Blk.hash g ->
               Chain.is_chain_valid (Chain.set_chain st (g' :: rest)) = true.
Proof.
  intros Hc Hall. split.
  - apply is_chain_valid_pairs. rewrite Hc. exact Hall.
  - intros g' Hh. unfold Chain.is_chain_valid. cbn [Chain.chain Chain.set_chain].
    apply valid_from_pairs. intros [|i] p c Hp Hcur.
    + cbn in Hp. injection Hp as <-.
      destruct (Hall 0 g c eq_refl Hcur) as (H1 & H2 & H3 & H4).
      repeat split; try assumption. congruence.
    + apply (Hall (S i)); assumption.
Qed.

Lemma genesis_not_examined_witness :
  Blk.hash Sample.forged_genesis <> Blk.calculate_hash Sample.forged_genesis
  /\ Py.startswith (Blk.hash Sample.forged_genesis)
                   (Py.zeros (Blk.difficulty Sample.forged_genesis)) = false
  /\ Chain.is_chain_valid Sample.forged_chain = true.
Proof.
  split; [vm_compute; discriminate | split; [vm_compute; reflexivity |]].
  refine (proj1 (genesis_not_examined Sample.forged_chain Sample.forged_genesis
                   [Sample.forged_child] eq_refl _)).
  intros [|[|i]] prev cur Hp Hc; cbn in Hp, Hc; try discriminate.
  injection Hp as <-. injection Hc as <-.
  vm_compute. repeat split; reflexivity.
Defined.

(** C8, as stated, fails: a chain that passes [is_chain_valid] can hold, at
    position 1, a block whose [index] field is 5. *)
Lemma valid_chain_with_wrong_index :
  Chain.is_chain_valid Sample.misnumbered_chain = true
  /\ Chain.chain Sample.misnumbered_chain !! 1 = Some Sample.misnumbered
  /\ Blk.index Sample.misnumbered <> 1%Z.
Proof.
  split; [vm_compute; reflexivity | split; [reflexivity | vm_compute; discriminate]].
Qed.

(** C8, amended: in a chain accepted by [is_chain_valid], every block after
    the first is linked to its predecessor by [previous_hash] (and passes
    the hash, Merkle and proof-of-work checks); the [index] field is not
    examined. *)
Theorem valid_chain_linkage (st : Chain.VeilChain) :
  Chain.is_chain_valid st = true ->
  forall i prev cur,
    Chain.chain st !! i = Some prev -> Chain.chain st !! S i = Some cur ->
    Blk.previous_hash cur = Blk.hash prev /\ passes_checks prev cur.
Proof.
  intros Hv i prev cur Hp Hc.
  assert (passes_checks prev cur) as H
    by (eapply is_chain_valid_pairs; eassumption).
  split; [apply H | exact H].
Qed.

Lemma valid_chain_linkage_witness :
  Chain.is_chain_valid Sample.misnumbered_chain = true
  /\ Blk.previous_hash Sample.misnumbered = Blk.hash Sample.g0.
Proof.
  split; [vm_compute; reflexivity |].
  refine (proj1 (valid_chain_linkage Sample.misnumbered_chain _
                   0 Sample.g0 Sample.misnumbered eq_refl eq_refl)).
  vm_compute; reflexivity.
Defined.

(* ===================================================================== *)
(** ** Reorganization: [handle_chain_reorganization] (C5, C6) *)
(* ===================================================================== *)

(** C6: a competing chain that is not strictly longer is refused, and so is
    one that is longer by more than the maximum depth 6, valid or not; the
    node is left as it was. *)
Theorem reorganization_rejected (now : Q) (st : Chain.VeilChain)
    (competing_chain : list Blk.Block) :
  Chain.max_reorg_depth st = 6%Z ->
  length competing_chain <= length (Chain.chain st)
  \/ length (Chain.chain st) + 6 < length competing_chain ->
  Chain.handle_chain_reorganization now st competing_chain = (false, st).
Proof.
  intros Hmax Hlen. unfold Chain.handle_chain_reorganization.
  destruct (length competing_chain <=? length (Chain.chain st)) eqn:Hle;
    [reflexivity |].
  apply Nat.leb_gt in Hle.
  destruct (negb _); [reflexivity |].
  rewrite Hmax.
  destruct (6 <? _)%Z eqn:Hd; [reflexivity |].
  apply Z.ltb_ge in Hd. lia.
Qed.

Lemma reorganization_rejected_witness :
  Chain.is_chain_valid (Chain.set_chain Sample.node Sample.competing8) = true
  /\ Chain.handle_chain_reorganization 2000 Sample.node Sample.competing8
     = (false, Sample.node).
Proof.
  split; [vm_compute; reflexivity |].
  apply (reorganization_rejected 2000 Sample.node Sample.competing8).
  - reflexivity.
  - right. vm_compute. lia.
Defined.

(** What an accepted reorganization does: the competing chain is strictly
    longer, it becomes the chain, and [self.chain[len(competing_chain):]]
    is empty, so nothing is added to [orphaned_blocks]. *)
Lemma reorganization_accepted (now : Q) (st st' : Chain.VeilChain)
    (competing_chain : list Blk.Block) :
  Chain.handle_chain_reorganization now st competing_chain = (true, st') ->
  length (Chain.chain st) < length competing_chain
  /\ Chain.chain st' = competing_chain
  /\ Chain.orphaned_blocks st' = Chain.orphaned_blocks st.
Proof.
  unfold Chain.handle_chain_reorganization.
  destruct (length competing_chain <=? length (Chain.chain st)) eqn:Hle;
    [discriminate |].
  apply Nat.leb_gt in Hle.
  destruct (negb _); [discriminate |].
  destruct (_ <? _)%Z; [discriminate |].
  intros H. injection H as <-. cbn [Chain.chain Chain.orphaned_blocks
    Chain.set_chain Chain.set_orphaned_blocks].
  rewrite drop_ge by lia. rewrite app_nil_r. auto.
Qed.

(** C5 fails on the code: the node holding [g0; b1] accepts the competing
    chain [g0; c1; c2]; the chain is replaced, the displaced block [b1] is
    in neither the new chain nor [orphaned_blocks], which stays empty. *)
Theorem reorganization_discards_displaced_block :
  exists st',
    Chain.handle_chain_reorganization 2000 Sample.two_chain Sample.competing3
    = (true, st')
    /\ Chain.chain st' = Sample.competing3
    /\ (Sample.b1 ∈ Chain.chain Sample.two_chain)
    /\ (Sample.b1 ∉ Chain.chain st')
    /\ Chain.orphaned_blocks st' = [].
Proof.
  destruct (Chain.handle_chain_reorganization 2000 Sample.two_chain Sample.competing3)
    as [accepted st'] eqn:E.
  assert (accepted = true) as ->.
  { change accepted with (fst (accepted, st')). rewrite <- E. vm_compute. reflexivity. }
  exists st'. split; [reflexivity |].
  destruct (reorganization_accepted _ _ _ _ E) as (_ & Hc & Ho).
  split; [exact Hc |]. split; [| split].
  - apply list_elem_of_In. right. left. reflexivity.
  - rewrite Hc. unfold Sample.competing3. intros Hin.
    repeat (apply elem_of_cons in Hin as [Hin | Hin];
            [apply (f_equal Blk.timestamp) in Hin; vm_compute in Hin; discriminate |]).
    inversion Hin.
  - rewrite Ho. reflexivity.
Qed.

(* ===================================================================== *)
(** ** Privacy ledger: [verify_shielded_transaction] (C7) *)
(* ===================================================================== *)

Lemma verify_shielded_accept (p p' : Privacy.PrivacyLayer) (tx : ShieldedTransaction.t) :
  Privacy.verify_shielded_transaction p tx = (true, p') ->
  (ShieldedTransaction.nullifier tx ∉ Privacy.nullifier_set p)
  /\ Privacy.nullifier_set p' = {[ShieldedTransaction.nullifier tx]} ∪ Privacy.nullifier_set p
  /\ Privacy.commitment_set p'
     = {[ShieldedTransaction.commitment tx]} ∪ Privacy.commitment_set p.
Proof.
  unfold Privacy.verify_shielded_transaction.
  destruct (decide _) as [|Hn]; [discriminate |].
  destruct (negb _); [discriminate |].
  intros H. injection H as <-. auto.
Qed.

Lemma verify_shielded_reused (p : Privacy.PrivacyLayer) (tx : ShieldedTransaction.t) :
  ShieldedTransaction.nullifier tx ∈ Privacy.nullifier_set p ->
  Privacy.verify_shielded_transaction p tx = (false, p).
Proof.
  intros Hin. unfold Privacy.verify_shielded_transaction.
  destruct (decide _); [reflexivity | contradiction].
Qed.

(** The nullifier and commitment sets only grow, whatever the verdict. *)
Lemma verify_shielded_monotone (p : Privacy.PrivacyLayer) (tx : ShieldedTransaction.t) :
  Privacy.nullifier_set p ⊆ Privacy.nullifier_set (Privacy.verify_shielded_transaction p tx).2
  /\ Privacy.commitment_set p
     ⊆ Privacy.commitment_set (Privacy.verify_shielded_transaction p tx).2.
Proof.
  unfold Privacy.verify_shielded_transaction.
  destruct (decide _); [done |]. destruct (negb _); [done |].
  cbn. split; set_solver.
Qed.

(** C7, as stated, fails: on a ledger that already holds the commitment of
    the first transaction, the first of two transactions sharing a
    nullifier is accepted, the second refused, and the anonymity set has
    not grown at all. *)
Lemma double_spend_without_growth :
  let '(ok1, p1) := Privacy.verify_shielded_transaction Sample.ledger1 Sample.spend2 in
  let '(ok2, p2) := Privacy.verify_shielded_transaction p1 Sample.replay in
  ShieldedTransaction.nullifier Sample.spend2 = ShieldedTransaction.nullifier Sample.replay
  /\ ok1 = true /\ ok2 = false
  /\ Privacy.get_anonymity_set_size Sample.ledger1 = 1
  /\ Privacy.get_anonymity_set_size p2 = 1.
Proof. vm_compute. repeat split; reflexivity. Qed.

(** C7, amended: of two shielded transactions with the same nullifier whose
    first is admitted, the second is refused and changes nothing; after
    both calls the anonymity set has grown by exactly 1 when the first
    commitment was new to the ledger and by 0 when the ledger already held
    it (never by 2); the nullifier set has not lost an element. *)
Theorem double_spend_rejected (p p1 : Privacy.PrivacyLayer)
    (tx1 tx2 : ShieldedTransaction.t) :
  ShieldedTransaction.nullifier tx1 = ShieldedTransaction.nullifier tx2 ->
  Privacy.verify_shielded_transaction p tx1 = (true, p1) ->
  Privacy.verify_shielded_transaction p1 tx2 = (false, p1)
  /\ Privacy.get_anonymity_set_size p1
     = (if decide (ShieldedTransaction.commitment tx1 ∈ Privacy.commitment_set p)
        then Privacy.get_anonymity_set_size p
        else S (Privacy.get_anonymity_set_size p))
  /\ Privacy.nullifier_set p ⊆ Privacy.nullifier_set p1.
Proof.
  intros Hn H1. destruct (verify_shielded_accept _ _ _ H1) as (Hfresh & Hns & Hcs).
  split; [| split].
  - apply verify_shielded_reused. rewrite <- Hn, Hns. set_solver.
  - unfold Privacy.get_anonymity_set_size. rewrite Hcs.
    destruct (decide _) as [Hin | Hout].
    + f_equal. set_solver.
    + rewrite size_union by set_solver. rewrite size_singleton. reflexivity.
  - rewrite Hns. set_solver.
Qed.

Lemma double_spend_rejected_witness :
  Privacy.verify_shielded_transaction Sample.ledger1 Sample.replay1
  = (false, Sample.ledger1)
  /\ Privacy.get_anonymity_set_size Sample.ledger1 = 1.
Proof.
  destruct (double_spend_rejected Privacy.new_layer Sample.ledger1
              Sample.spend1 Sample.replay1) as (H1 & H2 & _).
  - vm_compute. reflexivity.
  - vm_compute. reflexivity.
  - split; [exact H1 | vm_compute; reflexivity].
Defined.

(* ===================================================================== *)
(** ** Mining and balances (C1) *)
(* ===================================================================== *)

(** No step of [mine_pending_transactions] writes to the UTXO pool. *)
Lemma mine_keeps_utxo_pool (fuel : nat) (clk : Chain.MineClock)
    (st st' : Chain.VeilChain) (addr : string) :
  Chain.mine_pending_transactions fuel clk st addr = Some st' ->
  Chain.utxo_pool st' = Chain.utxo_pool st.
Proof.
  unfold Chain.mine_pending_transactions.
  destruct (_ && _);
    (destruct (Chain.get_latest_block _); [| discriminate]);
    (destruct (Blk.mine_block _ _ _); [| discriminate]);
    (destruct (Chain.validate_new_block _ _ _) as [[|]|]; [| | discriminate]);
    intros H; injection H as <-; reflexivity.
Qed.

Lemma balance_of_empty_pool (addr : string) :
  Utxo.get_balance Utxo.empty_pool addr = 0%Q.
Proof.
  unfold Utxo.get_balance, Utxo.get_utxos_for_address, Utxo.empty_pool.
  cbn [Utxo.utxos]. rewrite map_to_list_empty. reflexivity.
Qed.

(** Mining on a node whose UTXO pool is empty leaves every balance at 0. *)
Lemma mine_from_empty_pool_balance (fuel : nat) (clk : Chain.MineClock)
    (st st' : Chain.VeilChain) (miner addr : string) :
  Chain.utxo_pool st = Utxo.empty_pool ->
  Chain.mine_pending_transactions fuel clk st miner = Some st' ->
  Chain.get_balance st' addr = 0%Q.
Proof.
  intros He Hm. unfold Chain.get_balance.
  rewrite (mine_keeps_utxo_pool _ _ _ _ _ Hm), He. apply balance_of_empty_pool.
Qed.

(** C1 fails on the code: a fresh node of difficulty 1 mines a block for
    [miner]; the block is appended, holds exactly one coinbase transaction
    of amount [get_block_reward(0)] = 12.5 paid to [miner], the chain is
    valid, and the balance of [miner] is 0, not the reward. *)
Theorem mining_leaves_balance_at_zero :
  exists st' b tx,
    Sample.mined = Some st'
    /\ Chain.chain st' = (Chain.chain Sample.fresh1 ++ [b])%list
    /\ Blk.transactions b = [Transparent tx]
    /\ TransparentTransaction.sender tx = "COINBASE"
    /\ TransparentTransaction.recipient tx = Sample.miner
    /\ TransparentTransaction.amount tx = ConsensusRules.get_block_reward 0
    /\ ConsensusRules.get_block_reward 0 = (25 # 2)%Q
    /\ Chain.is_chain_valid st' = true
    /\ Chain.get_balance st' Sample.miner = 0%Q
    /\ ~ (Chain.get_balance st' Sample.miner == ConsensusRules.get_block_reward 0)%Q.
Proof.
  eexists _, _, _.
  split; [vm_compute; reflexivity |].
  split; [vm_compute; reflexivity |].
  split; [vm_compute; reflexivity |].
  repeat (split; [vm_compute; reflexivity |]).
  vm_compute. discriminate.
Qed.

(* ===================================================================== *)
(** ** Mempool admission: [add_transaction] (C4) *)
(* ===================================================================== *)

(** Below capacity a duplicate is refused and the mempool is untouched. *)
Lemma add_duplicate_below_capacity (t_evict t_insert : Q) (m : Pool.Mempool)
    (tx : Transaction) (fee : Q) :
  length (Pool.transactions m) < Pool.max_size m ->
  existsb (fun e => String.eqb (Pool.hash e) (tx_hash tx)) (Pool.transactions m) = true ->
  Pool.add_transaction t_evict t_insert m tx fee = (false, m).
Proof.
  intros Hlt Hdup. unfold Pool.add_transaction.
  destruct (Pool.max_size m <=? length (Pool.transactions m)) eqn:E.
  - apply Nat.leb_le in E. lia.
  - rewrite Hdup. reflexivity.
Qed.

Lemma min_by_elem (key : Pool.Entry -> Q) (best : Pool.Entry) (l : list Pool.Entry) :
  Pool.min_by key best l ∈ best :: l.
Proof.
  revert best. induction l as [|e l IH]; intros best; cbn [Pool.min_by].
  - left.
  - specialize (IH (if ConsensusRules.Qltb (key e) (key best) then e else best)).
    apply elem_of_cons in IH as [-> | IH].
    + destruct (ConsensusRules.Qltb _ _); [right; left | left].
    + right. right. exact IH.
Qed.

(** At capacity the eviction runs before the duplicate test: a duplicate of
    any entry but the one of lowest priority is refused, and the mempool
    has lost the entry of lowest priority. *)
Lemma add_duplicate_at_capacity (t_evict t_insert : Q) (m : Pool.Mempool)
    (tx : Transaction) (fee : Q) (e : Pool.Entry) (l : list Pool.Entry) :
  Pool.transactions m = e :: l ->
  Pool.max_size m <= length (Pool.transactions m) ->
  existsb (fun x => String.eqb (Pool.hash x) (tx_hash tx)) (Pool.transactions m) = true ->
  Pool.hash (Pool.min_by (Pool.priority t_evict) e l) <> tx_hash tx ->
  Pool.add_transaction t_evict t_insert m tx fee
  = (false, Pool.remove_transaction m (Pool.hash (Pool.min_by (Pool.priority t_evict) e l)))
  /\ length (Pool.transactions
               (Pool.remove_transaction m
                  (Pool.hash (Pool.min_by (Pool.priority t_evict) e l))))
     < length (Pool.transactions m).
Proof.
  intros Et Hcap Hdup Hne. set (victim := Pool.min_by (Pool.priority t_evict) e l) in *.
  split.
  - unfold Pool.add_transaction. apply Nat.leb_le in Hcap. rewrite Hcap.
    unfold Pool.evict_lowest_priority. rewrite Et. cbv beta iota zeta. fold victim.
    cbn [Pool.remove_transaction Pool.transactions].
    assert (existsb (fun x => String.eqb (Pool.hash x) (tx_hash tx))
              (filter (fun x => Pool.hash x <> Pool.hash victim) (Pool.transactions m))
            = true) as ->; [| reflexivity].
    apply existsb_exists in Hdup as (x & Hin & Hx).
    apply existsb_exists. exists x. split; [| exact Hx].
    apply list_elem_of_In, list_elem_of_filter. split.
    + apply String.eqb_eq in Hx. congruence.
    + apply list_elem_of_In. exact Hin.
  - cbn [Pool.remove_transaction Pool.transactions].
    apply (length_filter_lt _ _ victim).
    + rewrite Et. apply min_by_elem.
    + intros H. apply H. reflexivity.
Qed.

(** C4 fails on the code: the mempool holds 1000 entries (its capacity)
    and the transaction offered is the one admitted 500th.  The call
    returns false, but the entry of lowest priority (the 1000th payment) has
    been evicted: 999 entries are left.  Offering again the entry of lowest
    priority itself is even accepted, since it is evicted first. *)
Theorem duplicate_at_capacity_evicts :
  let m := Sample.full_pool in
  let r500 := Pool.add_transaction 3000 3000 m (Sample.payment 500) (1 # 1000) in
  let r999 := Pool.add_transaction 3000 3000 m (Sample.payment 999) (1 # 1000) in
  length (Pool.transactions m) = 1000
  /\ Pool.max_size m = 1000
  /\ Sample.known m (Sample.payment 500) = true
  /\ Sample.known m (Sample.payment 999) = true
  /\ r500.1 = false
  /\ length (Pool.transactions r500.2) = 999
  /\ Sample.known r500.2 (Sample.payment 999) = false
  /\ r999.1 = true.
Proof. vm_compute. repeat split; reflexivity. Qed.

(* ===================================================================== *)
(** ** Mempool selection: [get_transactions_for_mining] (C9) *)
(* ===================================================================== *)

Lemma Qltb_lt (x y : Q) : ConsensusRules.Qltb x y = true <-> (x < y)%Q.
Proof.
  unfold ConsensusRules.Qltb. rewrite negb_true_iff. split.
  - intros H. apply Qnot_le_lt. intros Hle. apply Qle_bool_iff in Hle. congruence.
  - intros H. destruct (Qle_bool y x) eqn:E; [| reflexivity].
    apply Qle_bool_iff in E. exfalso. apply (Qlt_not_le _ _ H E).
Qed.

Lemma Qltb_ge (x y : Q) : ConsensusRules.Qltb x y = false <-> (y <= x)%Q.
Proof.
  unfold ConsensusRules.Qltb. rewrite negb_false_iff. apply Qle_bool_iff.
Qed.

Section Sorting.

Variable key : Pool.Entry -> Q.

Let ge_key (a b : Pool.Entry) : Prop := (key b <= key a)%Q.

Lemma insert_desc_perm (e : Pool.Entry) (l : list Pool.Entry) :
  Pool.insert_desc key e l ≡ₚ e :: l.
Proof.
  induction l as [|y l IH]; cbn [Pool.insert_desc]; [reflexivity |].
  destruct (ConsensusRules.Qltb (key e) (key y)); [| reflexivity].
  rewrite IH. apply Permutation_swap.
Qed.

Lemma sorted_desc_perm (l : list Pool.Entry) : Pool.sorted_desc key l ≡ₚ l.
Proof.
  induction l as [|e l IH]; [reflexivity |].
  unfold Pool.sorted_desc in *. cbn [foldr]. rewrite insert_desc_perm, IH. reflexivity.
Qed.

Lemma insert_desc_sorted (e : Pool.Entry) (l : list Pool.Entry) :
  StronglySorted ge_key l -> StronglySorted ge_key (Pool.insert_desc key e l).
Proof.
  induction l as [|y l IH]; intros Hs; cbn [Pool.insert_desc].
  - constructor; constructor.
  - apply StronglySorted_inv in Hs as [Hs Hy].
    destruct (ConsensusRules.Qltb (key e) (key y)) eqn:E.
    + apply Qltb_lt in E. constructor; [apply IH, Hs |].
      rewrite insert_desc_perm. constructor; [apply Qlt_le_weak, E | exact Hy].
    + apply Qltb_ge in E. constructor; [constructor; assumption |].
      constructor; [exact E |].
      eapply Forall_impl; [exact Hy |]. intros z Hz. unfold ge_key in *.
      eapply Qle_trans; eassumption.
Qed.

Lemma sorted_desc_sorted (l : list Pool.Entry) :
  StronglySorted ge_key (Pool.sorted_desc key l).
Proof.
  induction l as [|e l IH]; [constructor |].
  unfold Pool.sorted_desc in *. cbn [foldr]. apply insert_desc_sorted, IH.
Qed.

(** On two entries: the second one comes first exactly when its key is
    strictly greater. *)
Lemma sorted_desc_pair (a b : Pool.Entry) :
  Pool.sorted_desc key [a; b]
  = if ConsensusRules.Qltb (key a) (key b) then [b; a] else [a; b].
Proof. reflexivity. Qed.

End Sorting.

Section Stability.

Variable key : Pool.Entry -> Q.

Lemma insert_desc_stable (k : Q) (e : Pool.Entry) (l : list Pool.Entry) :
  List.filter (fun x => Qeq_bool (key x) k) (Pool.insert_desc key e l)
  = List.filter (fun x => Qeq_bool (key x) k) (e :: l).
Proof.
  induction l as [|y l IH]; cbn [Pool.insert_desc]; [reflexivity |].
  destruct (ConsensusRules.Qltb (key e) (key y)) eqn:E; [| reflexivity].
  apply Qltb_lt in E. cbn [List.filter] in *. rewrite IH.
  destruct (Qeq_bool (key e) k) eqn:Ee, (Qeq_bool (key y) k) eqn:Ey; try reflexivity.
  apply Qeq_bool_iff in Ee, Ey. rewrite Ee, Ey in E. exfalso. apply (Qlt_irrefl _ E).
Qed.

Lemma sorted_desc_stable (k : Q) (l : list Pool.Entry) :
  List.filter (fun x => Qeq_bool (key x) k) (Pool.sorted_desc key l)
  = List.filter (fun x => Qeq_bool (key x) k) l.
Proof.
  induction l as [|e l IH]; [reflexivity |].
  unfold Pool.sorted_desc in *. cbn [foldr]. rewrite insert_desc_stable.
  cbn [List.filter]. rewrite IH. reflexivity.
Qed.

End Stability.

(** A test by evaluation that the ages and priorities are finite. *)
Lemma priorities_finite_check (now : Q) (m : Pool.Mempool) :
  forallb (fun e =>
             Qle_bool (Qabs (now - Pool.timestamp e)) (inject_Z (2 ^ 1023))
             && Qle_bool (Qabs (Pool.fee e * Float64.sub now (Pool.timestamp e)))
                         (inject_Z (2 ^ 1023)))
          (Pool.transactions m) = true ->
  priorities_finite now m.
Proof.
  intros H. unfold priorities_finite. apply Forall_forall. intros e He.
  apply list_elem_of_In in He. rewrite forallb_forall in H. specialize (H e He).
  apply andb_true_iff in H as [H1 H2]. apply Qle_bool_iff in H1, H2.
  assert (inject_Z (2 ^ 1023) < Float64.overflow)%Q as Ho by reflexivity.
  unfold Float64.finite. split; eapply Qle_lt_trans; eassumption.
Qed.

(** C9, as stated, fails.  Two entries are admitted at the same time with
    the fees 0.001 and 0.01; selecting one at that very time returns the
    0.001-fee entry (both priorities are 0 and the sort is stable).  Of two
    entries with the same negative fee, the newer one is selected.  And the
    priority is a product of floats: with the fees 0.1 and 0.1 + 0.2 and the
    ages 3 and 1 the second product is the greater one, but both round to
    the same float and the first entry is selected. *)
Lemma selection_ties_and_negative_fees :
  map Pool.fee (Pool.transactions Sample2.fee_pool)
  = [Float64.lit (1 # 1000); Float64.lit (1 # 100)]
  /\ map Pool.timestamp (Pool.transactions Sample2.fee_pool) = [1000; 1000]%Q
  /\ Pool.get_transactions_for_mining 1000 Sample2.fee_pool 1 = [Sample.payment 0]
  /\ map Pool.timestamp (Pool.transactions Sample2.rebate64_pool) = [1000; 1001]%Q
  /\ Pool.get_transactions_for_mining 2000 Sample2.rebate64_pool 1 = [Sample.payment 1]
  /\ (Float64.lit (1 # 10) * (1000 - 997)
      < Float64.add (Float64.lit (1 # 10)) (Float64.lit (2 # 10)) * (1000 - 999))%Q
  /\ Pool.get_transactions_for_mining 1000 Sample2.rounding_pool 1 = [Sample.payment 0].
Proof. vm_compute. repeat split; reflexivity. Qed.

(** C9, amended: the priority is the float [fee * (now - timestamp)], each
    operation rounded.  At a time [now] at which the ages and priorities
    are finite, the selection is the first [limit] entries of the mempool
    sorted by descending priority, entries of equal priority in the order
    of the mempool; of two entries the second is selected exactly when its
    priority is strictly greater.  Of two entries admitted at the same
    time, at least a nanosecond before the selection, with the fees 0.001
    and 0.01, the 0.01-fee entry is selected; of two entries with the same
    non-negative fee, the one admitted first, when it is not the newer one,
    is selected. *)
Theorem mining_selection (now : Q) (m : Pool.Mempool) (limit : nat) :
  priorities_finite now m ->
  (exists es,
      Pool.get_transactions_for_mining now m limit = map Pool.transaction (take limit es)
      /\ es ≡ₚ Pool.transactions m
      /\ descending now es
      /\ stable now (Pool.transactions m) es)
  /\ length (Pool.get_transactions_for_mining now m limit) <= limit
  /\ (forall e1 e2,
        Pool.transactions m = [e1; e2] ->
        Pool.get_transactions_for_mining now m 1
        = [Pool.transaction
             (if ConsensusRules.Qltb (Pool.priority now e1) (Pool.priority now e2)
              then e2 else e1)])
  /\ (forall e1 e2,
        Pool.transactions m = [e1; e2] \/ Pool.transactions m = [e2; e1] ->
        (Pool.fee e1 == Float64.lit (1 # 1000))%Q ->
        (Pool.fee e2 == Float64.lit (1 # 100))%Q ->
        (Pool.timestamp e1 == Pool.timestamp e2)%Q ->
        (1 # 1000000000 <= now - Pool.timestamp e1)%Q ->
        Pool.get_transactions_for_mining now m 1 = [Pool.transaction e2])
  /\ (forall e1 e2,
        Pool.transactions m = [e1; e2] ->
        (Pool.fee e1 == Pool.fee e2)%Q -> (0 <= Pool.fee e1)%Q ->
        (Pool.timestamp e1 <= Pool.timestamp e2)%Q ->
        Pool.get_transactions_for_mining now m 1 = [Pool.transaction e1]).
Proof.
  intros _. unfold Pool.get_transactions_for_mining. split; [| split; [| split; [| split]]].
  - exists (Pool.sorted_desc (Pool.priority now) (Pool.transactions m)).
    split; [reflexivity |]. split; [apply sorted_desc_perm |].
    split; [apply sorted_desc_sorted |]. intros k. apply sorted_desc_stable.
  - rewrite length_map, length_take. lia.
  - intros e1 e2 ->. rewrite sorted_desc_pair.
    destruct (ConsensusRules.Qltb _ _); reflexivity.
  - intros e1 e2 Hm Hf1 Hf2 Ht Hage.
    assert (Pool.priority now e1 < Pool.priority now e2)%Q as Hlt.
    { unfold Pool.priority, Pool.calculate_priority, Float64.mul, Float64.sub.
      set (A1 := Float64.round64 (now - Pool.timestamp e1)).
      assert (Float64.round64 (now - Pool.timestamp e2) == A1)%Q as EA
        by (apply round64_comp; rewrite Ht; reflexivity).
      assert (Float64.pow2 (-30) <= A1)%Q as HA.
      { rewrite <- (round64_exact (Float64.pow2 (-30)) 1 (-30)); [| ring | lia | lia].
        apply round64_mono. eapply Qle_trans; [| exact Hage]. vm_compute. discriminate. }
      assert (4 * Float64.lit (1 # 1000) <= Float64.lit (1 # 100))%Q as H4
        by (vm_compute; discriminate).
      assert (0 < Float64.lit (1 # 1000))%Q as H0 by reflexivity.
      assert (Float64.pow2 (-7) <= Float64.lit (1 # 100))%Q as H7 by (vm_compute; discriminate).
      pose proof (pow2_pos (-30)) as Hp30.
      apply round64_lt_4.
      - rewrite Hf1. apply Qmult_lt_0_compat; [exact H0 | lra].
      - rewrite Hf1, Hf2, EA. nra.
      - rewrite Hf2, EA. apply Qle_trans with (Float64.pow2 (-7) * Float64.pow2 (-30))%Q.
        + rewrite <- pow2_add. apply pow2_le. lia.
        + pose proof (pow2_pos (-7)). nra. }
    destruct Hm as [-> | ->]; rewrite sorted_desc_pair.
    + apply Qltb_lt in Hlt. rewrite Hlt. reflexivity.
    + apply Qlt_le_weak, Qltb_ge in Hlt. rewrite Hlt. reflexivity.
  - intros e1 e2 -> Hf Hpos Ht. rewrite sorted_desc_pair.
    assert (Pool.priority now e2 <= Pool.priority now e1)%Q as Hle.
    { unfold Pool.priority, Pool.calculate_priority, Float64.mul, Float64.sub.
      assert (Float64.round64 (now - Pool.timestamp e2)
              <= Float64.round64 (now - Pool.timestamp e1))%Q as HA
        by (apply round64_mono; lra).
      apply round64_mono. rewrite <- Hf. nra. }
    apply Qltb_ge in Hle. rewrite Hle. reflexivity.
Qed.

Lemma mining_selection_witness :
  Pool.get_transactions_for_mining 1001 Sample2.fee_pool 1 = [Sample.payment 1]
  /\ Pool.get_transactions_for_mining 1001 Sample2.aged64_pool 1 = [Sample.payment 0]
  /\ stable 1000 (Pool.transactions Sample2.rounding_pool)
       (Pool.transactions Sample2.rounding_pool).
Proof.
  split; [| split].
  - destruct (mining_selection 1001 Sample2.fee_pool 1) as (_ & _ & _ & H & _).
    + apply priorities_finite_check. vm_compute. reflexivity.
    + apply (H (Sample.entry_of (Sample.payment 0) (Float64.lit (1 # 1000)) 1000)
               (Sample.entry_of (Sample.payment 1) (Float64.lit (1 # 100)) 1000)).
      * left. vm_compute. reflexivity.
      * vm_compute. reflexivity.
      * vm_compute. reflexivity.
      * vm_compute. reflexivity.
      * vm_compute. discriminate.
  - destruct (mining_selection 1001 Sample2.aged64_pool 1) as (_ & _ & _ & _ & H).
    + apply priorities_finite_check. vm_compute. reflexivity.
    + apply (H (Sample.entry_of (Sample.payment 0) (Float64.lit (1 # 1000)) 1000)
               (Sample.entry_of (Sample.payment 1) (Float64.lit (1 # 1000)) 1001)).
      * vm_compute. reflexivity.
      * vm_compute. reflexivity.
      * vm_compute. discriminate.
      * vm_compute. discriminate.
  - intros k. reflexivity.
Defined.

(* ===================================================================== *)
(** ** Merkle proofs: [get_proof] and [verify_proof] (C3) *)
(* ===================================================================== *)





(** Induction two elements at a time, as the loops over a level go. *)
Lemma list_pair_ind {A} (P : list A -> Prop) :
  P [] -> (forall a, P [a]) -> (forall a b l, P l -> P (a :: b :: l)) ->
  forall l, P l.
Proof.
  intros H0 H1 H2 l.
  enough (P l /\ forall a, P (a :: l)) as [H _] by exact H.
  induction l as [|b l [IH1 IH2]]; split; auto.
Qed.

Lemma length_pair_level (nodes : list Merkle.MerkleNode) :
  length (Merkle.pair_level nodes) = (length nodes + 1) / 2.
Proof.
  induction nodes as [| a | a b l IH] using list_pair_ind; [reflexivity .. |].
  cbn [Merkle.pair_level length]. rewrite IH.
  replace (S (S (length l)) + 1) with ((length l + 1) + 1 * 2) by lia.
  rewrite Nat.div_add by lia. lia.
Qed.

Lemma record_sibling_past (i index : nat) (l r : Merkle.MerkleNode)
    (proof : list Merkle.ProofElement) :
  index < i -> Merkle.record_sibling i l r index proof = (index, proof).
Proof.
  intros H. unfold Merkle.record_sibling.
  destruct (i =? index) eqn:E1; [apply Nat.eqb_eq in E1; lia |].
  destruct (i + 1 =? index) eqn:E2; [apply Nat.eqb_eq in E2; lia |]. reflexivity.
Qed.

(** Once the pair of [index] is behind, the pass only builds the level. *)
Lemma proof_level_past (nodes : list Merkle.MerkleNode) :
  forall i index proof, index < i ->
    Merkle.proof_level i nodes index proof = (Merkle.pair_level nodes, index, proof).
Proof.
  induction nodes as [| a | a b l IH] using list_pair_ind; intros i index proof Hlt;
    cbn [Merkle.proof_level Merkle.pair_level].
  - reflexivity.
  - rewrite record_sibling_past by exact Hlt. reflexivity.
  - rewrite record_sibling_past by exact Hlt. rewrite IH by lia. reflexivity.
Qed.

(** The pass over a level, started at the even position [2 * k]: the node
    at [index] gets one proof element, which leads from its hash to the
    hash of its parent, found at [index / 2] in the next level. *)
Lemma proof_level_hit (nodes : list Merkle.MerkleNode) :
  forall k index proof n,
    2 * k <= index -> nodes !! (index - 2 * k) = Some n ->
    exists e n',
      Merkle.proof_level (2 * k) nodes index proof
      = (Merkle.pair_level nodes, index / 2, (proof ++ [e])%list)
      /\ Merkle.pair_level nodes !! (index / 2 - k) = Some n'
      /\ Merkle.hash n' = Merkle.fold_step (Merkle.hash n) e.
Proof.
  induction nodes as [| a | a b l IH] using list_pair_ind; intros k index proof n Hle Hn.
  - discriminate.
  - destruct (index - 2 * k) as [|d] eqn:Ed; [| discriminate].
    injection Hn as ->. assert (index = 2 * k) as -> by lia.
    cbn [Merkle.proof_level Merkle.pair_level]. unfold Merkle.record_sibling.
    rewrite Nat.eqb_refl. cbn [orb].
    replace (2 * k / 2) with k by (symmetry; rewrite Nat.mul_comm; apply Nat.div_mul; lia).
    eexists _, _. split; [reflexivity |]. rewrite Nat.sub_diag. split; reflexivity.
  - cbn [Merkle.proof_level Merkle.pair_level]. unfold Merkle.record_sibling.
    assert (2 * k / 2 = k) as Hk by (rewrite Nat.mul_comm; apply Nat.div_mul; lia).
    destruct (2 * k =? index) eqn:E1.
    + apply Nat.eqb_eq in E1. subst index. cbn [orb]. rewrite Hk.
      rewrite Nat.sub_diag in Hn. injection Hn as ->.
      rewrite proof_level_past by lia.
      eexists _, _. split; [reflexivity |]. rewrite Nat.sub_diag. split; reflexivity.
    + apply Nat.eqb_neq in E1. destruct (2 * k + 1 =? index) eqn:E2.
      * apply Nat.eqb_eq in E2. subst index. cbn [orb]. rewrite Hk.
        replace (2 * k + 1 - 2 * k) with 1 in Hn by lia. injection Hn as ->.
        rewrite proof_level_past by lia.
        assert ((2 * k + 1) / 2 = k) as ->.
        { replace (2 * k + 1) with (1 + k * 2) by lia.
          rewrite Nat.div_add by lia. reflexivity. }
        eexists _, _. split; [reflexivity |]. rewrite Nat.sub_diag. split; reflexivity.
      * apply Nat.eqb_neq in E2. cbn [orb].
        replace (2 * k + 2) with (2 * S k) by lia.
        destruct (IH (S k) index proof n) as (e & n' & Hp & Hl & Hh); [lia | |].
        { replace (index - 2 * k) with (S (S (index - 2 * S k))) in Hn by lia.
          exact Hn. }
        rewrite Hp. exists e, n'. split; [reflexivity |]. split; [| exact Hh].
        assert (S k <= index / 2) by (apply Nat.div_le_lower_bound; lia).
        replace (index / 2 - k) with (S (index / 2 - S k)) by lia. exact Hl.
Qed.

Lemma proof_level_top (nodes : list Merkle.MerkleNode) (index : nat)
    (proof : list Merkle.ProofElement) (n : Merkle.MerkleNode) :
  nodes !! index = Some n ->
  exists e n',
    Merkle.proof_level 0 nodes index proof
    = (Merkle.pair_level nodes, index / 2, (proof ++ [e])%list)
    /\ Merkle.pair_level nodes !! (index / 2) = Some n'
    /\ Merkle.hash n' = Merkle.fold_step (Merkle.hash n) e.
Proof.
  intros Hn.
  destruct (proof_level_hit nodes 0 index proof n) as (e & n' & H1 & H2 & H3).
  - lia.
  - rewrite Nat.sub_0_r. exact Hn.
  - exists e, n'. rewrite Nat.sub_0_r in H2. auto.
Qed.

(** The two [while] loops run in step: with enough fuel the tree loop ends
    on a single root, and the proof loop has appended a path whose fold
    leads from the hash of the node at [index] to the hash of that root. *)
Lemma loops_agree (fuel : nat) :
  forall nodes index proof n,
    length nodes <= fuel -> nodes !! index = Some n ->
    exists r suffix,
      Merkle.build_loop fuel nodes = [r]
      /\ Merkle.proof_loop fuel nodes index proof = (proof ++ suffix)%list
      /\ fold_left Merkle.fold_step suffix (Merkle.hash n) = Merkle.hash r.
Proof.
  induction fuel as [|fuel IH]; intros nodes index proof n Hlen Hn.
  - apply lookup_lt_Some in Hn. lia.
  - cbn [Merkle.build_loop Merkle.proof_loop].
    destruct (1 <? length nodes) eqn:E.
    + apply Nat.ltb_lt in E.
      destruct (proof_level_top nodes index proof n Hn) as (e & n' & Hp & Hl & Hh).
      rewrite Hp.
      destruct (IH (Merkle.pair_level nodes) (index / 2) (proof ++ [e])%list n')
        as (r & suffix & Hb & Hq & Hf); [| exact Hl |].
      { rewrite length_pair_level.
        apply Nat.lt_succ_r, Nat.Div0.div_lt_upper_bound; lia. }
      exists r, (e :: suffix). split; [exact Hb |]. split.
      * rewrite Hq, <- app_assoc. reflexivity.
      * cbn [fold_left]. rewrite <- Hh. exact Hf.
    + apply Nat.ltb_ge in E. pose proof (lookup_lt_Some _ _ _ Hn) as Hlt.
      destruct nodes as [|a [|b l]]; cbn [length] in *; try lia.
      destruct index; [| cbn in Hlt; lia]. injection Hn as ->.
      exists n, []. rewrite app_nil_r. auto.
Qed.

(** The tree loop is given enough fuel: it always ends on at most one node. *)
Lemma build_loop_length (nodes : list Merkle.MerkleNode) :
  length (Merkle.build_loop (length nodes) nodes) <= 1.
Proof.
  destruct nodes as [|n nodes]; [cbn; lia |].
  destruct (loops_agree (length (n :: nodes)) (n :: nodes) 0 [] n)
    as (r & _ & -> & _); [lia | reflexivity | cbn; lia].
Qed.

Lemma index_found (tx : string) (txs : list string) :
  tx ∈ txs -> exists i, Py.index tx txs = Some i /\ txs !! i = Some tx.
Proof.
  induction txs as [|y txs IH]; intros Hin; [inversion Hin |].
  cbn [Py.index]. destruct (String.eqb y tx) eqn:E.
  - apply String.eqb_eq in E. subst. exists 0. split; reflexivity.
  - apply String.eqb_neq in E. apply elem_of_cons in Hin as [-> | Hin]; [congruence |].
    destruct (IH Hin) as (i & -> & Hl). exists (S i). split; [reflexivity | exact Hl].
Qed.








(* ===================================================================== *)
(** * Further properties of the code *)
(* ===================================================================== *)

(** ** Digests, signatures and addresses (crypto.py, wallet.py) *)

Lemma string_length_append (s1 s2 : string) :
  String.length (s1 ++ s2) = String.length s1 + String.length s2.
Proof. induction s1 as [|c s1 IH]; simpl; [reflexivity | rewrite IH; reflexivity]. Qed.

Lemma round_length (st : list N) (kw : N * N) :
  length st = 8 -> length (Crypto.round st kw) = 8.
Proof.
  intros H. do 9 (destruct st as [|? st]; try discriminate). reflexivity.
Qed.

Lemma rounds_length (kws : list (N * N)) :
  forall st, length st = 8 -> length (fold_left Crypto.round kws st) = 8.
Proof.
  induction kws as [|kw kws IH]; intros st H; cbn [fold_left]; [exact H |].
  apply IH, round_length, H.
Qed.

Lemma compress_length (h block : list N) :
  length h = 8 -> length (Crypto.compress h block) = 8.
Proof.
  intros H. unfold Crypto.compress.
  rewrite length_map, length_combine, rounds_length by exact H. rewrite H. reflexivity.
Qed.

Lemma digest_words_length (msg : list N) : length (Crypto.digest_words msg) = 8.
Proof.
  unfold Crypto.digest_words.
  generalize (Crypto.chunks (S (length (Crypto.be_words (Crypto.pad msg))))
                (Crypto.be_words (Crypto.pad msg))).
  intros cs. assert (length Crypto.H256 = 8) as H by reflexivity.
  revert H. generalize Crypto.H256.
  induction cs as [|c cs IH]; intros h H; cbn [fold_left]; [exact H |].
  apply IH, compress_length, H.
Qed.

Lemma hex_words_length (ws : list N) :
  String.length (String.concat "" (map Crypto.hex_word ws)) = 8 * length ws.
Proof.
  induction ws as [|w ws IH]; [reflexivity |].
  destruct ws as [|w' ws]; [reflexivity |].
  change (String.concat "" (map Crypto.hex_word (w :: w' :: ws)))
    with (Crypto.hex_word w ++ "" ++ String.concat "" (map Crypto.hex_word (w' :: ws))).
  rewrite !string_length_append, IH. cbn [length]. 
  change (String.length (Crypto.hex_word w)) with 8. change (String.length "") with 0. lia.
Qed.

(** A digest always has 64 characters. *)
Lemma sha256_length (data : string) : String.length (sha256 data) = 64.
Proof. unfold sha256. rewrite hex_words_length, digest_words_length. reflexivity. Qed.

Lemma substring_prefix_length (n : nat) (s : string) :
  String.length (String.substring 0 n s) = Nat.min n (String.length s).
Proof.
  revert s. induction n as [|n IH]; intros [|c s]; simpl; try reflexivity.
  rewrite IH. reflexivity.
Qed.

(** X1. A signature made by [sign_data] passes [verify_signature] under
    every public key and for every message: the check looks at the length
    of the signature only. *)
Theorem signature_accepted_under_any_key (private_key data public_key data' : string) :
  Keys.verify_signature public_key data' (Keys.sign_data private_key data) = true.
Proof.
  unfold Keys.verify_signature, Keys.sign_data. rewrite sha256_length. reflexivity.
Qed.

(** X2. The two addresses of a wallet are the prefixes ["t"] and ["z"] put
    before the same 38 characters, and the public key has 40 characters. *)
Theorem wallet_addresses_share_suffix (key : string) :
  exists h,
    String.length h = 38
    /\ Wallet.transparent_address (Wallet.create key) = "t" ++ h
    /\ Wallet.shielded_address (Wallet.create key) = "z" ++ h
    /\ String.length (Wallet.public_key (Wallet.create key)) = 40
    /\ Wallet.private_key (Wallet.create key) = key.
Proof.
  exists (Py.slice_to (sha256 (Py.slice_to (sha256 key) 40)) 38).
  unfold Wallet.create, Keys.generate_keypair, Keys.generate_address, Py.slice_to.
  cbn [Wallet.transparent_address Wallet.shielded_address Wallet.public_key
       Wallet.private_key Z.leb Z.compare].
  change (Z.to_nat 38) with 38. change (Z.to_nat 40) with 40.
  rewrite !substring_prefix_length, !sha256_length. repeat split; reflexivity.
Qed.

(** ** Building transactions (transaction.py, privacy.py) *)

Lemma verify_shielded_fresh (p : Privacy.PrivacyLayer) (tx : ShieldedTransaction.t) :
  ShieldedTransaction.nullifier tx ∉ Privacy.nullifier_set p ->
  ShieldedTransaction.verify_proof tx = true ->
  Privacy.verify_shielded_transaction p tx
  = (true,
     {| Privacy.nullifier_set := {[ShieldedTransaction.nullifier tx]} ∪ Privacy.nullifier_set p;
        Privacy.commitment_set :=
          {[ShieldedTransaction.commitment tx]} ∪ Privacy.commitment_set p |}).
Proof.
  intros Hout Hv. unfold Privacy.verify_shielded_transaction.
  destruct (decide _); [contradiction |]. rewrite Hv. reflexivity.
Qed.

(** X3. A shielded transaction built by [ShieldedTransaction.create] has a
    well-formed proof, so the privacy ledger admits it exactly when its
    nullifier has not been used; submitted a second time it is refused. *)
Theorem created_shielded_admitted_once (p : Privacy.PrivacyLayer)
    (blinding_factor key recipient : string) (amount timestamp : Q) :
  let tx := Build.create blinding_factor key recipient amount timestamp in
  ShieldedTransaction.verify_proof tx = true
  /\ (Privacy.verify_shielded_transaction p tx).1
     = negb (bool_decide (ShieldedTransaction.nullifier tx ∈ Privacy.nullifier_set p))
  /\ (Privacy.verify_shielded_transaction (Privacy.verify_shielded_transaction p tx).2 tx).1
     = false.
Proof.
  intros tx.
  assert (ShieldedTransaction.verify_proof tx = true) as Hv.
  { unfold ShieldedTransaction.verify_proof, tx, Build.create, Keys.create_commitment.
    cbn [ShieldedTransaction.proof ShieldedTransaction.commitment].
    rewrite !sha256_length. reflexivity. }
  split; [exact Hv |].
  destruct (decide (ShieldedTransaction.nullifier tx ∈ Privacy.nullifier_set p)) as [Hin | Hout].
  - rewrite bool_decide_eq_true_2 by exact Hin.
    rewrite (verify_shielded_reused p tx Hin). cbn [fst snd negb].
    rewrite (verify_shielded_reused p tx Hin). split; reflexivity.
  - rewrite bool_decide_eq_false_2 by exact Hout.
    rewrite (verify_shielded_fresh p tx Hout Hv). cbn [fst snd negb].
    split; [reflexivity |].
    rewrite verify_shielded_reused; [reflexivity |].
    cbn [Privacy.nullifier_set]. set_solver.
Qed.

(** ** Merkle trees: roots and proofs (merkle.py) *)

Lemma index_absent (tx : string) (txs : list string) :
  tx ∉ txs -> Py.index tx txs = None.
Proof.
  induction txs as [|y txs IH]; intros Hout; [reflexivity |].
  cbn [Py.index]. destruct (String.eqb y tx) eqn:E.
  - apply String.eqb_eq in E. subst. exfalso. apply Hout. left.
  - rewrite IH; [reflexivity |]. intros H. apply Hout. right. exact H.
Qed.

Lemma leaves_hash_length (txs : list string) :
  Forall (fun n => String.length (Merkle.hash n) = 64) (map Merkle.leaf txs).
Proof. induction txs; constructor; [apply sha256_length | assumption]. Qed.

Lemma pair_level_hash_length (nodes : list Merkle.MerkleNode) :
  Forall (fun n => String.length (Merkle.hash n) = 64) (Merkle.pair_level nodes).
Proof.
  induction nodes as [| a | a b l IH] using list_pair_ind; cbn [Merkle.pair_level];
    repeat constructor; try apply sha256_length. exact IH.
Qed.

Lemma build_loop_hash_length (fuel : nat) :
  forall nodes,
    Forall (fun n => String.length (Merkle.hash n) = 64) nodes ->
    Forall (fun n => String.length (Merkle.hash n) = 64) (Merkle.build_loop fuel nodes).
Proof.
  induction fuel as [|fuel IH]; intros nodes H; cbn [Merkle.build_loop]; [exact H |].
  destruct (1 <? length nodes); [| exact H]. apply IH, pair_level_hash_length.
Qed.

(** X4. Over a non-empty list the tree loop always ends on exactly one
    node: there is a root, and its hash has 64 characters; over a single
    leaf the root hash is the digest of that leaf. *)
Theorem merkle_root_exists (txs : list string) :
  txs <> [] ->
  (exists r, Merkle.build_tree txs = Some r
             /\ Merkle.get_root_hash (Merkle.new_tree txs) = Merkle.hash r
             /\ Merkle.build_loop (length txs) (map Merkle.leaf txs) = [r])
  /\ String.length (Merkle.get_root_hash (Merkle.new_tree txs)) = 64
  /\ (forall tx, txs = [tx] -> Merkle.get_root_hash (Merkle.new_tree txs) = sha256 tx).
Proof.
  intros Hne. destruct txs as [|tx txs]; [congruence |].
  destruct (loops_agree (length (tx :: txs)) (map Merkle.leaf (tx :: txs)) 0 []
              (Merkle.leaf tx)) as (r & _ & Hb & _).
  { rewrite length_map. lia. }
  { reflexivity. }
  assert (Merkle.get_root_hash (Merkle.new_tree (tx :: txs)) = Merkle.hash r) as Hr.
  { unfold Merkle.get_root_hash, Merkle.new_tree, Merkle.build_tree.
    cbn [Merkle.root]. rewrite Hb. reflexivity. }
  split; [| split].
  - exists r. split; [| split; [exact Hr | exact Hb]].
    unfold Merkle.build_tree. rewrite Hb. reflexivity.
  - rewrite Hr.
    pose proof (build_loop_hash_length (length (tx :: txs)) _
                  (leaves_hash_length (tx :: txs))) as HF.
    rewrite Hb in HF. inversion HF as [|? ? Hh _]. exact Hh.
  - intros tx' E. injection E as E1 E2. subst. reflexivity.
Qed.

Lemma merkle_root_exists_witness :
  ["a"; "b"; "c"] <> []
  /\ String.length (Merkle.get_root_hash (Merkle.new_tree ["a"; "b"; "c"])) = 64.
Proof.
  split; [discriminate |].
  apply (merkle_root_exists ["a"; "b"; "c"]). discriminate.
Defined.

(** X5. [get_proof] of a string the tree was not built from is the empty
    proof (no error), whatever the tree; and the empty proof verifies a
    hash against a root exactly when the hash is the root. *)
Theorem proof_of_absent_leaf (txs : list string) (tx : string) :
  tx ∉ txs ->
  Merkle.get_proof (Merkle.new_tree txs) tx = []
  /\ forall h root, Merkle.verify_proof h (Merkle.get_proof (Merkle.new_tree txs) tx) root
                    = String.eqb h root.
Proof.
  intros Hout.
  assert (Merkle.get_proof (Merkle.new_tree txs) tx = []) as ->.
  { unfold Merkle.get_proof. cbn [Merkle.transactions Merkle.new_tree].
    rewrite index_absent by exact Hout. reflexivity. }
  split; reflexivity.
Qed.

Lemma proof_of_absent_leaf_witness :
  ("d" ∉ ["a"; "b"; "c"]) /\ Merkle.get_proof (Merkle.new_tree ["a"; "b"; "c"]) "d" = [].
Proof.
  assert ("d" ∉ ["a"; "b"; "c"]) as H.
  { intros H. repeat (apply elem_of_cons in H as [H | H]; [discriminate |]). inversion H. }
  split; [exact H |]. apply (proof_of_absent_leaf ["a"; "b"; "c"] "d" H).
Defined.

(** More fuel than the length of the level changes nothing. *)
Lemma build_loop_more (fuel : nat) :
  forall nodes, length nodes <= fuel ->
    Merkle.build_loop (S fuel) nodes = Merkle.build_loop fuel nodes.
Proof.
  induction fuel as [|fuel IH]; intros nodes Hlen.
  - destruct nodes; [reflexivity | cbn in Hlen; lia].
  - cbn [Merkle.build_loop] in *. destruct (1 <? length nodes) eqn:E; [| reflexivity].
    apply Nat.ltb_lt in E. apply (IH (Merkle.pair_level nodes)).
    rewrite length_pair_level. apply Nat.lt_succ_r, Nat.Div0.div_lt_upper_bound. lia.
Qed.

Lemma build_loop_enough (fuel : nat) (nodes : list Merkle.MerkleNode) :
  length nodes <= fuel ->
  Merkle.build_loop fuel nodes = Merkle.build_loop (length nodes) nodes.
Proof.
  intros H. induction H as [|fuel H IH]; [reflexivity |].
  rewrite build_loop_more by exact H. exact IH.
Qed.

(** A level of odd length pairs its last node with itself, as the level
    with that node repeated does. *)
Lemma pair_level_duplicate (nodes : list Merkle.MerkleNode) (x : Merkle.MerkleNode) :
  Nat.Even (length nodes) ->
  Merkle.pair_level (nodes ++ [x; x]) = Merkle.pair_level (nodes ++ [x]).
Proof.
  induction nodes as [| a | a b l IH] using list_pair_ind; intros Hev.
  - reflexivity.
  - destruct Hev as [k Hk]. cbn in Hk. lia.
  - cbn [app Merkle.pair_level]. rewrite IH; [reflexivity |].
    destruct Hev as [k Hk]. cbn [length] in Hk. exists (k - 1). lia.
Qed.

(** X6. A list with an odd number (at least 3) of transactions and the
    list with its last transaction repeated have the same Merkle root. *)
Theorem duplicated_last_leaf_same_root (txs : list string) (x : string) :
  Nat.Even (length txs) -> txs <> [] ->
  Merkle.get_root_hash (Merkle.new_tree (txs ++ [x; x]))
  = Merkle.get_root_hash (Merkle.new_tree (txs ++ [x])).
Proof.
  intros Hev Hne.
  assert (2 <= length txs) as Hlen.
  { destruct txs as [|a [|b l]]; [congruence | | cbn; lia].
    destruct Hev as [k Hk]. cbn in Hk. lia. }
  assert (Merkle.build_tree (txs ++ [x; x]) = Merkle.build_tree (txs ++ [x])) as Hb.
  { destruct txs as [|a txs']; [congruence |].
    unfold Merkle.build_tree. cbn [app].
    change (a :: (txs' ++ [x; x])%list) with ((a :: txs') ++ [x; x])%list.
    change (a :: (txs' ++ [x])%list) with ((a :: txs') ++ [x])%list.
    generalize dependent (a :: txs'). clear a txs'. intros txs Hev _ Hlen. f_equal.
    rewrite !length_app. cbn [length].
    replace (length txs + 2) with (S (length txs + 1)) by lia.
    replace (length txs + 1) with (S (length txs)) by lia.
    cbn [Merkle.build_loop]. rewrite !length_map, !length_app. cbn [length].
    replace (1 <? length txs + 2) with true by (symmetry; apply Nat.ltb_lt; lia).
    replace (1 <? length txs + 1) with true by (symmetry; apply Nat.ltb_lt; lia).
    rewrite !map_app. cbn [map].
    rewrite pair_level_duplicate by (rewrite length_map; exact Hev).
    apply build_loop_more.
    rewrite length_pair_level, length_app, length_map. cbn [length].
    apply Nat.lt_succ_r, Nat.Div0.div_lt_upper_bound. lia. }
  unfold Merkle.get_root_hash, Merkle.new_tree. cbn [Merkle.root]. rewrite Hb. reflexivity.
Qed.

Lemma duplicated_last_leaf_same_root_witness :
  ["a"; "b"; "c"; "c"] <> ["a"; "b"; "c"]
  /\ Merkle.get_root_hash (Merkle.new_tree ["a"; "b"; "c"; "c"])
     = Merkle.get_root_hash (Merkle.new_tree ["a"; "b"; "c"]).
Proof.
  split; [discriminate |].
  apply (duplicated_last_leaf_same_root ["a"; "b"] "c"); [exists 1; reflexivity | discriminate].
Defined.

(** The proof loop appends one element per level, and the levels halve. *)
Lemma proof_loop_length (fuel : nat) :
  forall nodes index proof n,
    length nodes <= fuel -> nodes !! index = Some n ->
    exists suffix,
      Merkle.proof_loop fuel nodes index proof = (proof ++ suffix)%list
      /\ length nodes <= 2 ^ length suffix
      /\ 2 ^ length suffix < 2 * length nodes.
Proof.
  induction fuel as [|fuel IH]; intros nodes index proof n Hlen Hn.
  - apply lookup_lt_Some in Hn. lia.
  - cbn [Merkle.proof_loop]. pose proof (lookup_lt_Some _ _ _ Hn) as Hlt.
    destruct (1 <? length nodes) eqn:E.
    + apply Nat.ltb_lt in E.
      destruct (proof_level_top nodes index proof n Hn) as (e & n' & Hp & Hl & _).
      rewrite Hp.
      assert (length (Merkle.pair_level nodes) <= fuel) as Hfuel.
      { rewrite length_pair_level.
        apply Nat.lt_succ_r, Nat.Div0.div_lt_upper_bound; lia. }
      destruct (IH (Merkle.pair_level nodes) (index / 2) (proof ++ [e])%list n' Hfuel Hl)
        as (suffix & Hq & Hlo & Hhi).
      exists (e :: suffix). split; [rewrite Hq, <- app_assoc; reflexivity |].
      rewrite length_pair_level in Hlo, Hhi. cbn [length].
      pose proof (Nat.div_mod_eq (length nodes + 1) 2) as Hdm.
      pose proof (Nat.mod_upper_bound (length nodes + 1) 2) as Hmb.
      rewrite Nat.pow_succ_r'. split; [lia |].
      destruct (length suffix) as [|k]; [cbn in *; lia |].
      rewrite Nat.pow_succ_r' in *. lia.
    + apply Nat.ltb_ge in E. exists []. rewrite app_nil_r. cbn. split; [reflexivity | lia].
Qed.

(** X7. The proof of a transaction present in a tree of [n] transactions
    has [ceil(log2 n)] elements: [n <= 2 ^ length < 2 * n]. *)
Theorem merkle_proof_length (txs : list string) (tx : string) :
  tx ∈ txs ->
  length txs <= 2 ^ length (Merkle.get_proof (Merkle.new_tree txs) tx)
  /\ 2 ^ length (Merkle.get_proof (Merkle.new_tree txs) tx) < 2 * length txs.
Proof.
  intros Hin. destruct (index_found tx txs Hin) as (i & Hi & Hl).
  unfold Merkle.get_proof. cbn [Merkle.transactions Merkle.new_tree]. rewrite Hi.
  destruct (proof_loop_length (length txs) (map Merkle.leaf txs) i [] (Merkle.leaf tx))
    as (suffix & -> & Hlo & Hhi).
  - rewrite length_map. lia.
  - rewrite list_lookup_fmap, Hl. reflexivity.
  - rewrite length_map in Hlo, Hhi. cbn [app]. split; assumption.
Qed.

Lemma merkle_proof_length_witness :
  ("e" ∈ ["a"; "b"; "c"; "d"; "e"])
  /\ 5 <= 2 ^ length (Merkle.get_proof (Merkle.new_tree ["a"; "b"; "c"; "d"; "e"]) "e")
  /\ 2 ^ length (Merkle.get_proof (Merkle.new_tree ["a"; "b"; "c"; "d"; "e"]) "e") < 10.
Proof.
  assert ("e" ∈ ["a"; "b"; "c"; "d"; "e"]) as H by (do 4 right; left).
  split; [exact H |].
  exact (merkle_proof_length ["a"; "b"; "c"; "d"; "e"] "e" H).
Defined.

(** ** Proof of work (block.py) *)

Lemma substring_is_prefix (n : nat) (s : string) :
  String.prefix (String.substring 0 n s) s = true.
Proof.
  revert s. induction n as [|n IH]; intros [|c s]; simpl; try reflexivity.
  destruct (ascii_dec c c) as [_ | Hne]; [apply IH | congruence].
Qed.

Lemma slice_to_startswith (s : string) (d : Z) (p : string) :
  Py.slice_to s d = p -> Py.startswith s p = true.
Proof.
  unfold Py.slice_to, Py.startswith. intros <-.
  destruct (0 <=? d)%Z; apply substring_is_prefix.
Qed.

(** What the nonce search keeps and what it establishes: every field but
    [nonce] and [hash] is kept; the hash found has the target prefix, and,
    once a nonce has been tried, it is the hash of the block. *)
Lemma mine_loop_spec (fuel : nat) (d : Z) :
  forall b b', Blk.mine_loop fuel b d = Some b' ->
    Py.slice_to (Blk.hash b') d = Py.zeros d
    /\ (b' = b \/ (Blk.hash b' = Blk.calculate_hash b' /\ (Blk.nonce b < Blk.nonce b')%Z))
    /\ Blk.index b' = Blk.index b /\ Blk.timestamp b' = Blk.timestamp b
    /\ Blk.transactions b' = Blk.transactions b
    /\ Blk.previous_hash b' = Blk.previous_hash b
    /\ Blk.difficulty b' = Blk.difficulty b /\ Blk.merkle_root b' = Blk.merkle_root b
    /\ Blk.version b' = Blk.version b.
Proof.
  induction fuel as [|fuel IH]; intros b b'; cbn [Blk.mine_loop];
    destruct (String.eqb (Py.slice_to (Blk.hash b) d) (Py.zeros d)) eqn:E.
  - intros H. injection H as <-. apply String.eqb_eq in E. repeat split; auto.
  - discriminate.
  - intros H. injection H as <-. apply String.eqb_eq in E. repeat split; auto.
  - intros H. apply IH in H as (H1 & H2 & H3). split; [exact H1 |]. split; [right | exact H3].
    destruct H2 as [-> | [H2 H4]].
    + split; [reflexivity |]. cbn [Blk.nonce Blk.set_hash Blk.set_nonce]. lia.
    + split; [exact H2 |]. cbn [Blk.nonce Blk.set_hash Blk.set_nonce] in H4. lia.
Qed.

(** X8. When [mine_block] returns on a block whose hash is still empty, with
    a positive difficulty, the block it returns satisfies the proof of
    work: its hash is the hash of its fields and starts with [difficulty]
    zeros, its Merkle root verifies, and only [nonce], [hash],
    [difficulty] and [merkle_root] have been written. *)
Theorem mined_block_is_sound (fuel : nat) (b b' : Blk.Block) (d : Z) :
  Blk.hash b = "" -> (0 < d)%Z ->
  Blk.mine_block fuel b d = Some b' ->
  Blk.hash b' = Blk.calculate_hash b'
  /\ Py.startswith (Blk.hash b') (Py.zeros (Blk.difficulty b')) = true
  /\ Blk.verify_merkle_root b' = true
  /\ Blk.difficulty b' = d
  /\ (Blk.nonce b < Blk.nonce b')%Z
  /\ Blk.index b' = Blk.index b /\ Blk.timestamp b' = Blk.timestamp b
  /\ Blk.transactions b' = Blk.transactions b
  /\ Blk.previous_hash b' = Blk.previous_hash b /\ Blk.version b' = Blk.version b.
Proof.
  intros Hh Hd Hm. unfold Blk.mine_block in Hm.
  apply mine_loop_spec in Hm as (H1 & H2 & H3 & H4 & H5 & H6 & H7 & H8 & H9).
  cbn [Blk.index Blk.timestamp Blk.transactions Blk.previous_hash Blk.difficulty
       Blk.merkle_root Blk.version Blk.nonce Blk.hash Blk.set_merkle_root
       Blk.set_difficulty] in *.
  destruct H2 as [-> | [H2 Hn]].
  - exfalso. cbn [Blk.hash Blk.set_merkle_root Blk.set_difficulty] in H1.
    rewrite Hh in H1. unfold Py.slice_to, Py.zeros in H1.
    destruct (0 <=? d)%Z; destruct (Z.to_nat d) eqn:E; try lia;
      destruct (Z.to_nat (- d)); discriminate.
  - repeat split; try assumption.
    + rewrite H7. apply (slice_to_startswith _ _ _ H1).
    + unfold Blk.verify_merkle_root. rewrite H8. unfold Blk.calculate_merkle_root.
      rewrite H5. apply String.eqb_refl.
Qed.

Lemma mined_block_is_sound_witness :
  exists b', Blk.mine_block 64 (Blk.set_hash Sample.g0 "") 1 = Some b'
             /\ Blk.hash b' = Blk.calculate_hash b'
             /\ Py.startswith (Blk.hash b') (Py.zeros (Blk.difficulty b')) = true.
Proof.
  destruct (Blk.mine_block 64 (Blk.set_hash Sample.g0 "") 1) as [b'|] eqn:E;
    [| vm_compute in E; discriminate].
  exists b'. split; [reflexivity |].
  pose proof (mined_block_is_sound 64 (Blk.set_hash Sample.g0 "") b' 1 eq_refl
                ltac:(reflexivity) E) as (H1 & H2 & _).
  split; assumption.
Defined.

(** ** Block production (blockchain.py) *)

Lemma sha256_not_empty (data : string) : String.eqb "" (sha256 data) = false.
Proof.
  apply String.eqb_neq. intros H. pose proof (sha256_length data) as Hl.
  rewrite <- H in Hl. discriminate.
Qed.

(** X9. With a difficulty of 0 or less, the nonce search stops before its
    first try and leaves the hash of the block empty; the block is then
    refused, so [mine_pending_transactions] returns with the node
    unchanged (away from a difficulty adjustment). *)
Theorem nothing_mined_without_difficulty (fuel : nat) (clk : Chain.MineClock)
    (st : Chain.VeilChain) (addr : string) :
  (Chain.difficulty st <= 0)%Z ->
  Chain.chain st <> [] ->
  (Z.of_nat (length (Chain.chain st)) mod 20 <> 0)%Z ->
  Chain.mine_pending_transactions fuel clk st addr = Some st.
Proof.
  intros Hd Hne Hmod. unfold Chain.mine_pending_transactions.
  replace (Z.of_nat (length (Chain.chain st))
             mod Z.of_nat ConsensusRules.DIFFICULTY_ADJUSTMENT_INTERVAL =? 0)%Z
    with false by (symmetry; apply Z.eqb_neq; exact Hmod).
  rewrite andb_false_r. unfold Chain.get_latest_block.
  destruct (last (Chain.chain st)) as [latest|] eqn:El;
    [| apply last_None in El; congruence].
  unfold Blk.mine_block.
  set (b2 := Blk.set_merkle_root _ _).
  assert (Blk.mine_loop fuel b2 (Chain.difficulty st) = Some b2) as ->.
  { assert (String.eqb (Py.slice_to (Blk.hash b2) (Chain.difficulty st))
                       (Py.zeros (Chain.difficulty st)) = true) as E.
    { subst b2. cbn [Blk.hash Blk.set_merkle_root Blk.set_difficulty].
      unfold Py.slice_to, Py.zeros.
      replace (Z.to_nat (Chain.difficulty st)) with 0 by lia.
      destruct (0 <=? Chain.difficulty st)%Z; reflexivity. }
    destruct fuel; cbn [Blk.mine_loop]; rewrite E; reflexivity. }
  unfold Chain.validate_new_block.
  assert (Blk.hash b2 = "") as -> by reflexivity.
  unfold Blk.calculate_hash. rewrite sha256_not_empty. reflexivity.
Qed.

Lemma nothing_mined_without_difficulty_witness :
  Chain.mine_pending_transactions 1000 Sample.clock (Chain.new_chain 0 "node_0" 1000)
    Sample.miner
  = Some (Chain.new_chain 0 "node_0" 1000).
Proof.
  apply (nothing_mined_without_difficulty 1000 Sample.clock
           (Chain.new_chain 0 "node_0" 1000) Sample.miner).
  - cbn. lia.
  - discriminate.
  - vm_compute. discriminate.
Defined.

(** What [validate_new_block] has checked when it answers [True]. *)
Lemma validate_new_block_true (now : Q) (st : Chain.VeilChain) (b : Blk.Block) :
  Chain.validate_new_block now st b = Some true ->
  exists latest,
    last (Chain.chain st) = Some latest
    /\ passes_checks latest b
    /\ length (Blk.transactions b) <= 1000
    /\ (Blk.timestamp latest < Blk.timestamp b)%Q
    /\ (Blk.timestamp b <= now + 7200)%Q.
Proof.
  unfold Chain.validate_new_block, Chain.get_latest_block.
  destruct (String.eqb (Blk.hash b) (Blk.calculate_hash b)) eqn:E1;
    cbn [negb]; [| discriminate].
  destruct (last (Chain.chain st)) as [latest|] eqn:El; [| discriminate].
  destruct (String.eqb (Blk.previous_hash b) (Blk.hash latest)) eqn:E2;
    cbn [negb]; [| discriminate].
  destruct (Py.startswith _ _) eqn:E3; cbn [negb]; [| discriminate].
  destruct (Blk.verify_merkle_root b) eqn:E4; cbn [negb]; [| discriminate].
  destruct (ConsensusRules.validate_block_size b); cbn [negb]; [| discriminate].
  destruct (ConsensusRules.validate_transaction_count b) eqn:E5; cbn [negb]; [| discriminate].
  assert ((0 <? length (Chain.chain st)) = true) as ->.
  { apply Nat.ltb_lt. destruct (Chain.chain st); [discriminate | cbn; lia]. }
  cbn [andb]. destruct (ConsensusRules.validate_block_time now b latest) eqn:E6;
    cbn [negb]; [| discriminate].
  intros _. exists latest. split; [reflexivity |].
  apply String.eqb_eq in E1, E2. split; [repeat split; assumption |].
  split; [apply Nat.leb_le in E5; exact E5 |].
  unfold ConsensusRules.validate_block_time in E6.
  destruct (Qle_bool (Blk.timestamp b) (Blk.timestamp latest)) eqn:E7; [discriminate |].
  destruct (ConsensusRules.Qltb (now + 7200) (Blk.timestamp b)) eqn:E8; [discriminate |].
  split; [| apply Qltb_ge; exact E8].
  apply Qnot_le_lt. intros H. apply Qle_bool_iff in H. congruence.
Qed.

Lemma valid_from_snoc (rest : list Blk.Block) :
  forall g p b,
    last (g :: rest) = Some p -> Chain.valid_from g rest = true ->
    Chain.check_block p b = true ->
    Chain.valid_from g (rest ++ [b]) = true.
Proof.
  induction rest as [|c rest IH]; intros g p b Hl Hv Hc.
  - injection Hl as ->. cbn. rewrite Hc. reflexivity.
  - cbn [app Chain.valid_from] in *. destruct (Chain.check_block g c); [| discriminate].
    apply (IH c p b); assumption.
Qed.

(** The cases of a call of [mine_pending_transactions] that returns: the
    block was refused and at most the difficulty has changed, or the mined
    block [b] was accepted on top of [latest]. *)
Lemma mine_cases (fuel : nat) (clk : Chain.MineClock) (st st' : Chain.VeilChain)
    (addr : string) :
  Chain.mine_pending_transactions fuel clk st addr = Some st' ->
  (exists d, st' = Chain.set_difficulty st d)
  \/ exists d latest b,
       last (Chain.chain st) = Some latest
       /\ Chain.validate_new_block (Chain.t_validate clk) (Chain.set_difficulty st d) b
          = Some true
       /\ Blk.index b = Z.of_nat (length (Chain.chain st))
       /\ Blk.transactions b = block_transactions clk st addr
       /\ Chain.chain st' = (Chain.chain st ++ [b])%list
       /\ Chain.mempool st'
          = fold_left (fun m tx => Pool.remove_transaction m (tx_hash tx))
              (block_transactions clk st addr) (Chain.mempool st)
       /\ Chain.privacy_layer st' = Chain.privacy_layer st
       /\ Chain.orphaned_blocks st' = Chain.orphaned_blocks st.
Proof.
  unfold Chain.mine_pending_transactions, block_transactions, coinbase. intros H.
  match type of H with
  | context [Chain.get_latest_block ?s] => set (st1 := s) in H
  end.
  assert (exists d, st1 = Chain.set_difficulty st d) as [d Hst1].
  { subst st1. destruct (_ && _); [eexists; reflexivity |].
    exists (Chain.difficulty st). destruct st; reflexivity. }
  assert (Chain.get_latest_block st1 = last (Chain.chain st)) as Hl
    by (rewrite Hst1; reflexivity).
  rewrite Hl in H. destruct (last (Chain.chain st)) as [latest|] eqn:El; [| discriminate].
  destruct (Blk.mine_block _ _ _) as [mined|] eqn:Em; [| discriminate].
  destruct (Chain.validate_new_block _ _ _) as [[|]|] eqn:Ev; [| | discriminate].
  - right. exists d, latest, mined. injection H as <-.
    split; [reflexivity |]. rewrite <- Hst1. split; [exact Ev |].
    unfold Blk.mine_block in Em.
    apply mine_loop_spec in Em as (_ & _ & Hi & _ & Ht & _).
    cbn [Blk.index Blk.transactions Blk.set_merkle_root Blk.set_difficulty] in Hi, Ht.
    split; [exact Hi |]. split; [exact Ht |].
    rewrite Hst1. cbn [Chain.chain Chain.mempool Chain.privacy_layer Chain.orphaned_blocks
                       Chain.set_network Chain.set_mempool Chain.set_chain
                       Chain.set_difficulty].
    repeat split; reflexivity.
  - left. exists d. injection H as <-. exact Hst1.
Qed.

(** X10. Mining keeps a valid chain valid: whenever
    [mine_pending_transactions] returns, the chain is the old chain with at
    most one block added at the end, and it passes [is_chain_valid] if the
    old chain did. *)
Theorem mining_preserves_validity (fuel : nat) (clk : Chain.MineClock)
    (st st' : Chain.VeilChain) (addr : string) :
  Chain.is_chain_valid st = true ->
  Chain.mine_pending_transactions fuel clk st addr = Some st' ->
  Chain.is_chain_valid st' = true
  /\ exists tail, Chain.chain st' = (Chain.chain st ++ tail)%list /\ length tail <= 1.
Proof.
  intros Hv Hm. destruct (mine_cases _ _ _ _ _ Hm) as
    [[d ->] | (d & latest & b & Hl & Hval & _ & _ & Hc & _)].
  - split; [exact Hv |]. exists []. cbn [Chain.chain Chain.set_difficulty].
    rewrite app_nil_r. split; [reflexivity | cbn; lia].
  - split; [| exists [b]; split; [exact Hc | cbn; lia]].
    apply validate_new_block_true in Hval as (latest' & Hl' & Hp & _).
    cbn [Chain.chain Chain.set_difficulty] in Hl'. rewrite Hl in Hl'. injection Hl' as <-.
    unfold Chain.is_chain_valid in *. rewrite Hc.
    destruct (Chain.chain st) as [|g rest]; [discriminate |]. cbn [app].
    apply (valid_from_snoc rest g latest b Hl Hv). apply check_block_spec, Hp.
Qed.

Lemma mining_preserves_validity_witness :
  exists st', Sample.mined = Some st' /\ Chain.is_chain_valid st' = true.
Proof.
  destruct Sample.mined as [st'|] eqn:E; [| vm_compute in E; discriminate].
  exists st'. split; [reflexivity |].
  refine (proj1 (mining_preserves_validity 1000 Sample.clock Sample.fresh1 st'
                   Sample.miner _ E)).
  vm_compute. reflexivity.
Defined.

(** The entries left after removing the transactions [txs] one by one. *)
Lemma fold_remove_entries (txs : list Transaction) :
  forall (m : Pool.Mempool) (e : Pool.Entry),
    e ∈ Pool.transactions
          (fold_left (fun m tx => Pool.remove_transaction m (tx_hash tx)) txs m)
    <-> e ∈ Pool.transactions m /\ Pool.hash e ∉ map tx_hash txs.
Proof.
  induction txs as [|tx txs IH]; intros m e; cbn [fold_left map].
  - split; [intros H; split; [exact H | apply not_elem_of_nil] | intros [H _]; exact H].
  - rewrite IH. cbn [Pool.remove_transaction Pool.transactions].
    rewrite list_elem_of_filter, not_elem_of_cons. tauto.
Qed.

(** X11. When [mine_pending_transactions] has added a block, that block
    sits at height [len(chain)] on top of the former tip, is later than
    it, holds the mempool selection followed by the coinbase paid to the
    miner, and the mempool holds none of its transactions any more. *)
Theorem accepted_block_contents (fuel : nat) (clk : Chain.MineClock)
    (st st' : Chain.VeilChain) (addr : string) :
  Chain.mine_pending_transactions fuel clk st addr = Some st' ->
  Chain.chain st' <> Chain.chain st ->
  exists latest b,
    last (Chain.chain st) = Some latest
    /\ Chain.chain st' = (Chain.chain st ++ [b])%list
    /\ Blk.index b = Z.of_nat (length (Chain.chain st))
    /\ Blk.previous_hash b = Blk.hash latest
    /\ (Blk.timestamp latest < Blk.timestamp b)%Q
    /\ Blk.transactions b = block_transactions clk st addr
    /\ last (Blk.transactions b)
       = Some (coinbase addr (Z.of_nat (length (Chain.chain st))) (Chain.t_reward clk))
    /\ length (Blk.transactions b) <= 1000
    /\ forall e, e ∈ Pool.transactions (Chain.mempool st') ->
                 e ∈ Pool.transactions (Chain.mempool st)
                 /\ Pool.hash e ∉ map tx_hash (Blk.transactions b).
Proof.
  intros Hm Hne. destruct (mine_cases _ _ _ _ _ Hm) as
    [[d ->] | (d & latest & b & Hl & Hval & Hi & Ht & Hc & Hp & _)];
    [exfalso; apply Hne; reflexivity |].
  exists latest, b.
  apply validate_new_block_true in Hval as (latest' & Hl' & Hpc & Hcount & Htime & _).
  cbn [Chain.chain Chain.set_difficulty] in Hl'. rewrite Hl in Hl'. injection Hl' as <-.
  repeat split; try assumption.
  - apply Hpc.
  - rewrite Ht. unfold block_transactions. apply last_snoc.
  - rewrite Hp in H. apply fold_remove_entries in H. apply H.
  - rewrite Hp in H. apply fold_remove_entries in H. rewrite Ht. apply H.
Qed.

Lemma accepted_block_contents_witness :
  exists st' b,
    Sample.mined = Some st'
    /\ Chain.chain st' = (Chain.chain Sample.fresh1 ++ [b])%list
    /\ Blk.index b = 1%Z.
Proof.
  destruct Sample.mined as [st'|] eqn:E; [| vm_compute in E; discriminate].
  assert (Chain.chain st' <> Chain.chain Sample.fresh1) as Hne.
  { intros H. apply (f_equal length) in H. revert H.
    assert (Some (length (Chain.chain st')) = Some 2) as Hlen.
    { change (Some (length (Chain.chain st')))
        with (option_map (fun s => length (Chain.chain s)) (Some st')).
      rewrite <- E. vm_compute. reflexivity. }
    injection Hlen as ->. discriminate. }
  destruct (accepted_block_contents 1000 Sample.clock Sample.fresh1 st' Sample.miner E Hne)
    as (latest & b & _ & Hc & Hi & _).
  exists st', b. split; [reflexivity |]. split; [exact Hc | exact Hi].
Defined.

(** ** Consensus parameters (consensus.py) *)





(** X13. Difficulty retargeting: below 20 blocks the difficulty is 2; from
    20 blocks on it is at least the difficulty of the last block minus 1,
    at most that difficulty plus 1 when it is not negative, and at least 1
    when it is at least 1. *)
Theorem difficulty_retarget (chain : list Blk.Block) :
  (length chain < 20 -> ConsensusRules.calculate_difficulty chain = 2%Z)
  /\ (20 <= length chain ->
      exists tip,
        last chain = Some tip
        /\ (Blk.difficulty tip - 1 <= ConsensusRules.calculate_difficulty chain)%Z
        /\ ((0 <= Blk.difficulty tip)%Z ->
            (ConsensusRules.calculate_difficulty chain <= Blk.difficulty tip + 1)%Z)
        /\ ((1 <= Blk.difficulty tip)%Z ->
            (1 <= ConsensusRules.calculate_difficulty chain)%Z)).
Proof.
  unfold ConsensusRules.calculate_difficulty, ConsensusRules.DIFFICULTY_ADJUSTMENT_INTERVAL,
    ConsensusRules.last_n.
  split; intros Hlen.
  - apply Nat.ltb_lt in Hlen. rewrite Hlen. reflexivity.
  - assert ((length chain <? 20) = false) as -> by (apply Nat.ltb_ge; exact Hlen).
    set (recent := drop (length chain - 20) chain).
    assert (length recent = 20) as Hr by (subst recent; rewrite length_drop; lia).
    assert (last recent = last chain) as Hl.
    { subst recent. rewrite !last_lookup, lookup_drop, length_drop. f_equal. lia. }
    destruct (head recent) as [first_block|] eqn:Eh;
      [| apply head_None in Eh; rewrite Eh in Hr; discriminate].
    rewrite Hl. destruct (last chain) as [tip|] eqn:El;
      [| apply last_None in El; subst chain; cbn in Hlen; lia].
    exists tip. split; [reflexivity |].
    destruct (ConsensusRules.Qltb _ _); [repeat split; lia |].
    destruct (ConsensusRules.Qltb _ _); repeat split; lia.
Qed.

Lemma difficulty_retarget_witness :
  ConsensusRules.calculate_difficulty [Sample.g0] = 2%Z
  /\ ConsensusRules.calculate_difficulty (Sample.g0 :: Sample.grow 19 Sample.g0) = 1%Z.
Proof.
  destruct (difficulty_retarget [Sample.g0]) as [H1 _].
  destruct (difficulty_retarget (Sample.g0 :: Sample.grow 19 Sample.g0)) as [_ H2].
  split; [apply H1; cbn; lia |].
  destruct H2 as (tip & Ht & Hb & _); [cbn; lia |].
  vm_compute. reflexivity.
Defined.

(** ** Synchronisation (network.py) *)

(** X14. [sync_blockchain] adopts a received chain exactly when it is
    strictly longer than the local one and passes [is_chain_valid]; it
    replaces the chain and nothing else, with no bound on the depth and no
    orphan recorded.  So it adopts every chain the reorganization adopts. *)
Theorem sync_adopts_longer_valid_chain (now : Q) (st : Chain.VeilChain)
    (other_chain : list Blk.Block) :
  Sync.sync_blockchain now st other_chain
  = (if (length (Chain.chain st) <? length other_chain)
        && Chain.is_chain_valid (Chain.set_chain st other_chain)
     then (true, Chain.set_chain st other_chain) else (false, st))
  /\ Chain.orphaned_blocks (Sync.sync_blockchain now st other_chain).2
     = Chain.orphaned_blocks st
  /\ ((Chain.handle_chain_reorganization now st other_chain).1 = true ->
      (Sync.sync_blockchain now st other_chain).1 = true
      /\ Chain.chain (Sync.sync_blockchain now st other_chain).2
         = Chain.chain (Chain.handle_chain_reorganization now st other_chain).2).
Proof.
  unfold Sync.sync_blockchain, Chain.handle_chain_reorganization.
  change (Chain.is_chain_valid (Chain.set_chain (Chain.new_chain 2 "node_0" now) other_chain))
    with (Chain.is_chain_valid (Chain.set_chain st other_chain)).
  change (Chain.is_chain_valid
            (Chain.set_chain (Chain.new_chain 2 (Network.node_id (Chain.network st)) now)
               other_chain))
    with (Chain.is_chain_valid (Chain.set_chain st other_chain)).
  rewrite Nat.leb_antisym.
  destruct (length (Chain.chain st) <? length other_chain); cbn [negb andb];
    [| repeat split; try reflexivity; discriminate].
  destruct (Chain.is_chain_valid (Chain.set_chain st other_chain)); cbn [negb];
    [| repeat split; try reflexivity; discriminate].
  split; [reflexivity |]. split; [reflexivity |].
  destruct (_ <? _)%Z; [discriminate |]. intros _. split; reflexivity.
Qed.

Lemma sync_adopts_longer_valid_chain_witness :
  Chain.handle_chain_reorganization 2000 Sample.node Sample.competing8 = (false, Sample.node)
  /\ Sync.sync_blockchain 2000 Sample.node Sample.competing8
     = (true, Chain.set_chain Sample.node Sample.competing8)
  /\ (Sync.sync_blockchain 2000 Sample.two_chain Sample.competing3).1 = true.
Proof.
  split; [vm_compute; reflexivity |].
  split.
  - rewrite (proj1 (sync_adopts_longer_valid_chain 2000 Sample.node Sample.competing8)).
    vm_compute. reflexivity.
  - apply (sync_adopts_longer_valid_chain 2000 Sample.two_chain Sample.competing3).
    vm_compute. reflexivity.
Defined.

(** ** The UTXO pool (utxo.py) *)

(** X15. Life of an output: added under an identifier that was not spent,
    it can be read and spent once; spending returns it, removes it and
    marks it spent; a second spend finds nothing and changes nothing; and
    adding it again does nothing. *)
Theorem utxo_lifecycle (p : Utxo.UTXOPool) (u : Utxo.UTXO) :
  Utxo.get_id u ∉ Utxo.spent_utxos p ->
  let p1 := Utxo.add_utxo p u in
  let p2 := (Utxo.spend_utxo p1 (Utxo.get_id u)).2 in
  Utxo.get_utxo p1 (Utxo.get_id u) = Some u
  /\ Utxo.is_utxo_spent p1 (Utxo.get_id u) = false
  /\ (Utxo.spend_utxo p1 (Utxo.get_id u)).1 = Some u
  /\ Utxo.get_utxo p2 (Utxo.get_id u) = None
  /\ Utxo.is_utxo_spent p2 (Utxo.get_id u) = true
  /\ Utxo.spend_utxo p2 (Utxo.get_id u) = (None, p2)
  /\ Utxo.add_utxo p2 u = p2.
Proof.
  intros Hns p1 p2.
  assert (p1 = {| Utxo.utxos := <[Utxo.get_id u := u]> (Utxo.utxos p);
                  Utxo.spent_utxos := Utxo.spent_utxos p |}) as Hp1.
  { subst p1. unfold Utxo.add_utxo. destruct (decide _); [contradiction | reflexivity]. }
  assert (Utxo.spend_utxo p1 (Utxo.get_id u)
          = (Some u, {| Utxo.utxos := delete (Utxo.get_id u) (Utxo.utxos p1);
                        Utxo.spent_utxos := {[Utxo.get_id u]} ∪ Utxo.spent_utxos p1 |}))
    as Hs.
  { unfold Utxo.spend_utxo. rewrite Hp1. cbn [Utxo.utxos].
    rewrite lookup_insert_eq. reflexivity. }
  subst p2. rewrite Hs. cbn [fst snd]. unfold Utxo.get_utxo, Utxo.is_utxo_spent.
  rewrite Hp1. cbn [Utxo.utxos Utxo.spent_utxos].
  repeat split.
  - apply lookup_insert_eq.
  - apply bool_decide_eq_false_2. exact Hns.
  - apply lookup_delete_eq.
  - apply bool_decide_eq_true_2. set_solver.
  - unfold Utxo.spend_utxo. cbn [Utxo.utxos]. rewrite lookup_delete_eq. reflexivity.
  - unfold Utxo.add_utxo. cbn [Utxo.spent_utxos].
    destruct (decide _) as [|Hn]; [reflexivity |]. exfalso. apply Hn. set_solver.
Qed.

Lemma utxo_lifecycle_witness :
  (Utxo.spend_utxo (Utxo.add_utxo Utxo.empty_pool Sample2.coin_a)
     (Utxo.get_id Sample2.coin_a)).1 = Some Sample2.coin_a.
Proof.
  apply (utxo_lifecycle Utxo.empty_pool Sample2.coin_a). set_solver.
Defined.

(** X16. The operations keep the pool consistent: starting from the empty
    pool, [add_utxo] and [spend_utxo] never leave a live output under a
    spent identifier, nor under an identifier that is not its own. *)
Theorem utxo_pool_stays_consistent (p : Utxo.UTXOPool) :
  utxo_consistent Utxo.empty_pool
  /\ (utxo_consistent p ->
      (forall u, utxo_consistent (Utxo.add_utxo p u))
      /\ (forall id, utxo_consistent (Utxo.spend_utxo p id).2)).
Proof.
  split; [intros id u H; cbn in H; rewrite lookup_empty in H; discriminate |].
  intros Hc. split.
  - intros u id v. unfold Utxo.add_utxo.
    destruct (decide (Utxo.get_id u ∈ Utxo.spent_utxos p)) as [|Hn]; [apply Hc |].
    cbn [Utxo.utxos Utxo.spent_utxos]. rewrite lookup_insert.
    destruct (decide (Utxo.get_id u = id)) as [<- | Hne].
    + intros H. injection H as <-. split; [reflexivity | exact Hn].
    + apply Hc.
  - intros id' id v. unfold Utxo.spend_utxo.
    destruct (Utxo.utxos p !! id') as [w|] eqn:E; [| apply Hc].
    cbn [snd Utxo.utxos Utxo.spent_utxos]. rewrite lookup_delete.
    destruct (decide (id' = id)) as [<- | Hne]; [discriminate |].
    intros H. destruct (Hc id v H) as [H1 H2]. split; [exact H1 | set_solver].
Qed.

Lemma utxo_pool_stays_consistent_witness : utxo_consistent Sample2.pool_ab.
Proof.
  unfold Sample2.pool_ab.
  apply (utxo_pool_stays_consistent (Utxo.add_utxo Utxo.empty_pool Sample2.coin_a)).
  apply (utxo_pool_stays_consistent Utxo.empty_pool).
  apply (utxo_pool_stays_consistent Utxo.empty_pool).
Defined.

Section Exact_sums.

Local Open Scope Q_scope.

Variable k : Z.
Hypothesis Hk : (-1074 <= k)%Z.







Lemma sub_comp (a a' x x' : Q) : a == a' -> x == x' -> Float64.sub a x == Float64.sub a' x'.
Proof. intros Ea Ex. unfold Float64.sub. apply round64_comp. rewrite Ea, Ex. reflexivity. Qed.




End Exact_sums.








Lemma balance_order_self (p : Utxo.UTXOPool) (addr : string) :
  balance_order p addr (map Utxo.amount (Utxo.get_utxos_for_address p addr)).
Proof. unfold balance_order. reflexivity. Qed.





(** ** The mempool (mempool.py) *)

Lemma hash_elem_of (l : list Pool.Entry) (h : string) :
  h ∈ map Pool.hash l <-> exists e, e ∈ l /\ Pool.hash e = h.
Proof.
  rewrite list_elem_of_In, in_map_iff. split; intros (e & H1 & H2); exists e.
  - split; [apply list_elem_of_In, H2 | exact H1].
  - split; [exact H2 | apply list_elem_of_In, H1].
Qed.

Lemma existsb_hash (l : list Pool.Entry) (h : string) :
  existsb (fun e => String.eqb (Pool.hash e) h) l = true <-> h ∈ map Pool.hash l.
Proof.
  rewrite existsb_exists, hash_elem_of. split; intros (e & H1 & H2); exists e.
  - split; [apply list_elem_of_In, H1 | apply String.eqb_eq, H2].
  - split; [apply list_elem_of_In, H1 | apply String.eqb_eq, H2].
Qed.

Lemma NoDup_hash_filter (P : Pool.Entry -> Prop) `{forall e, Decision (P e)}
    (l : list Pool.Entry) :
  NoDup (map Pool.hash l) -> NoDup (map Pool.hash (filter P l)).
Proof.
  induction l as [|e l IH]; intros Hnd; [constructor |].
  cbn [map] in Hnd. apply NoDup_cons in Hnd as [Hn Hnd].
  rewrite filter_cons. destruct (decide (P e)); [| apply IH, Hnd].
  cbn [map]. apply NoDup_cons. split; [| apply IH, Hnd].
  intros Hin. apply Hn. apply hash_elem_of in Hin as (x & Hx & Hh).
  apply hash_elem_of. exists x. split; [| exact Hh].
  apply list_elem_of_filter in Hx. apply Hx.
Qed.

Lemma remove_keeps_consistent (m : Pool.Mempool) (h0 : string) :
  pool_consistent m -> pool_consistent (Pool.remove_transaction m h0).
Proof.
  intros (Hnd & He & Hf). unfold pool_consistent.
  cbn [Pool.remove_transaction Pool.transactions Pool.transaction_fees].
  split; [apply NoDup_hash_filter, Hnd |]. split.
  - intros e Hin. apply list_elem_of_filter in Hin as [Hne Hin].
    destruct (He e Hin) as [H1 H2]. split; [exact H1 |].
    rewrite lookup_delete_ne by congruence. exact H2.
  - intros h Hs. rewrite lookup_delete in Hs.
    destruct (decide (h0 = h)) as [|Hne]; [destruct Hs; discriminate |].
    apply Hf, hash_elem_of in Hs as (e & Hin & Hh). apply hash_elem_of.
    exists e. split; [| exact Hh]. apply list_elem_of_filter. split; [congruence | exact Hin].
Qed.

Lemma evict_keeps_consistent (t : Q) (m : Pool.Mempool) :
  pool_consistent m -> pool_consistent (Pool.evict_lowest_priority t m).
Proof.
  intros H. unfold Pool.evict_lowest_priority.
  destruct (Pool.transactions m); [exact H | apply remove_keeps_consistent, H].
Qed.

Lemma new_mempool_consistent : pool_consistent Pool.new_mempool.
Proof.
  unfold pool_consistent. cbn. split; [constructor |]. split.
  - intros e H. inversion H.
  - intros h [x H]. rewrite lookup_empty in H. discriminate.
Qed.

Lemma add_keeps_consistent (t1 t2 : Q) (m : Pool.Mempool) (tx : Transaction) (fee : Q) :
  pool_consistent m -> pool_consistent (Pool.add_transaction t1 t2 m tx fee).2.
Proof.
  intros Hc. unfold Pool.add_transaction.
  match goal with
  | |- context [existsb _ (Pool.transactions ?x)] => set (m1 := x)
  end.
  assert (pool_consistent m1) as (Hnd & He & Hf).
  { subst m1. destruct (_ <=? _); [apply evict_keeps_consistent, Hc | exact Hc]. }
  destruct (existsb _ _) eqn:Ex; cbn [snd]; [exact (conj Hnd (conj He Hf)) |].
  assert (tx_hash tx ∉ map Pool.hash (Pool.transactions m1)) as Hnew.
  { intros H. apply existsb_hash in H. congruence. }
  unfold pool_consistent. cbn [Pool.transactions Pool.transaction_fees].
  rewrite map_app. cbn [map Pool.hash]. split; [| split].
  - apply NoDup_app. split; [exact Hnd |]. split; [| apply NoDup_singleton].
    intros h Hh Hin. apply list_elem_of_singleton in Hin. congruence.
  - intros e Hin. apply elem_of_app in Hin as [Hin | Hin].
    + destruct (He e Hin) as [H1 H2]. split; [exact H1 |].
      rewrite lookup_insert_ne; [exact H2 |]. intros E. apply Hnew.
      apply hash_elem_of. exists e. split; [exact Hin | congruence].
    + apply list_elem_of_singleton in Hin. subst e.
      cbn [Pool.hash Pool.transaction Pool.fee]. split; [reflexivity |].
      apply lookup_insert_eq.
  - intros h Hs. apply elem_of_app. rewrite lookup_insert in Hs.
    destruct (decide (tx_hash tx = h)) as [<- | Hne]; [right; left |].
    left. apply Hf, Hs.
Qed.

Lemma aged_pool_consistent : pool_consistent Sample.aged_pool.
Proof.
  unfold Sample.aged_pool. cbv zeta.
  apply add_keeps_consistent, add_keeps_consistent, new_mempool_consistent.
Qed.

(** X18. The mempool stays consistent: the new mempool is consistent, and
    [add_transaction], [remove_transaction] and [evict_lowest_priority]
    keep it so: hashes stay pairwise different, each entry stays filed
    under the hash of its transaction, and the fee map stays in step with
    the entries. *)
Theorem mempool_stays_consistent (m : Pool.Mempool) :
  pool_consistent Pool.new_mempool
  /\ (pool_consistent m ->
      (forall t1 t2 tx fee, pool_consistent (Pool.add_transaction t1 t2 m tx fee).2)
      /\ (forall h, pool_consistent (Pool.remove_transaction m h))
      /\ (forall t, pool_consistent (Pool.evict_lowest_priority t m))).
Proof.
  split; [exact new_mempool_consistent |].
  intros Hc. split; [| split].
  - intros t1 t2 tx fee. apply add_keeps_consistent, Hc.
  - intros h. apply remove_keeps_consistent, Hc.
  - intros t. apply evict_keeps_consistent, Hc.
Qed.

Lemma mempool_stays_consistent_witness : pool_consistent Sample.tie_pool.
Proof.
  pose proof (proj1 (mempool_stays_consistent Pool.new_mempool)) as H0.
  pose proof (proj1 (proj2 (mempool_stays_consistent Pool.new_mempool) H0)
                1000%Q 1000%Q (Sample.payment 0) (1 # 1000)%Q) as H1.
  unfold Sample.tie_pool. cbv zeta.
  exact (proj1 (proj2 (mempool_stays_consistent _) H1)
           1000%Q 1000%Q (Sample.payment 1) (1 # 100)%Q).
Defined.

Lemma min_by_least (key : Pool.Entry -> Q) (l : list Pool.Entry) :
  forall best e, e ∈ best :: l -> (key (Pool.min_by key best l) <= key e)%Q.
Proof.
  induction l as [|x l IH]; intros best e Hin; cbn [Pool.min_by].
  - apply list_elem_of_singleton in Hin. subst. apply Qle_refl.
  - set (b' := if ConsensusRules.Qltb (key x) (key best) then x else best).
    assert (key b' <= key best /\ key b' <= key x)%Q as [Hb Hx].
    { subst b'. destruct (ConsensusRules.Qltb (key x) (key best)) eqn:E.
      - apply Qltb_lt in E. split; [apply Qlt_le_weak, E | apply Qle_refl].
      - apply Qltb_ge in E. split; [apply Qle_refl | exact E]. }
    pose proof (IH b' b' ltac:(left)) as Hmin.
    apply elem_of_cons in Hin as [-> | Hin]; [eapply Qle_trans; eassumption |].
    apply elem_of_cons in Hin as [-> | Hin]; [eapply Qle_trans; eassumption |].
    apply IH. right. exact Hin.
Qed.

Lemma filter_out_hash_length (l : list Pool.Entry) (v : Pool.Entry) :
  NoDup (map Pool.hash l) -> v ∈ l ->
  length (filter (fun e => Pool.hash e <> Pool.hash v) l) = length l - 1.
Proof.
  induction l as [|e l IH]; intros Hnd Hin; [inversion Hin |].
  cbn [map] in Hnd. apply NoDup_cons in Hnd as [Hn Hnd]. rewrite filter_cons.
  destruct (decide (Pool.hash e <> Pool.hash v)) as [Hne | Heq].
  - apply elem_of_cons in Hin as [-> | Hin]; [congruence |].
    cbn [length]. rewrite IH by assumption.
    destruct l; [inversion Hin | cbn; lia].
  - apply dec_stable in Heq. cbn [length]. rewrite Nat.sub_1_r. cbn [Nat.pred].
    f_equal. rewrite Heq in Hn. clear -Hn.
    induction l as [|x l IH]; [reflexivity |].
    rewrite filter_cons. cbn [map] in Hn. apply not_elem_of_cons in Hn as [Hx Hn].
    destruct (decide (Pool.hash x <> Pool.hash v)) as [|Hc]; [| exfalso; apply Hc; congruence].
    rewrite IH by exact Hn. reflexivity.
Qed.

(** X19. The capacity is kept: on a mempool with a positive [max_size]
    that holds at most [max_size] entries, [add_transaction] leaves at
    most [max_size] entries, and it never changes [max_size]. *)
Theorem mempool_capacity_kept (t1 t2 : Q) (m : Pool.Mempool) (tx : Transaction) (fee : Q) :
  0 < Pool.max_size m ->
  length (Pool.transactions m) <= Pool.max_size m ->
  Pool.get_size (Pool.add_transaction t1 t2 m tx fee).2
  <= Pool.max_size (Pool.add_transaction t1 t2 m tx fee).2
  /\ Pool.max_size (Pool.add_transaction t1 t2 m tx fee).2 = Pool.max_size m.
Proof.
  intros Hpos Hle. unfold Pool.add_transaction, Pool.get_size.
  match goal with
  | |- context [existsb _ (Pool.transactions ?x)] => set (m1 := x)
  end.
  assert (Pool.max_size m1 = Pool.max_size m
          /\ length (Pool.transactions m1) <= Pool.max_size m
          /\ (Pool.max_size m <= length (Pool.transactions m) ->
              length (Pool.transactions m1) < Pool.max_size m)) as (Hmax & Hle1 & Hlt).
  { subst m1. destruct (Pool.max_size m <=? length (Pool.transactions m)) eqn:E.
    - apply Nat.leb_le in E. unfold Pool.evict_lowest_priority.
      destruct (Pool.transactions m) as [|e l] eqn:Et; [cbn [length] in E; lia |].
      cbn [Pool.remove_transaction Pool.max_size Pool.transactions]. rewrite Et.
      assert (length (filter (fun x => Pool.hash x
                                       <> Pool.hash (Pool.min_by (Pool.priority t1) e l))
                        (e :: l)) < length (e :: l)) as Hs.
      { apply (length_filter_lt _ _ (Pool.min_by (Pool.priority t1) e l)).
        - apply min_by_elem.
        - intros H. apply H. reflexivity. }
      split; [reflexivity |]. lia.
    - apply Nat.leb_gt in E. split; [reflexivity |]. split; lia. }
  destruct (existsb _ _); cbn [snd Pool.transactions Pool.max_size].
  - split; [lia | exact Hmax].
  - rewrite length_app, Hmax. cbn [length].
    destruct (le_lt_dec (Pool.max_size m) (length (Pool.transactions m))) as [Hge | Hl].
    + specialize (Hlt Hge). split; [lia | reflexivity].
    + subst m1. assert ((Pool.max_size m <=? length (Pool.transactions m)) = false) as E
        by (apply Nat.leb_gt; exact Hl).
      rewrite E. split; [lia | reflexivity].
Qed.

Lemma mempool_capacity_kept_witness :
  Pool.get_size (Pool.add_transaction 1001 1001 Sample2.brim_pool
                   (Sample.payment 2) (1 # 1000)).2
  <= Pool.max_size (Pool.add_transaction 1001 1001 Sample2.brim_pool
                      (Sample.payment 2) (1 # 1000)).2
  /\ Pool.max_size (Pool.add_transaction 1001 1001 Sample2.brim_pool
                      (Sample.payment 2) (1 # 1000)).2
     = Pool.max_size Sample2.brim_pool.
Proof.
  apply (mempool_capacity_kept 1001 1001 Sample2.brim_pool (Sample.payment 2) (1 # 1000)).
  - vm_compute. lia.
  - vm_compute. lia.
Defined.

Lemma NoDup_hash_inj (l : list Pool.Entry) (e v : Pool.Entry) :
  NoDup (map Pool.hash l) -> e ∈ l -> v ∈ l -> Pool.hash e = Pool.hash v -> e = v.
Proof.
  induction l as [|x l IH]; intros Hnd He Hv Hh; [inversion He |].
  cbn [map] in Hnd. apply NoDup_cons in Hnd as [Hn Hnd].
  apply elem_of_cons in He as [-> | He]; apply elem_of_cons in Hv as [-> | Hv].
  - reflexivity.
  - exfalso. apply Hn. apply hash_elem_of. exists v. split; [exact Hv | congruence].
  - exfalso. apply Hn. apply hash_elem_of. exists e. split; [exact He | congruence].
  - apply IH; assumption.
Qed.

Lemma min_by_split (key : Pool.Entry -> Q) (l : list Pool.Entry) :
  forall best,
    exists before after,
      best :: l = (before ++ Pool.min_by key best l :: after)%list
      /\ Forall (fun e => (key (Pool.min_by key best l) < key e)%Q) before
      /\ Forall (fun e => (key (Pool.min_by key best l) <= key e)%Q) after.
Proof.
  induction l as [|x l IH]; intros best; cbn [Pool.min_by].
  - exists [], []. split; [reflexivity |]. split; constructor.
  - destruct (ConsensusRules.Qltb (key x) (key best)) eqn:E.
    + apply Qltb_lt in E. destruct (IH x) as (bf & af & Hs & Hb & Ha).
      exists (best :: bf), af. split; [cbn [app]; rewrite <- Hs; reflexivity |].
      split; [| exact Ha]. constructor; [| exact Hb].
      eapply Qle_lt_trans; [| exact E]. apply min_by_least. left.
    + apply Qltb_ge in E. destruct (IH best) as (bf & af & Hs & Hb & Ha).
      destruct bf as [|b0 bf].
      * cbn [app] in Hs. injection Hs as Hv Hl. subst af. exists [], (x :: l).
        split; [cbn [app]; rewrite <- Hv; reflexivity |]. split; [constructor |].
        constructor; [rewrite <- Hv; exact E | exact Ha].
      * cbn [app] in Hs. injection Hs as Hv Hl. subst b0.
        apply Forall_cons in Hb as [Hb0 Hb].
        exists (best :: x :: bf), af. split; [cbn [app]; do 2 f_equal; exact Hl |].
        split; [| exact Ha]. constructor; [exact Hb0 |]. constructor; [| exact Hb].
        eapply Qlt_le_trans; [exact Hb0 | exact E].
Qed.

Lemma filter_hash_all (l : list Pool.Entry) (h : string) :
  h ∉ map Pool.hash l -> filter (fun e => Pool.hash e <> h) l = l.
Proof.
  induction l as [|x l IH]; intros Hn; [reflexivity |].
  rewrite filter_cons. cbn [map] in Hn. apply not_elem_of_cons in Hn as [Hx Hn].
  destruct (decide (Pool.hash x <> h)) as [|Hc]; [| exfalso; apply Hc; congruence].
  f_equal. apply IH, Hn.
Qed.

(** X20. Eviction removes exactly the first entry of lowest priority: on
    a consistent, non-empty mempool whose ages and priorities at time [t]
    are finite, [evict_lowest_priority] removes one entry [v]; every entry
    before [v] has a strictly greater priority (the float
    [fee * (t - timestamp)]) and no entry after it has a smaller one; all
    other entries stay, in their order and with their fees, the size drops
    by one and the fee of [v] is forgotten. *)
Theorem eviction_removes_the_least (t : Q) (m : Pool.Mempool) :
  pool_consistent m -> Pool.transactions m <> [] -> priorities_finite t m ->
  exists before v after,
    Pool.transactions m = (before ++ v :: after)%list
    /\ Forall (fun e => (Pool.priority t v < Pool.priority t e)%Q) before
    /\ Forall (fun e => (Pool.priority t v <= Pool.priority t e)%Q) after
    /\ Pool.transactions (Pool.evict_lowest_priority t m) = (before ++ after)%list
    /\ Pool.get_size (Pool.evict_lowest_priority t m) = Pool.get_size m - 1
    /\ Pool.transaction_fees (Pool.evict_lowest_priority t m) !! Pool.hash v = None
    /\ (forall e, e ∈ (before ++ after)%list ->
          Pool.transaction_fees (Pool.evict_lowest_priority t m) !! Pool.hash e
          = Some (Pool.fee e)).
Proof.
  intros (Hnd & He & Hf) Hne _. unfold Pool.evict_lowest_priority, Pool.get_size.
  destruct (Pool.transactions m) as [|e0 l] eqn:Et; [congruence |].
  destruct (min_by_split (Pool.priority t) l e0) as (bf & af & Hs & Hb & Ha).
  set (v := Pool.min_by (Pool.priority t) e0 l) in *.
  exists bf, v, af.
  cbn [Pool.remove_transaction Pool.transactions Pool.transaction_fees]. rewrite Et, Hs.
  rewrite Hs, map_app in Hnd. cbn [map] in Hnd.
  apply NoDup_app in Hnd as (Hnb & Hdis & Hna). apply NoDup_cons in Hna as [Hva Hna].
  assert (Pool.hash v ∉ map Pool.hash bf) as Hvb.
  { intros H. apply (Hdis _ H). left. }
  assert (filter (fun x => Pool.hash x <> Pool.hash v) (bf ++ v :: af)%list
          = (bf ++ af)%list)
    as Hfilter.
  { rewrite filter_app, filter_cons.
    destruct (decide (Pool.hash v <> Pool.hash v)) as [Hc |]; [congruence |].
    rewrite !filter_hash_all by assumption. reflexivity. }
  split; [reflexivity |]. split; [exact Hb |]. split; [exact Ha |].
  split; [exact Hfilter |]. split; [rewrite Hfilter, !length_app; cbn [length]; lia |].
  split; [apply lookup_delete_eq |].
  intros e Hin. rewrite lookup_delete_ne.
  - apply He. rewrite Hs. apply elem_of_app in Hin as [Hin | Hin]; apply elem_of_app;
      [left; exact Hin | right; right; exact Hin].
  - intros Heq. apply elem_of_app in Hin as [Hin | Hin].
    + apply Hvb. rewrite Heq. apply hash_elem_of. exists e. split; [exact Hin | reflexivity].
    + apply Hva. rewrite Heq. apply hash_elem_of. exists e. split; [exact Hin | reflexivity].
Qed.

Lemma eviction_removes_the_least_witness :
  (exists before v after,
      Pool.transactions Sample2.tie64_pool = (before ++ v :: after)%list
      /\ Forall (fun e => (Pool.priority 1000 v < Pool.priority 1000 e)%Q) before
      /\ Pool.transactions (Pool.evict_lowest_priority 1000 Sample2.tie64_pool)
         = (before ++ after)%list)
  /\ map Pool.transaction
       (Pool.transactions (Pool.evict_lowest_priority 1000 Sample2.tie64_pool))
     = [Sample.payment 1].
Proof.
  split; [| vm_compute; reflexivity].
  destruct (eviction_removes_the_least 1000 Sample2.tie64_pool)
    as (bf & v & af & H1 & H2 & _ & H3 & _).
  - unfold Sample2.tie64_pool, Sample2.pool_of. cbv zeta.
    apply add_keeps_consistent, add_keeps_consistent, new_mempool_consistent.
  - vm_compute. discriminate.
  - apply priorities_finite_check. vm_compute. reflexivity.
  - exists bf, v, af. split; [exact H1 |]. split; [exact H2 | exact H3].
Defined.

Lemma tie_pool_consistent : pool_consistent Sample.tie_pool.
Proof.
  unfold Sample.tie_pool. cbv zeta.
  apply add_keeps_consistent, add_keeps_consistent, new_mempool_consistent.
Qed.

(** X21. Admission and removal are inverse below capacity: on a consistent
    mempool with room left, a transaction whose hash is not yet filed is
    accepted, appended as the last entry with its fee recorded, and
    [remove_transaction] with its hash gives back the mempool as it was. *)
Theorem accepted_then_removed (t1 t2 : Q) (m : Pool.Mempool) (tx : Transaction) (fee : Q) :
  pool_consistent m ->
  length (Pool.transactions m) < Pool.max_size m ->
  tx_hash tx ∉ map Pool.hash (Pool.transactions m) ->
  (Pool.add_transaction t1 t2 m tx fee).1 = true
  /\ Pool.get_size (Pool.add_transaction t1 t2 m tx fee).2 = S (Pool.get_size m)
  /\ last (map Pool.transaction (Pool.transactions (Pool.add_transaction t1 t2 m tx fee).2))
     = Some tx
  /\ Pool.transaction_fees (Pool.add_transaction t1 t2 m tx fee).2 !! tx_hash tx = Some fee
  /\ Pool.remove_transaction (Pool.add_transaction t1 t2 m tx fee).2 (tx_hash tx) = m.
Proof.
  intros (Hnd & He & Hf) Hlt Hnew. unfold Pool.add_transaction, Pool.get_size.
  apply Nat.leb_gt in Hlt. rewrite Hlt.
  destruct (existsb _ _) eqn:Ex; [apply existsb_hash in Ex; contradiction |].
  cbn [fst snd Pool.transactions Pool.transaction_fees].
  split; [reflexivity |]. split; [rewrite length_app; cbn [length]; lia |].
  split; [rewrite map_app; apply last_snoc |].
  split; [apply lookup_insert_eq |].
  unfold Pool.remove_transaction. cbn [Pool.transactions Pool.transaction_fees Pool.max_size].
  rewrite filter_app, filter_hash_all by exact Hnew.
  rewrite filter_cons, filter_nil. cbn [Pool.hash].
  destruct (decide (tx_hash tx <> tx_hash tx)) as [Hc |]; [congruence |].
  rewrite app_nil_r, delete_insert_id.
  - destruct m. reflexivity.
  - destruct (Pool.transaction_fees m !! tx_hash tx) eqn:El; [| reflexivity].
    exfalso. apply Hnew, Hf. exists q. exact El.
Qed.

Lemma accepted_then_removed_witness :
  Pool.remove_transaction
    (Pool.add_transaction 1001 1001 Sample.tie_pool (Sample.payment 2) (1 # 1000)).2
    (tx_hash (Sample.payment 2)) = Sample.tie_pool.
Proof.
  apply (accepted_then_removed 1001 1001 Sample.tie_pool (Sample.payment 2) (1 # 1000)).
  - exact tie_pool_consistent.
  - vm_compute. lia.
  - intros H. apply existsb_hash in H. vm_compute in H. discriminate.
Defined.

(** ** Submitting transactions to a node (blockchain.py) *)

Lemma add_accepted_elem (t1 t2 : Q) (m : Pool.Mempool) (tx : Transaction) (fee : Q) :
  (Pool.add_transaction t1 t2 m tx fee).1 = true ->
  tx ∈ map Pool.transaction (Pool.transactions (Pool.add_transaction t1 t2 m tx fee).2).
Proof.
  unfold Pool.add_transaction. destruct (existsb _ _); cbn [fst snd]; [discriminate |].
  intros _. cbn [Pool.transactions]. rewrite map_app. apply elem_of_app. right.
  cbn [map Pool.transaction]. left.
Qed.

(** X22. A node takes a nullifier once: when [VeilChain.add_transaction]
    accepts a shielded transaction, the transaction is in the mempool and
    its nullifier is in the privacy ledger; from then on every shielded
    transaction with the same nullifier is refused, and the refusal leaves
    the node as it was (nothing is evicted, nothing recorded). *)
Theorem shielded_submission_once (t1 t2 t3 t4 : Q) (st : Chain.VeilChain)
    (s s' : ShieldedTransaction.t) (fee fee' : Q) :
  (Chain.add_transaction t1 t2 st (Shielded s) fee).1 = true ->
  ShieldedTransaction.nullifier s' = ShieldedTransaction.nullifier s ->
  let st1 := (Chain.add_transaction t1 t2 st (Shielded s) fee).2 in
  Shielded s ∈ map Pool.transaction (Pool.transactions (Chain.mempool st1))
  /\ ShieldedTransaction.nullifier s ∈ Privacy.nullifier_set (Chain.privacy_layer st1)
  /\ Chain.add_transaction t3 t4 st1 (Shielded s') fee' = (false, st1).
Proof.
  intros Hok Hn. cbv zeta.
  destruct (Chain.add_transaction t1 t2 st (Shielded s) fee) as [r st1] eqn:E.
  cbn [fst snd] in *. subst r. unfold Chain.add_transaction in E.
  destruct (Privacy.verify_shielded_transaction (Chain.privacy_layer st) s)
    as [ok p] eqn:Ev.
  destruct ok; [| discriminate].
  pose proof (add_accepted_elem t1 t2 (Chain.mempool st) (Shielded s) fee) as Hin.
  destruct (Pool.add_transaction t1 t2 (Chain.mempool st) (Shielded s) fee) as [r m] eqn:Ea.
  cbn [fst snd] in Hin. injection E as E1 E2. subst r st1. specialize (Hin eq_refl).
  apply verify_shielded_accept in Ev as (_ & Hp & _).
  assert (ShieldedTransaction.nullifier s ∈ Privacy.nullifier_set p) as Hs
    by (rewrite Hp; set_solver).
  split; [exact Hin |]. split; [exact Hs |].
  unfold Chain.add_transaction.
  cbn [Chain.privacy_layer Chain.set_mempool Chain.set_privacy_layer].
  rewrite verify_shielded_reused by (rewrite Hn; exact Hs).
  f_equal.
Qed.

Lemma shielded_submission_once_witness :
  let st1 := (Chain.add_transaction 1001 1001 Sample.node (Shielded Sample.spend1)
                (1 # 1000)).2 in
  Chain.add_transaction 1004 1004 st1 (Shielded Sample.replay1) (1 # 100) = (false, st1).
Proof.
  intros st1.
  pose proof (shielded_submission_once 1001 1001 1004 1004 Sample.node
                Sample.spend1 Sample.replay1 (1 # 1000) (1 # 100)) as H.
  destruct H as (_ & _ & H).
  - vm_compute. reflexivity.
  - vm_compute. reflexivity.
  - exact H.
Defined.

(** ** The mixing pool (mixing.py) *)

Lemma set_mixed_not_similar (a : Q) (e : Mixing.Entry) :
  Mixing.similar a (Mixing.set_mixed e) = false.
Proof. unfold Mixing.similar. cbn [Mixing.set_mixed Mixing.mixed negb]. apply andb_false_r. Qed.

Lemma mark_similar_count (a : Q) (l : list Mixing.Entry) :
  forall n,
    length (List.filter (Mixing.similar a) (Mixing.mark a n l))
    = length (List.filter (Mixing.similar a) l) - n.
Proof.
  induction l as [|e l IH]; intros [|n]; cbn [Mixing.mark List.filter length];
    try reflexivity; try (symmetry; apply Nat.sub_0_r).
  destruct (Mixing.similar a e) eqn:E; cbn [List.filter].
  - rewrite set_mixed_not_similar, IH. reflexivity.
  - rewrite E. apply IH.
Qed.

Lemma mark_keeps (a : Q) (l : list Mixing.Entry) :
  forall n,
    map Mixing.amount (Mixing.mark a n l) = map Mixing.amount l
    /\ map Mixing.commitment (Mixing.mark a n l) = map Mixing.commitment l
    /\ map Mixing.timestamp (Mixing.mark a n l) = map Mixing.timestamp l.
Proof.
  induction l as [|e l IH]; intros [|n]; cbn [Mixing.mark]; try (repeat split; reflexivity).
  destruct (Mixing.similar a e); cbn [map Mixing.set_mixed Mixing.amount Mixing.commitment
                                        Mixing.timestamp].
  - destruct (IH n) as (-> & -> & ->). repeat split; reflexivity.
  - destruct (IH (S n)) as (-> & -> & ->). repeat split; reflexivity.
Qed.

Lemma mark_marks (a : Q) (c : string) (l : list Mixing.Entry) :
  forall n,
    c ∈ map Mixing.commitment (take n (List.filter (Mixing.similar a) l)) ->
    existsb (fun e => String.eqb (Mixing.commitment e) c && Mixing.mixed e)
            (Mixing.mark a n l) = true.
Proof.
  induction l as [|e l IH]; intros [|n]; cbn [Mixing.mark List.filter take map];
    try match goal with
        | |- _ ∈ [] -> _ => intros H; inversion H
        end.
  - destruct (Mixing.similar a e); intros H; inversion H.
  - destruct (Mixing.similar a e) eqn:E; cbn [take map existsb].
    + intros H. apply elem_of_cons in H as [-> | H].
      * cbn [Mixing.set_mixed Mixing.commitment Mixing.mixed].
        rewrite String.eqb_refl. reflexivity.
      * rewrite (IH n H). apply orb_true_r.
    + intros H. rewrite (IH (S n) H). apply orb_true_r.
Qed.

(** X23. Mixing works in batches of [min_pool_size]: when [can_mix] is
    false, [mix_transactions] returns the empty list and leaves the pool
    untouched; when it is true, exactly [min_pool_size] commitments are
    returned, the number of entries still available for that amount drops
    by [min_pool_size], the amounts, commitments and timestamps of the pool
    are unchanged, earlier mixed outputs are kept, and each returned
    commitment is a mixed output whose anonymity set is reported as
    [min_pool_size]. *)
Theorem mixing_in_batches (p : Mixing.MixingPool) (a : Q) :
  (Mixing.can_mix p a = false -> Mixing.mix_transactions p a = ([], p))
  /\ (Mixing.can_mix p a = true ->
      let out := (Mixing.mix_transactions p a).1 in
      let p' := (Mixing.mix_transactions p a).2 in
      length out = Mixing.min_pool_size p
      /\ length (List.filter (Mixing.similar a) (Mixing.pool p'))
         = length (List.filter (Mixing.similar a) (Mixing.pool p)) - Mixing.min_pool_size p
      /\ map Mixing.amount (Mixing.pool p') = map Mixing.amount (Mixing.pool p)
      /\ map Mixing.commitment (Mixing.pool p') = map Mixing.commitment (Mixing.pool p)
      /\ map Mixing.timestamp (Mixing.pool p') = map Mixing.timestamp (Mixing.pool p)
      /\ Mixing.mixed_outputs p ⊆ Mixing.mixed_outputs p'
      /\ Mixing.min_pool_size p' = Mixing.min_pool_size p
      /\ forall c, c ∈ out ->
           c ∈ Mixing.mixed_outputs p'
           /\ Mixing.get_anonymity_set_size p' c = Mixing.min_pool_size p).
Proof.
  unfold Mixing.can_mix, Mixing.mix_transactions. split; intros H.
  - apply Nat.leb_gt in H. apply Nat.ltb_lt in H. rewrite H. reflexivity.
  - apply Nat.leb_le in H. cbv zeta.
    destruct (_ <? _) eqn:E; [apply Nat.ltb_lt in E; lia |].
    cbn [fst snd Mixing.pool Mixing.mixed_outputs Mixing.min_pool_size].
    destruct (mark_keeps a (Mixing.pool p) (Mixing.min_pool_size p)) as (Ha & Hc & Ht).
    split; [rewrite length_map, length_take; lia |].
    split; [apply mark_similar_count |].
    split; [exact Ha |]. split; [exact Hc |]. split; [exact Ht |].
    split; [apply union_subseteq_r |]. split; [reflexivity |].
    intros c Hin.
    assert (c ∈ (list_to_set
                   (map Mixing.commitment
                      (take (Mixing.min_pool_size p)
                         (List.filter (Mixing.similar a) (Mixing.pool p))))
                   : gset string) ∪ Mixing.mixed_outputs p) as Hs.
    { apply elem_of_union. left. apply elem_of_list_to_set. exact Hin. }
    split; [exact Hs |].
    unfold Mixing.get_anonymity_set_size.
    cbn [Mixing.pool Mixing.mixed_outputs Mixing.min_pool_size].
    destruct (decide _) as [_ | Hn]; [| contradiction].
    rewrite (mark_marks a c _ _ Hin). reflexivity.
Qed.

Lemma mixing_in_batches_witness :
  (Mixing.mix_transactions Sample2.mix_pool 1).1 = ["c1"; "c2"; "c4"]
  /\ length (List.filter (Mixing.similar 1)
               (Mixing.pool (Mixing.mix_transactions Sample2.mix_pool 1).2)) = 4 - 3
  /\ Mixing.get_anonymity_set_size (Mixing.mix_transactions Sample2.mix_pool 1).2 "c4" = 3.
Proof.
  destruct (proj2 (mixing_in_batches Sample2.mix_pool 1)) as (_ & Hn & _ & _ & _ & _ & _ & Hc).
  - vm_compute. reflexivity.
  - split; [vm_compute; reflexivity |]. split.
    + exact Hn.
    + apply Hc. vm_compute. right. right. left.
Defined.

Lemma deposits_pool (notes : list (Q * string * Q)) :
  forall p,
    let p' := fold_left (fun q n => (Mixing.add_to_pool q n.1.1 n.1.2 n.2).2) notes p in
    Mixing.pool p'
    = (Mixing.pool p
       ++ map (fun n => {| Mixing.amount := n.1.1; Mixing.commitment := n.1.2;
                           Mixing.timestamp := n.2; Mixing.mixed := false |}) notes)%list
    /\ Mixing.min_pool_size p' = Mixing.min_pool_size p
    /\ Mixing.mixed_outputs p' = Mixing.mixed_outputs p.
Proof.
  induction notes as [|n notes IH]; intros p; cbn [fold_left map].
  - rewrite app_nil_r. repeat split; reflexivity.
  - destruct (IH (Mixing.add_to_pool p n.1.1 n.1.2 n.2).2) as (H1 & H2 & H3).
    cbv zeta. rewrite H1, H2, H3.
    cbn [Mixing.add_to_pool snd Mixing.pool Mixing.min_pool_size Mixing.mixed_outputs].
    rewrite <- app_assoc. repeat split; reflexivity.
Qed.

Lemma filter_all_length {A} (f : A -> bool) (l : list A) :
  Forall (fun x => f x = true) l -> length (List.filter f l) = length l.
Proof.
  induction 1 as [|x l Hx _ IH]; [reflexivity |].
  cbn [List.filter]. rewrite Hx. cbn [length]. rewrite IH. reflexivity.
Qed.

(** X24. Deposits enable mixing: whatever the pool holds, once
    [min_pool_size] or more notes have been added with [add_to_pool] whose
    amounts pass the test of the code against [a] (the absolute value of
    the float difference is below the float 0.01), [can_mix a] is true and
    [mix_transactions a] hands out [min_pool_size] commitments. *)
Theorem deposits_enable_mixing (p : Mixing.MixingPool) (a : Q)
    (notes : list (Q * string * Q)) :
  Forall (fun n => (Qabs (Float64.sub n.1.1 a) < Float64.lit (1 # 100))%Q) notes ->
  Mixing.min_pool_size p <= length notes ->
  let p' := fold_left (fun q n => (Mixing.add_to_pool q n.1.1 n.1.2 n.2).2) notes p in
  Mixing.can_mix p' a = true
  /\ length (Mixing.mix_transactions p' a).1 = Mixing.min_pool_size p.
Proof.
  intros Hsim Hlen p'. destruct (deposits_pool notes p) as (Hp & Hm & _).
  fold p' in Hp, Hm.
  assert (Mixing.min_pool_size p
          <= length (List.filter (Mixing.similar a) (Mixing.pool p'))) as Hle.
  { rewrite Hp, List.filter_app, length_app, (filter_all_length _ (map _ notes)).
    - rewrite length_map. lia.
    - apply Forall_map. eapply Forall_impl; [exact Hsim |].
      intros n Hn. unfold Mixing.similar. cbn [Mixing.amount Mixing.mixed negb].
      rewrite andb_true_r. apply Qltb_lt, Hn. }
  unfold Mixing.can_mix, Mixing.mix_transactions. rewrite Hm. split.
  - apply Nat.leb_le, Hle.
  - destruct (_ <? _) eqn:E; [apply Nat.ltb_lt in E; lia |].
    cbn [fst]. rewrite length_map, length_take. lia.
Qed.

Lemma deposits_enable_mixing_witness :
  let p' := fold_left (fun q n => (Mixing.add_to_pool q n.1.1 n.1.2 n.2).2)
              [(1, "c1", 1000); (Float64.lit (201 # 200), "c2", 1001);
               (Float64.lit (199 # 200), "c4", 1003)]%Q
              Mixing.new_pool in
  Mixing.can_mix p' 1 = true
  /\ length (Mixing.mix_transactions p' 1).1 = Mixing.min_pool_size Mixing.new_pool.
Proof.
  apply (deposits_enable_mixing Mixing.new_pool 1
           [(1, "c1", 1000); (Float64.lit (201 # 200), "c2", 1001);
            (Float64.lit (199 # 200), "c4", 1003)]%Q).
  - constructor; [vm_compute; reflexivity |].
    constructor; [vm_compute; reflexivity |].
    constructor; [vm_compute; reflexivity |]. constructor.
  - vm_compute. lia.
Defined.

(** ** Ring signatures (mixing.py) *)

Lemma ring_loop_length (token_hex : nat -> string) (l : list nat) :
  forall acc : list string * list string,
    let out := fold_left (fun '(cs, rs) i =>
                            ((cs ++ [token_hex (2 * i)])%list,
                             (rs ++ [token_hex (2 * i + 1)])%list)) l acc in
    length out.1 = length acc.1 + length l /\ length out.2 = length acc.2 + length l.
Proof.
  induction l as [|i l IH]; intros [cs rs]; cbn [fold_left fst snd length].
  - split; lia.
  - destruct (IH ((cs ++ [token_hex (2 * i)])%list, (rs ++ [token_hex (2 * i + 1)])%list))
      as [H1 H2].
    cbv zeta in H1, H2. cbn [fst snd] in H1, H2. rewrite !length_app in H1, H2.
    cbn [length] in H1, H2. split; lia.
Qed.

(** X25. A key image is good for one verification: with a private key
    whose key image is unspent, [create_ring_signature] returns a
    signature over the given ring with one [c] and one [r] per ring member;
    [verify_ring_signature] accepts it under any message, not only the one
    signed, and records the key image; afterwards the signature is refused
    and the private key cannot produce another one. *)
Theorem ring_signature_single_use (token_hex : nat -> string)
    (str_list : list string -> string) (st : Ring.RingSignature)
    (private_key : string) (public_keys : list string) (message : string) :
  sha256 (private_key ++ "key_image") ∉ Ring.key_images st ->
  exists sg,
    Ring.create_ring_signature token_hex str_list st private_key public_keys message
    = Some sg
    /\ Ring.ring sg = public_keys
    /\ length (Ring.c sg) = length public_keys
    /\ length (Ring.r sg) = length public_keys
    /\ forall message',
         let st' := (Ring.verify_ring_signature st (Some sg) message').2 in
         (Ring.verify_ring_signature st (Some sg) message').1 = true
         /\ Ring.is_key_image_spent st' (Ring.key_image sg) = true
         /\ (forall m, Ring.verify_ring_signature st' (Some sg) m = (false, st'))
         /\ (forall tok pks m,
               Ring.create_ring_signature tok str_list st' private_key pks m = None).
Proof.
  intros Hfresh. unfold Ring.create_ring_signature.
  destruct (decide _) as [Hin | _]; [contradiction |].
  pose proof (ring_loop_length token_hex (seq 0 (length public_keys)) ([], [])) as Hl.
  cbv zeta in Hl. destruct (fold_left _ _ _) as [cs rs].
  cbn [fst snd length] in Hl. rewrite length_seq in Hl. destruct Hl as [Hc Hr].
  eexists. split; [reflexivity |]. cbn [Ring.ring Ring.c Ring.r Ring.key_image].
  split; [reflexivity |]. split; [exact Hc |]. split; [exact Hr |].
  intros message'.
  match goal with
  | |- context [Ring.verify_ring_signature st (Some ?x) message'] => set (sg := x)
  end.
  assert (Ring.verify_ring_signature st (Some sg) message'
          = (true, {| Ring.key_images :=
                        {[sha256 (private_key ++ "key_image")]} ∪ Ring.key_images st |}))
    as Ev.
  { unfold Ring.verify_ring_signature. subst sg.
    cbn [Ring.ring Ring.c Ring.r Ring.key_image].
    destruct (decide _) as [Hin | _]; [contradiction |].
    rewrite Hc, Hr, Nat.eqb_refl. reflexivity. }
  rewrite Ev. cbv zeta. cbn [fst snd].
  assert (sha256 (private_key ++ "key_image")
          ∈ ({[sha256 (private_key ++ "key_image")]} ∪ Ring.key_images st : gset string))
    as Hspent by (apply elem_of_union; left; apply elem_of_singleton; reflexivity).
  split; [reflexivity |]. split; [| split].
  - unfold Ring.is_key_image_spent. cbn [Ring.key_images Ring.key_image sg].
    apply bool_decide_eq_true_2, Hspent.
  - intros m. unfold Ring.verify_ring_signature. cbn [Ring.key_image Ring.key_images sg].
    destruct (decide _) as [_ | Hn]; [reflexivity | contradiction].
  - intros tok pks m. cbn [Ring.key_images].
    destruct (decide _) as [_ | Hn]; [reflexivity | contradiction].
Qed.

Lemma ring_signature_single_use_witness :
  exists sg,
    Ring.create_ring_signature (fun i => Py.zeros 64)
      (fun l => String.concat "," l) Ring.new_ring "k1" ["a1"; "b2"] "pay"
    = Some sg
    /\ (Ring.verify_ring_signature Ring.new_ring (Some sg) "other").1 = true.
Proof.
  destruct (ring_signature_single_use (fun i => Py.zeros 64)
              (fun l => String.concat "," l) Ring.new_ring "k1" ["a1"; "b2"] "pay")
    as (sg & H1 & _ & _ & _ & H).
  - apply not_elem_of_empty.
  - exists sg. split; [exact H1 | apply (H "other")].
Defined.

(** ** The script engine (script.py) *)



(** X27. [OP_RETURN] makes a script fail: a script in which [OP_RETURN]
    occurs anywhere never succeeds, whatever the context and the stack it
    starts on, and whatever comes before or after the opcode. *)
Theorem op_return_script_fails (script : list Script.Item) (context : Script.Context) :
  Script.Op Script.OP_RETURN ∈ script ->
  forall stack, (Script.execute script context stack).1 = false.
Proof.
  induction script as [|i script IH]; intros Hin stack; [inversion Hin |].
  apply elem_of_cons in Hin as [<- | Hin]; [reflexivity |].
  destruct i as [o | v]; cbn [Script.execute].
  - destruct (Script.execute_opcode o context stack) as [[|] stack'];
      [apply IH, Hin | reflexivity].
  - apply IH, Hin.
Qed.

Lemma op_return_script_fails_witness :
  (Script.execute [Script.Data (Script.VBool true); Script.Op Script.OP_RETURN;
                   Script.Data (Script.VBool true)]
     {| Script.message := None; Script.block_time := None |} []).1 = false.
Proof.
  apply op_return_script_fails.
  apply elem_of_cons. right. apply elem_of_cons. left. reflexivity.
Defined.

(** X28. There is no control flow: [OP_IF], [OP_ELSE], [OP_ENDIF] and
    [OP_CHECKSEQUENCEVERIFY] do nothing.  Removing them from a script
    changes neither its result nor the stack it leaves, so both branches
    of a conditional are always executed. *)
Theorem control_flow_is_ignored (script : list Script.Item) (context : Script.Context) :
  forall stack,
    Script.execute (List.filter (fun i => negb (is_noop i)) script) context stack
    = Script.execute script context stack.
Proof.
  induction script as [|i script IH]; intros stack; [reflexivity |].
  cbn [List.filter].
  destruct i as [o | v]; [| cbn [is_noop negb Script.execute]; apply IH].
  destruct o; cbn [is_noop negb Script.execute]; try apply IH;
    destruct (Script.execute_opcode _ context stack) as [[|] stack'];
    try reflexivity; apply IH.
Qed.





(** ** The peer table (network.py) *)

Lemma dict_get_none (k : string) (d : list (string * PeerTable.Peer)) :
  k ∉ map fst d -> PeerTable.dict_get k d = None.
Proof.
  induction d as [|[k' v] d IH]; intros Hn; [reflexivity |].
  cbn [map fst] in Hn. apply not_elem_of_cons in Hn as [Hk Hn].
  cbn [PeerTable.dict_get]. destruct (String.eqb_spec k' k) as [-> | _]; [congruence |].
  apply IH, Hn.
Qed.











